(** * VIXcelerate: the benchmark sweep and its analysis

    A shallow embedding of [scripts/bench.py], [scripts/postprocess.py]
    and [scripts/plot_heatmap.py], and the properties of the
    measurement-and-analysis pipeline proved of it.

    - A Python [float] is an IEEE binary64 value, which is what Rocq's
      primitive [float] is; [nan] stands for a missing measurement, as in
      the scripts.
    - A Python [int] is a [Z].
    - Captured process output is a [string] (ASCII text).
    - An exception is a constructor of [exn]; code that can raise returns a
      [result].
    - Files written by the scripts are collected, in order, as [artifact]s.
      The plotting and text-formatting libraries are sinks: a plot is
      recorded with the numeric series it was given, a text file with the
      numbers it prints.
    - The persisted table is a list of rows, each row the dictionary
      [csv.DictWriter] was given / [csv.DictReader] yields, kept as an
      association list from column name to cell text in schema order.  A
      line shorter than the header is read as a row with cells that are
      [None] ([dict_row], further down).
    - [numpy.linalg.lstsq], [float()], [int()] and [str()] are library
      code: the scripts are read with them as parameters.  What the
      least-squares routine is documented to return is a hypothesis of the
      properties that need it; [ExactFit] is the least-squares problem in
      exact arithmetic, in which that promise is stated. *)

From Stdlib Require Import ZArith List String Ascii Bool Lia Sorted Permutation.
From Stdlib Require Import Floats QArith Qabs Qfield Lqa.
Import ListNotations.

Set Implicit Arguments.
#[local] Set Warnings "-inexact-float".

(** ** Exceptions and the error monad *)

Inductive exn : Set :=
| ValueError
| KeyError
| IndexError
| TypeError
| ZeroDivisionError
| StatisticsError
| LinAlgError
| FileNotFoundError
| UnicodeDecodeError
| SystemExit.

Inductive result (A : Type) : Type :=
| Ok (a : A)
| Raise (e : exn).

Arguments Ok {A} a.
Arguments Raise {A} e.

Definition bind {A B : Type} (c : result A) (k : A -> result B) : result B :=
  match c with
  | Ok a => k a
  | Raise e => Raise e
  end.

Declare Scope py_scope.
Delimit Scope py_scope with py.
Notation "x <- c ;; k" := (bind c (fun x => k))
  (at level 61, c at next level, right associativity) : py_scope.

Fixpoint mapM {A B : Type} (f : A -> result B) (l : list A) : result (list B) :=
  match l with
  | [] => Ok []
  | a :: l' => bind (f a) (fun b => bind (mapM f l') (fun bs => Ok (b :: bs)))
  end.

(** ** Python floats *)

Module Py.

(** [float(n)] for an [int], also where an [int] meets a float in [/]: the
    nearest binary64 value, ties to even.  (Beyond the binary64 range
    Python raises [OverflowError]; no thread count or work count of the
    scripts comes near it.) *)
Definition float_of_Z (z : Z) : float :=
  SF2Prim (binary_normalize prec emax z 0 false).

(** [math.isnan], [np.isnan]. *)
Definition isnan (x : float) : bool := is_nan x.

(** [x / y] on Python floats: division by zero raises. *)
Definition truediv (x y : float) : result float :=
  if (y =? 0)%float then Raise ZeroDivisionError else Ok (x / y)%float.

(** [x / y] on numpy values: division by zero gives inf or nan. *)
Definition np_div (x y : float) : float := (x / y)%float.

(** Truth value of a [str]: non-empty. *)
Definition truthy (s : string) : bool :=
  match s with EmptyString => false | String _ _ => true end.

End Py.

(** ** Regular expressions ([re]) *)

Module Re.

(** The fragment of the pattern language the scripts use: literal text, a
    greedy repetition of a character class ([cls*] or [cls+]),
    concatenation and a capturing group. *)
Inductive regex : Type :=
| Lit (s : string)
| Many (cls : ascii -> bool) (at_least_one : bool)
| Cat (r1 r2 : regex)
| Group (r : regex).

Fixpoint strip_prefix (p s : string) : option string :=
  match p, s with
  | EmptyString, _ => Some s
  | String a p', String b s' => if Ascii.eqb a b then strip_prefix p' s' else None
  | String _ _, EmptyString => None
  end.

(** The text consumed between [s] and its suffix [rest]. *)
Definition consumed (s rest : string) : string :=
  substring 0 (String.length s - String.length rest) s.

Section Match.
Variable A : Type.

(** Greedy [cls*] with backtracking: longest run first. *)
Fixpoint many (cls : ascii -> bool) (s : string) (k : string -> option A)
  : option A :=
  match s with
  | String c s' =>
      if cls c then
        match many cls s' k with
        | Some r => Some r
        | None => k s
        end
      else k s
  | EmptyString => k s
  end.

Fixpoint match_at (r : regex) (s : string) (caps : list string)
         (k : string -> list string -> option A) : option A :=
  match r with
  | Lit l =>
      match strip_prefix l s with
      | Some rest => k rest caps
      | None => None
      end
  | Many cls false => many cls s (fun rest => k rest caps)
  | Many cls true =>
      match s with
      | String c s' =>
          if cls c then many cls s' (fun rest => k rest caps) else None
      | EmptyString => None
      end
  | Cat r1 r2 =>
      match_at r1 s caps (fun rest caps' => match_at r2 rest caps' k)
  | Group r' =>
      match_at r' s caps (fun rest caps' => k rest (caps' ++ [consumed s rest]))
  end.
End Match.

(** [pattern.search(s)]: the groups of the leftmost match, [None] when
    the pattern matches nowhere. *)
Fixpoint search (r : regex) (s : string) : option (list string) :=
  match match_at r s [] (fun _ caps => Some caps) with
  | Some caps => Some caps
  | None =>
      match s with
      | String _ s' => search r s'
      | EmptyString => None
      end
  end.

(** [m.group(1)]. *)
Definition group1 (caps : list string) : string := nth 0 caps EmptyString.

(** [\s] on ASCII text. *)
Definition space (c : ascii) : bool :=
  let n := nat_of_ascii c in
  ((9 <=? n) && (n <=? 13) || (28 <=? n) && (n <=? 32))%nat.

(** [\d] on ASCII text. *)
Definition digit (c : ascii) : bool :=
  let n := nat_of_ascii c in ((48 <=? n) && (n <=? 57))%nat.

(** [[0-9.]] and [[\d\.]]. *)
Definition digit_or_dot (c : ascii) : bool :=
  digit c || Ascii.eqb c "."%char.

End Re.

(** ** bench.py: metric extraction (run_one) *)

Open Scope string_scope.

(** [APP_TIME_RE = \[bandwidth_grid_total\]\s+([\d\.]+)\s*s] *)
Definition APP_TIME_RE : Re.regex :=
  Re.Cat (Re.Lit "[bandwidth_grid_total]")
    (Re.Cat (Re.Many Re.space true)
       (Re.Cat (Re.Group (Re.Many Re.digit_or_dot true))
          (Re.Cat (Re.Many Re.space false) (Re.Lit "s")))).

(** [HC_RE = hc:\s*([0-9.]+)] *)
Definition HC_RE : Re.regex :=
  Re.Cat (Re.Lit "hc:")
    (Re.Cat (Re.Many Re.space false) (Re.Group (Re.Many Re.digit_or_dot true))).

(** [HP_RE = hp:\s*([0-9.]+)] *)
Definition HP_RE : Re.regex :=
  Re.Cat (Re.Lit "hp:")
    (Re.Cat (Re.Many Re.space false) (Re.Group (Re.Many Re.digit_or_dot true))).

(** [a or b] on match objects: a match is truthy, [None] is not. *)
Definition or_else {A : Type} (a b : option A) : option A :=
  match a with Some _ => a | None => b end.

Record Metrics : Type := {
  m_app_s : float;
  m_hc : float;
  m_hp : float
}.

Section RunOne.
(** [float(text)]; [None] is [ValueError]. *)
Variable py_float : string -> option float.

Definition to_float (s : string) : result float :=
  match py_float s with Some x => Ok x | None => Raise ValueError end.

(** [float(m.group(1)) if m else float("nan")] *)
Definition float_of_match (m : option (list string)) : result float :=
  match m with
  | Some caps => to_float (Re.group1 caps)
  | None => Ok nan
  end.

(** Lines 54-60 of [run_one]: the internal timer is searched in stdout,
    then in stderr; [hc] and [hp] are searched in stdout. *)
Definition run_one_parse (out err : string) : result Metrics :=
  (let m := or_else (Re.search APP_TIME_RE out) (Re.search APP_TIME_RE err) in
   app_time <- float_of_match m ;;
   hc <- float_of_match (Re.search HC_RE out) ;;
   hp <- float_of_match (Re.search HP_RE out) ;;
   Ok {| m_app_s := app_time; m_hc := hc; m_hp := hp |})%py.
End RunOne.

(** ** bench.py: aggregation over repeats *)

Open Scope float_scope.

(** The dictionary [run_one] returns. *)
Record Sample : Type := {
  wall_s : float;
  app_s : float;
  maxrss_kb : float;
  hc : float;
  hp : float;
  rc : Z;
  out : string;
  err : string
}.

(** [sorted(data)].  CPython's sort is stable and decides every step by
    asking [x < y].  On floats without [nan] the answer is the one stable
    ascending arrangement, which insertion produces.  Every comparison
    with [nan] answers [False], and a list on which all comparisons answer
    [False] is left as it is by any stable comparison sort, as it is here.
    For other lists with [nan] the arrangement depends on which pairs the
    sort compares, which differs between this insertion and CPython's
    sort and between versions of CPython: [[3; nan; 1]] is left as it is
    by CPython and is [[1; 3; nan]] here.  The properties below are about
    lists without [nan], lists of [nan] only, and lists in which no entry
    is smaller than the one before it, all of which CPython and this
    insertion arrange alike, or they do not depend on the arrangement. *)
Fixpoint insert (x : float) (l : list float) : list float :=
  match l with
  | [] => [x]
  | y :: l' => if x <? y then x :: l else y :: insert x l'
  end.

Definition sorted (data : list float) : list float :=
  fold_left (fun acc x => insert x acc) data [].

(** [statistics.median]. *)
Definition median (data : list float) : result float :=
  let data := sorted data in
  let n := List.length data in
  if (n =? 0)%nat then Raise StatisticsError
  else if (n mod 2 =? 1)%nat then Ok (nth (n / 2) data nan)
  else
    let i := (n / 2)%nat in
    Ok ((nth (i - 1) data nan + nth i data nan) / 2).

(** [def med(vals): return stats.median(vals) if vals else float("nan")] *)
Definition med (vals : list float) : result float :=
  match vals with
  | [] => Ok nan
  | _ :: _ => median vals
  end.

(** The serial baseline, lines 93-97 of [main]. *)
Record Baseline : Type := {
  T1_wall : float;
  T1_app : float;
  hc1 : float;
  hp1 : float
}.

Definition serial_baseline (serial_runs : list Sample) : result Baseline :=
  (T1_wall <- med (map wall_s serial_runs) ;;
   T1_app <- med (map app_s serial_runs) ;;
   hc1 <- med (map hc serial_runs) ;;
   hp1 <- med (map hp serial_runs) ;;
   Ok {| T1_wall := T1_wall; T1_app := T1_app; hc1 := hc1; hp1 := hp1 |})%py.

(** One entry of [rows], lines 102-121 of [main]. *)
Record Row : Type := {
  threads : Z;
  Tp_wall_s : float;
  Tp_app_s : float;
  speedup : float;
  efficiency : float;
  row_maxrss_kb : float;
  hc_med : float;
  hp_med : float
}.

(** [Sp = T1_wall / Tp_wall if Tp_wall > 0 else float("nan")]; the guard
    keeps the divisor away from zero, so the division does not raise. *)
Definition speedup_of (T1_wall Tp_wall : float) : float :=
  if 0 <? Tp_wall then T1_wall / Tp_wall else nan.

(** [Ep = Sp / pthr if pthr > 0 else float("nan")] *)
Definition efficiency_of (Sp : float) (pthr : Z) : float :=
  if (0 <? pthr)%Z then Sp / Py.float_of_Z pthr else nan.

Definition config_row (T1_wall : float) (pthr : Z) (runs : list Sample)
  : result Row :=
  (Tp_wall <- med (map wall_s runs) ;;
   Tp_app <- med (map app_s runs) ;;
   rss_kb <- med (filter (fun v => negb (Py.isnan v)) (map maxrss_kb runs)) ;;
   hc_med <- med (map hc runs) ;;
   hp_med <- med (map hp runs) ;;
   let Sp := speedup_of T1_wall Tp_wall in
   let Ep := efficiency_of Sp pthr in
   Ok {| threads := pthr; Tp_wall_s := Tp_wall; Tp_app_s := Tp_app;
         speedup := Sp; efficiency := Ep; row_maxrss_kb := rss_kb;
         hc_med := hc_med; hp_med := hp_med |})%py.

(** The loop over the thread counts, lines 100-121. *)
Definition bench_rows (T1_wall : float) (threads : list Z)
           (runs_of : Z -> list Sample) : result (list Row) :=
  mapM (fun pthr => config_row T1_wall pthr (runs_of pthr)) threads.

(** ** What the spec calls the aggregate of a field

    The standard median of the non-missing values, explicitly missing when
    there is none. *)
Definition non_missing (vals : list float) : list float :=
  filter (fun v => negb (Py.isnan v)) vals.

Definition middle_value (data : list float) : float :=
  let n := List.length data in
  if (n mod 2 =? 1)%nat then nth (n / 2) data nan
  else (nth (n / 2 - 1) data nan + nth (n / 2) data nan) / 2.

Definition spec_aggregate (vals : list float) : option float :=
  match non_missing vals with
  | [] => None
  | x :: l => Some (middle_value (sorted (x :: l)))
  end.

(** ** The Amdahl fit (bench.py lines 80-87, postprocess.py lines 32-38)

    The function is the same in both scripts.  It is read over any number
    type [R] with a least-squares routine [lstsq] that takes the design
    matrix by rows and answers the coefficient pair or raises. *)

Section Amdahl.
Variable R : Type.
Variable one : R.
Variable div : R -> R -> R.
Variable lstsq : list (R * R) -> list R -> result (R * R).

(** [X = np.vstack([np.ones_like(p), 1.0/p]).T] *)
Definition design_matrix (p : list R) : list (R * R) :=
  map (fun pi => (one, div one pi)) p.

Definition amdahl_serial_fraction (p_list Tp_list : list R) (T1 : R)
  : result R :=
  let p := p_list in
  let y := map (fun t => div t T1) Tp_list in
  let X := design_matrix p in
  (beta <- lstsq X y ;; Ok (fst beta))%py.
End Amdahl.

(** ** Least squares in exact arithmetic

    The least-squares problem for two columns over the rationals, and its
    solution in closed form: the solution of the normal equations when the
    Gram determinant is not zero, and otherwise
    [X^T y / (|a|^2 + |b|^2)], the solution of smallest norm for a matrix
    of rank one (zero for the zero matrix).  This is the mathematical
    problem [numpy.linalg.lstsq] is documented to solve, not the routine:
    the routine works on binary64 and is a parameter of the scripts'
    model, introduced below. *)

Module ExactFit.
Open Scope Q_scope.

Definition sumQ (l : list Q) : Q := fold_right Qplus 0 l.

Definition dot (u v : list Q) : Q :=
  sumQ (map (fun uv => fst uv * snd uv) (combine u v)).

Definition gram_det (X : list (Q * Q)) : Q :=
  let a := map fst X in
  let b := map snd X in
  dot a a * dot b b - dot a b * dot a b.

Definition solution (X : list (Q * Q)) (y : list Q) : result (Q * Q) :=
  if negb (List.length X =? List.length y)%nat then Raise LinAlgError
  else
    let a := map fst X in
    let b := map snd X in
    let saa := dot a a in
    let sab := dot a b in
    let sbb := dot b b in
    let say := dot a y in
    let sby := dot b y in
    let det := saa * sbb - sab * sab in
    if negb (Qeq_bool det 0) then
      Ok ((sbb * say - sab * sby) / det, (saa * sby - sab * say) / det)
    else if Qeq_bool (saa + sbb) 0 then Ok (0, 0)
    else Ok (say / (saa + sbb), sby / (saa + sbb)).

(** Residual sum of squares of the coefficients [beta]. *)
Definition rss (X : list (Q * Q)) (y : list Q) (beta : Q * Q) : Q :=
  sumQ (map (fun ry =>
               let r := fst ry in
               let e := fst r * fst beta + snd r * snd beta - snd ry in
               e * e)
            (combine X y)).

(** The synthetic wall time of Amdahl's law, [Tp = T1 (s + (1 - s) / p)]. *)
Definition amdahl_time (T1 s p : Q) : Q := T1 * (s + (1 - s) / p).

Definition inject_threads (P : list Z) : list Q := map inject_Z P.

(** Data that lie exactly on the line [y = s a + t b]. *)
Definition on_line (s t : Q) (X : list (Q * Q)) (y : list Q) : Prop :=
  Forall2 (fun r yi => yi == s * fst r + t * snd r) X y.

(** The squared length of [X d], for a change [d] of the coefficients. *)
Definition shift_norm (X : list (Q * Q)) (d0 d1 : Q) : Q :=
  sumQ (map (fun r => (fst r * d0 + snd r * d1) * (fst r * d0 + snd r * d1)) X).

Close Scope Q_scope.
End ExactFit.


(** ** Artifacts and the writer monad *)

Definition table : Type := list (list (string * string)).

Inductive body : Type :=
| Table (header : list string) (rows : table)
| Figure (curves : list (list float * list float))
| AmdahlText (s : float)
| SummaryText (T1 : float) (best_p : Z) (best_Tp Sp Eff : float)
| CorrectnessTable (hc1 hp1 : float)
                   (lines : list (Z * float * float * float * float)).

Record artifact : Type := { path : string; content : body }.

(** The files written so far, and how the computation ended. *)
Definition io (A : Type) : Type := (list artifact * result A)%type.

Definition io_ret {A : Type} (a : A) : io A := ([], Ok a).

Definition io_bind {A B : Type} (c : io A) (k : A -> io B) : io B :=
  match c with
  | (w, Ok a) => let (w', r) := k a in ((w ++ w')%list, r)
  | (w, Raise e) => (w, Raise e)
  end.

Definition write (a : artifact) : io unit := ([a], Ok tt).

Definition lift {A : Type} (r : result A) : io A := ([], r).

(** [try: c  except Exception: pass]; [SystemExit] is not an [Exception]. *)
Definition try_except (c : io unit) : io unit :=
  match c with
  | (w, Raise SystemExit) => c
  | (w, Raise _) => (w, Ok tt)
  | (w, Ok _) => c
  end.

Declare Scope io_scope.
Delimit Scope io_scope with io.
Notation "x <- c ;; k" := (io_bind c (fun x => k))
  (at level 61, c at next level, right associativity) : io_scope.
Notation "c ;; k" := (io_bind c (fun _ => k))
  (at level 61, right associativity) : io_scope.

Definition written {A : Type} (c : io A) : list artifact := fst c.
Definition outcome {A : Type} (c : io A) : result A := snd c.
Definition paths {A : Type} (c : io A) : list string := map path (written c).

(** [p / p[0]], the ideal speedup line. *)
Definition ideal_line (p : list float) : result (list float) :=
  match p with
  | [] => Raise IndexError
  | p0 :: _ => Ok (map (fun x => Py.np_div x p0) p)
  end.

(** ** The fit on binary64 data

    [np_lstsq] stands for [numpy.linalg.lstsq] on float arrays; [None] is
    the [LinAlgError] it raises. *)

Section NumpyFit.
Variable np_lstsq : list (float * float) -> list float -> option (float * float).

Definition np_fit (X : list (float * float)) (y : list float)
  : result (float * float) :=
  match np_lstsq X y with
  | Some beta => Ok beta
  | None => Raise LinAlgError
  end.

(** [amdahl_serial_fraction] on float arrays. *)
Definition fit_serial_fraction (p Tp : list float) (T1 : float) : result float :=
  amdahl_serial_fraction 1 PrimFloat.div np_fit p Tp T1.
End NumpyFit.

(** The block both [main]s end the analysis with (bench.py lines 180-186,
    postprocess.py lines 121-126): the estimate is written unless the fit
    raises, and an exception of the fit is swallowed. *)
Definition amdahl_step
           (np_lstsq : list (float * float) -> list float -> option (float * float))
           (p Tp : list float) (T1 : float) : io unit :=
  try_except
    (s <- lift (fit_serial_fraction np_lstsq p Tp T1) ;;
     write {| path := "plots/amdahl.txt"; content := AmdahlText s |})%io.

(** ** bench.py: main *)

Definition THREADS : list Z := [1; 2; 4; 6; 8]%Z.
Definition REPEATS : nat := 3.

Definition FIELDNAMES : list string :=
  ["NGRID"; "T1_wall_s"; "T1_app_s"; "hc1"; "hp1"; "threads"; "Tp_wall_s";
   "Tp_app_s"; "speedup"; "efficiency"; "maxrss_kb"; "hc_med"; "hp_med"].

(** What [main] holds when it writes the table: the grid size, the serial
    baseline and [rows]. *)
Record ScalingReport : Type := {
  grid : Z;
  baseline : Baseline;
  configs : list Row
}.

Section Bench.
Variable np_lstsq : list (float * float) -> list float -> option (float * float).
(** [str(x)] for a float and for an int, as [csv] writes a cell. *)
Variable str_float : float -> string.
Variable str_int : Z -> string.

(** [r2 = {serial fields}; r2.update(r)], in the order of [fieldnames]. *)
Definition csv_row (NGRID : Z) (b : Baseline) (r : Row)
  : list (string * string) :=
  [("NGRID", str_int NGRID);
   ("T1_wall_s", str_float (T1_wall b));
   ("T1_app_s", str_float (T1_app b));
   ("hc1", str_float (hc1 b));
   ("hp1", str_float (hp1 b));
   ("threads", str_int (threads r));
   ("Tp_wall_s", str_float (Tp_wall_s r));
   ("Tp_app_s", str_float (Tp_app_s r));
   ("speedup", str_float (speedup r));
   ("efficiency", str_float (efficiency r));
   ("maxrss_kb", str_float (row_maxrss_kb r));
   ("hc_med", str_float (hc_med r));
   ("hp_med", str_float (hp_med r))].

Definition write_table (rep : ScalingReport) : table :=
  map (csv_row (grid rep) (baseline rep)) (configs rep).

(** Lines 123-186 of [main], from the aggregated data on. *)
Definition bench_artifacts (rep : ScalingReport) : io unit :=
  (let rows := configs rep in
   write {| path := "plots/bench_results.csv";
            content := Table FIELDNAMES (write_table rep) |} ;;
   let p := map (fun r => Py.float_of_Z (threads r)) rows in
   let Tp := map Tp_wall_s rows in
   let Sp := map speedup rows in
   let Ep := map efficiency rows in
   let R := map row_maxrss_kb rows in
   write {| path := "plots/time_vs_threads.png";
            content := Figure [(p, Tp)] |} ;;
   ideal <- lift (ideal_line p) ;;
   write {| path := "plots/speedup.png";
            content := Figure [(p, Sp); (p, ideal)] |} ;;
   write {| path := "plots/efficiency.png";
            content := Figure [(p, Ep)] |} ;;
   (if negb (forallb Py.isnan R) then
      write {| path := "plots/memory_vs_threads.png";
               content := Figure [(p, map (fun r => Py.np_div r 1024) R)] |}
    else io_ret tt) ;;
   amdahl_step np_lstsq p Tp (T1_wall (baseline rep)))%io.

(** [main] over the samples the runs produced: [serial_runs] for the
    serial binary and [runs_of p] for the parallel binary at [p] threads. *)
Definition bench_report (NGRID : Z) (threads : list Z)
           (serial_runs : list Sample) (runs_of : Z -> list Sample)
  : io unit :=
  (base <- lift (serial_baseline serial_runs) ;;
   rows <- lift (bench_rows (T1_wall base) threads runs_of) ;;
   bench_artifacts {| grid := NGRID; baseline := base; configs := rows |})%io.

Definition bench_main (NGRID : Z) := bench_report NGRID THREADS.
End Bench.

(** ** postprocess.py *)

(** What [load] returns. *)
Record Loaded : Type := {
  ngrid : Z;
  l_T1_wall : float;
  l_T1_app : float;
  l_hc1 : float;
  l_hp1 : float;
  P : list Z;
  Tp : list float;
  Sp : list float;
  Ep : list float;
  Hc : list float;
  Hp : list float;
  Rss : list float
}.

(** [row[key]] on a row dictionary. *)
Fixpoint lookup (key : string) (row : list (string * string)) : result string :=
  match row with
  | [] => Raise KeyError
  | (k, v) :: row' => if String.eqb k key then Ok v else lookup key row'
  end.

(** [np.argmin] on a float array: the first position of the minimum, and
    the first [nan] when there is one (numpy's [DOUBLE_argmin]). *)
Fixpoint argmin_from (mp : float) (best i : nat) (a : list float) : nat :=
  match a with
  | [] => best
  | x :: a' =>
      if mp <=? x then argmin_from mp best (S i) a'
      else if Py.isnan x then i
      else argmin_from x i (S i) a'
  end.

Definition np_argmin (a : list float) : result nat :=
  match a with
  | [] => Raise ValueError
  | x :: a' => if Py.isnan x then Ok 0%nat else Ok (argmin_from x 0 1 a')
  end.

(** [a[i]]. *)
Definition index {A : Type} (a : list A) (i : nat) : result A :=
  match nth_error a i with
  | Some x => Ok x
  | None => Raise IndexError
  end.

(** [P.tolist().index(1)], after [1 in set(P.tolist())] was checked. *)
Fixpoint index_of (v : Z) (l : list Z) : result nat :=
  match l with
  | [] => Raise ValueError
  | x :: l' => if (x =? v)%Z then Ok 0%nat
               else bind (index_of v l') (fun i => Ok (S i))
  end.

Section Postprocess.
Variable np_lstsq : list (float * float) -> list float -> option (float * float).
(** [float(text)] and [int(text)]; [None] is [ValueError]. *)
Variable py_float : string -> option float.
Variable py_int : string -> option Z.

Definition to_int (s : string) : result Z :=
  match py_int s with Some n => Ok n | None => Raise ValueError end.

(** [float(r[key])] *)
Definition float_cell (key : string) (r : list (string * string))
  : result float :=
  (s <- lookup key r ;; to_float py_float s)%py.

(** [float(r[key]) if r[key] else float("nan")] *)
Definition float_cell_or_nan (key : string) (r : list (string * string))
  : result float :=
  (s <- lookup key r ;;
   if Py.truthy s then (s' <- lookup key r ;; to_float py_float s')
   else Ok nan)%py.

(** [int(r[key])] *)
Definition int_cell (key : string) (r : list (string * string)) : result Z :=
  (s <- lookup key r ;; to_int s)%py.

(** The body of the loop over the parallel rows, lines 23-29. *)
Definition load_row (r : list (string * string))
  : result (Z * float * float * float * float * float * float) :=
  (p <- int_cell "threads" r ;;
   tp <- float_cell "Tp_wall_s" r ;;
   sp <- float_cell_or_nan "speedup" r ;;
   ep <- float_cell_or_nan "efficiency" r ;;
   hc <- float_cell_or_nan "hc_med" r ;;
   hp <- float_cell_or_nan "hp_med" r ;;
   rss <- float_cell_or_nan "maxrss_kb" r ;;
   Ok (p, tp, sp, ep, hc, hp, rss))%py.

Definition load (rows : table) : result Loaded :=
  match rows with
  | [] => Raise SystemExit
  | row0 :: _ =>
      (ngrid <- int_cell "NGRID" row0 ;;
       T1_wall <- float_cell "T1_wall_s" row0 ;;
       T1_app <- float_cell "T1_app_s" row0 ;;
       hc1 <- float_cell_or_nan "hc1" row0 ;;
       hp1 <- float_cell_or_nan "hp1" row0 ;;
       cols <- mapM load_row rows ;;
       Ok {| ngrid := ngrid; l_T1_wall := T1_wall; l_T1_app := T1_app;
             l_hc1 := hc1; l_hp1 := hp1;
             P := map (fun c => match c with (p, _, _, _, _, _, _) => p end) cols;
             Tp := map (fun c => match c with (_, t, _, _, _, _, _) => t end) cols;
             Sp := map (fun c => match c with (_, _, s, _, _, _, _) => s end) cols;
             Ep := map (fun c => match c with (_, _, _, e, _, _, _) => e end) cols;
             Hc := map (fun c => match c with (_, _, _, _, h, _, _) => h end) cols;
             Hp := map (fun c => match c with (_, _, _, _, _, h, _) => h end) cols;
             Rss := map (fun c => match c with (_, _, _, _, _, _, r) => r end) cols
          |})%py
  end.

Definition floats (P : list Z) : list float := map Py.float_of_Z P.

Definition save_speedup_serial (P : list Z) (Sp : list float) : io unit :=
  (ideal <- lift (ideal_line (floats P)) ;;
   write {| path := "plots/speedup_vs_serial.png";
            content := Figure [(floats P, Sp); (floats P, ideal)] |})%io.

Definition save_speedup_parallel (P : list Z) (Tp : list float) : io unit :=
  if negb (existsb (Z.eqb 1) P) then io_ret tt
  else
    (i <- lift (index_of 1 P) ;;
     T1p <- lift (index Tp i) ;;
     let Sp_par := map (fun t => Py.np_div T1p t) Tp in
     ideal <- lift (ideal_line (floats P)) ;;
     write {| path := "plots/speedup_parallel_baseline.png";
              content := Figure [(floats P, Sp_par); (floats P, ideal)] |})%io.

(** [x - x1 if not (isnan(x) or isnan(x1)) else nan] *)
Definition delta (x x1 : float) : float :=
  if negb (Py.isnan x || Py.isnan x1) then x - x1 else nan.

Definition save_correctness_table (P : list Z) (Hc Hp : list float)
           (hc1 hp1 : float) : io unit :=
  let lines :=
    map (fun t => match t with
                  | (p, (hc, hp)) => (p, hc, delta hc hc1, hp, delta hp hp1)
                  end)
        (combine P (combine Hc Hp)) in
  write {| path := "plots/correctness_table.md";
           content := CorrectnessTable hc1 hp1 lines |}.

Definition save_summary (P : list Z) (Tp : list float) (T1_wall : float)
           (Ep : list float) : io unit :=
  (best_i <- lift (np_argmin Tp) ;;
   best_p <- lift (index P best_i) ;;
   best_Tp <- lift (index Tp best_i) ;;
   Sp <- lift (Py.truediv T1_wall best_Tp) ;;
   Eff <- lift (if (best_i <? List.length Ep)%nat then index Ep best_i
                else Py.truediv Sp (Py.float_of_Z best_p)) ;;
   write {| path := "plots/summary.txt";
            content := SummaryText T1_wall best_p best_Tp Sp Eff |})%io.

(** [QP = nstrike * (ngrid**2) * (mrange + 1)] *)
Definition work_units (ngrid nstrike mrange : Z) : Z :=
  (nstrike * ngrid ^ 2 * (mrange + 1))%Z.

(** [thr = QP / Tp], plotted as [thr / 1e6]. *)
Definition throughput (ngrid nstrike mrange : Z) (Tp : list float)
  : list float :=
  map (fun t => Py.np_div (Py.float_of_Z (work_units ngrid nstrike mrange)) t) Tp.

Definition save_throughput (P : list Z) (Tp : list float)
           (ngrid nstrike mrange : Z) : io unit :=
  let thr := throughput ngrid nstrike mrange Tp in
  write {| path := "plots/throughput.png";
           content := Figure [(floats P, map (fun x => Py.np_div x 1e6) thr)] |}.

(** [main], from the rows of the table at [--csv] and the two optional
    arguments. *)
Definition post_main (rows : table) (mrange nstrike : option Z) : io unit :=
  (L <- lift (load rows) ;;
   save_speedup_serial (P L) (Sp L) ;;
   save_speedup_parallel (P L) (Tp L) ;;
   save_correctness_table (P L) (Hc L) (Hp L) (l_hc1 L) (l_hp1 L) ;;
   save_summary (P L) (Tp L) (l_T1_wall L) (Ep L) ;;
   amdahl_step np_lstsq (floats (P L)) (Tp L) (l_T1_wall L) ;;
   match mrange, nstrike with
   | Some m, Some n => save_throughput (P L) (Tp L) (ngrid L) n m
   | _, _ => io_ret tt
   end)%io.
End Postprocess.


(** ** Values used to state the properties *)

(** The value [med] returns. *)
Definition med_value (vals : list float) : float :=
  match vals with
  | [] => nan
  | _ :: _ => middle_value (sorted vals)
  end.

(** A sample with the given measurements, exit code 0 and no output kept. *)
Definition sample_with (wall app rss hc hp : float) : Sample :=
  {| wall_s := wall; app_s := app; maxrss_kb := rss; hc := hc; hp := hp;
     rc := 0%Z; out := ""; err := "" |}.

Definition newline : string := String "010" EmptyString.

(** Three repeats that all took [wall] seconds and printed no marker. *)
Definition three_runs (wall : float) : list Sample :=
  repeat (sample_with wall nan nan nan nan) REPEATS.

(** Repeats of which only the first printed [hc]. *)
Definition hc_printed_once : list Sample :=
  [sample_with 1 nan nan 2.5 nan;
   sample_with 1 nan nan nan nan;
   sample_with 1 nan nan nan nan].

(** A run whose two correctness lines went to stderr. *)
Definition markers_on_stderr : string :=
  ("hc: 0.25" ++ newline ++ "hp: 0.5" ++ newline)%string.

(** Every file but the serial-fraction estimate. *)
Definition not_amdahl (a : artifact) : bool :=
  negb (String.eqb (path a) "plots/amdahl.txt").

Definition other_artifacts {A : Type} (c : io A) : list artifact :=
  filter not_amdahl (written c).

(** The four files [bench.py] always writes before the optional ones, lines
    123-167. *)
Definition bench_core_files (sf : float -> string) (si : Z -> string)
           (rep : ScalingReport) : list artifact :=
  let rows := configs rep in
  let p := map (fun r => Py.float_of_Z (threads r)) rows in
  [ {| path := "plots/bench_results.csv";
       content := Table FIELDNAMES (write_table sf si rep) |};
    {| path := "plots/time_vs_threads.png";
       content := Figure [(p, map Tp_wall_s rows)] |};
    {| path := "plots/speedup.png";
       content := Figure [(p, map speedup rows);
                          (p, map (fun x => Py.np_div x (hd nan p)) p)] |};
    {| path := "plots/efficiency.png";
       content := Figure [(p, map efficiency rows)] |} ].

(** The peak-memory curve, in megabytes. *)
Definition memory_file (rep : ScalingReport) : artifact :=
  let rows := configs rep in
  {| path := "plots/memory_vs_threads.png";
     content := Figure [(map (fun r => Py.float_of_Z (threads r)) rows,
                         map (fun r => Py.np_div r 1024)
                             (map row_maxrss_kb rows))] |}.

(** A least-squares routine that always raises. *)
Definition failing_lstsq (X : list (float * float)) (y : list float)
  : option (float * float) := None.

(** [i] is the first position of the minimum [m] of [a]. *)
Definition first_minimum (a : list float) (i : nat) (m : float) : Prop :=
  nth_error a i = Some m /\
  (forall j t, nth_error a j = Some t -> (m <=? t) = true) /\
  (forall j t, (j < i)%nat -> nth_error a j = Some t -> (m <? t) = true).

(** ** A lossless text format

    [str] and [float]/[int] are parameters of the scripts.  This format
    shows that what is assumed of them can be met: a float is printed from
    its sign, mantissa and exponent, a number from its binary digits. *)

Module Codec.

Fixpoint enc_pos (p : positive) : string :=
  match p with
  | xH => "."
  | xO q => String "0" (enc_pos q)
  | xI q => String "1" (enc_pos q)
  end.

Fixpoint dec_pos (s : string) : option (positive * string) :=
  match s with
  | String "." rest => Some (xH, rest)
  | String "0" s' =>
      match dec_pos s' with
      | Some (q, rest) => Some (xO q, rest)
      | None => None
      end
  | String "1" s' =>
      match dec_pos s' with
      | Some (q, rest) => Some (xI q, rest)
      | None => None
      end
  | _ => None
  end.

Definition enc_Z (z : Z) : string :=
  match z with
  | Z0 => "z"
  | Zpos p => String "+" (enc_pos p)
  | Zneg p => String "-" (enc_pos p)
  end.

Definition dec_Z (s : string) : option (Z * string) :=
  match s with
  | String "z" rest => Some (Z0, rest)
  | String "+" s' =>
      match dec_pos s' with
      | Some (p, rest) => Some (Zpos p, rest)
      | None => None
      end
  | String "-" s' =>
      match dec_pos s' with
      | Some (p, rest) => Some (Zneg p, rest)
      | None => None
      end
  | _ => None
  end.

Definition enc_sf (x : spec_float) : string :=
  match x with
  | S754_nan => "N"
  | S754_infinity false => "I"
  | S754_infinity true => "J"
  | S754_zero false => "Z"
  | S754_zero true => "Y"
  | S754_finite false m e => String "F" (enc_pos m ++ enc_Z e)
  | S754_finite true m e => String "G" (enc_pos m ++ enc_Z e)
  end.

Definition dec_finite (sign : bool) (s : string) : option spec_float :=
  match dec_pos s with
  | Some (m, rest) =>
      match dec_Z rest with
      | Some (e, EmptyString) => Some (S754_finite sign m e)
      | _ => None
      end
  | None => None
  end.

Definition dec_sf (s : string) : option spec_float :=
  match s with
  | String "N" EmptyString => Some S754_nan
  | String "I" EmptyString => Some (S754_infinity false)
  | String "J" EmptyString => Some (S754_infinity true)
  | String "Z" EmptyString => Some (S754_zero false)
  | String "Y" EmptyString => Some (S754_zero true)
  | String "F" s' => dec_finite false s'
  | String "G" s' => dec_finite true s'
  | _ => None
  end.

Definition str_float (x : float) : string := enc_sf (Prim2SF x).

Definition parse_float (s : string) : option float :=
  match dec_sf s with
  | Some x => Some (SF2Prim x)
  | None => None
  end.

Definition str_int (z : Z) : string := enc_Z z.

Definition parse_int (s : string) : option Z :=
  match dec_Z s with
  | Some (z, EmptyString) => Some z
  | _ => None
  end.

End Codec.

(** The part of a report [load] hands back. *)
Definition reloaded (rep : ScalingReport) : Loaded :=
  {| ngrid := grid rep;
     l_T1_wall := T1_wall (baseline rep);
     l_T1_app := T1_app (baseline rep);
     l_hc1 := hc1 (baseline rep);
     l_hp1 := hp1 (baseline rep);
     P := map threads (configs rep);
     Tp := map Tp_wall_s (configs rep);
     Sp := map speedup (configs rep);
     Ep := map efficiency (configs rep);
     Hc := map hc_med (configs rep);
     Hp := map hp_med (configs rep);
     Rss := map row_maxrss_kb (configs rep) |}.

(** Two reports that differ in one median internal duration only. *)
Definition report_with_app (app : float) : ScalingReport :=
  {| grid := 48;
     baseline := {| T1_wall := 10; T1_app := 9; hc1 := nan; hp1 := nan |};
     configs := [ {| threads := 1; Tp_wall_s := 10; Tp_app_s := app;
                     speedup := 1; efficiency := 1; row_maxrss_kb := nan;
                     hc_med := nan; hp_med := nan |} ] |}.

(** ** The order of binary64 values

    [SFcompare] is the lexicographic order of a key: the sign class, then
    the exponent, then the mantissa, the last two negated below zero. *)

Module FloatOrder.

Definition key (x : spec_float) : Z * Z * Z :=
  match x with
  | S754_infinity true => (-2, 0, 0)
  | S754_finite true m e => (-1, - e, - Zpos m)
  | S754_zero _ => (0, 0, 0)
  | S754_nan => (0, 0, 0)
  | S754_finite false m e => (1, e, Zpos m)
  | S754_infinity false => (2, 0, 0)
  end%Z.

Definition lex (a b : Z * Z * Z) : comparison :=
  match a, b with
  | (a1, a2, a3), (b1, b2, b3) =>
      match (a1 ?= b1)%Z with
      | Eq => match (a2 ?= b2)%Z with
              | Eq => (a3 ?= b3)%Z
              | c => c
              end
      | c => c
      end
  end.

Definition lex_lt (a b : Z * Z * Z) : Prop :=
  match a, b with
  | (a1, a2, a3), (b1, b2, b3) =>
      (a1 < b1 \/ (a1 = b1 /\ (a2 < b2 \/ (a2 = b2 /\ a3 < b3))))%Z
  end.

(** What [<?] and [<=?] say of two floats. *)
Definition number (x : float) : Prop := x <> nan.
Definition below (x y : float) : Prop :=
  lex_lt (key (Prim2SF x)) (key (Prim2SF y)).

End FloatOrder.



(** ** What the least-squares routine is asked and what it promises

    [numpy.linalg.lstsq] is not part of the scripts.  Its documentation
    promises a vector that minimises the Euclidean norm of [y - X b], up
    to rounding, and the minimiser of smallest norm when several exist.
    The properties of the fit hold for every routine [np_lstsq]; where
    they need the promise, it is a hypothesis on the call the script
    makes. *)

(** The rational a finite binary64 value is. *)
Definition SF2Q (x : spec_float) : option Q :=
  match x with
  | S754_zero _ => Some 0%Q
  | S754_finite s m e =>
      Some (Qred (inject_Z (if s then Z.neg m else Z.pos m) * Qpower 2 e))
  | S754_infinity _ => None
  | S754_nan => None
  end.

Definition float_Q (x : float) : option Q := SF2Q (Prim2SF x).

Fixpoint values (l : list float) : option (list Q) :=
  match l with
  | [] => Some []
  | x :: l' =>
      match float_Q x, values l' with
      | Some q, Some qs => Some (q :: qs)
      | _, _ => None
      end
  end.

Fixpoint row_values (X : list (float * float)) : option (list (Q * Q)) :=
  match X with
  | [] => Some []
  | (a, b) :: X' =>
      match float_Q a, float_Q b, row_values X' with
      | Some qa, Some qb, Some qs => Some ((qa, qb) :: qs)
      | _, _, _ => None
      end
  end.

(** [beta] minimises the residual sum of squares of [X b = y]. *)
Definition least_squares (X : list (Q * Q)) (y : list Q) (beta : Q * Q)
  : Prop :=
  forall beta', (ExactFit.rss X y beta <= ExactFit.rss X y beta')%Q.

(** The float [x] is finite and within [eps] of [q]. *)
Definition within (eps : Q) (x : float) (q : Q) : Prop :=
  exists v, float_Q x = Some v /\ (Qabs (v - q) <= eps)%Q.

(** The promise, for one call: the matrix and the vector are finite and
    both coefficients of [b] are within [eps] of a least-squares
    solution. *)
Definition solves_least_squares (eps : Q) (X : list (float * float))
           (y : list float) (b : float * float) : Prop :=
  exists XQ yQ beta,
    row_values X = Some XQ /\ values y = Some yQ /\
    least_squares XQ yQ beta /\
    within eps (fst b) (fst beta) /\ within eps (snd b) (snd beta).

(** The quotients [Tp / T1] the script computes are on the line of
    Amdahl's law for the serial fraction [s], up to [delta]. *)
Definition follows_amdahl (delta s : Q) (P : list Z) (y : list float) : Prop :=
  Forall2 (fun p yi => within delta yi (ExactFit.amdahl_time 1 s (inject_Z p)))
          P y.


(** A least-squares routine on floats for the examples: it refuses input
    that is not finite and rows and entries that do not match, solves the
    normal equations in binary64 arithmetic, and gives the solution of
    smallest norm for a matrix of rank one.  It is not numpy's routine. *)
Definition fsum (l : list float) : float := fold_right PrimFloat.add 0 l.

Definition fdot (u v : list float) : float :=
  fsum (map (fun uv => fst uv * snd uv) (combine u v)).

Definition normal_equations (X : list (float * float)) (y : list float)
  : option (float * float) :=
  if negb (List.length X =? List.length y)%nat then None
  else if negb (forallb (fun r => is_finite (fst r) && is_finite (snd r)) X
                && forallb is_finite y)
  then None
  else
    let a := map fst X in
    let b := map snd X in
    let saa := fdot a a in
    let sab := fdot a b in
    let sbb := fdot b b in
    let say := fdot a y in
    let sby := fdot b y in
    let det := saa * sbb - sab * sab in
    if det =? 0 then
      if saa + sbb =? 0 then Some (0, 0)
      else Some (say / (saa + sbb), sby / (saa + sbb))
    else Some ((sbb * say - sab * sby) / det, (saa * sby - sab * say) / det).

(** The spec's example: wall times on Amdahl's law for the serial
    fraction one tenth and a serial time of ten seconds, at 1, 2, 4 and 8
    threads. *)
Definition amdahl_walls : list float := [10; 5.5; 3.25; 2.125].


(** The design matrix at 1, 2, 4 and 8 threads, in exact arithmetic. *)
Definition design_1248 : list (Q * Q) :=
  [(1, 1); (1, 1 # 2); (1, 1 # 4); (1, 1 # 8)]%Q.

(** * More of the scripts *)

(** ** The median on data without missing values *)

(** A list in ascending order of [<=]. *)
Definition ascending (l : list float) : Prop :=
  StronglySorted (fun a b => (a <=? b) = true) l.

(** How many values are at most, and at least, [m]. *)
Definition count_le (m : float) (vals : list float) : nat :=
  List.length (filter (fun v => v <=? m) vals).

Definition count_ge (m : float) (vals : list float) : nat :=
  List.length (filter (fun v => m <=? v) vals).

(** Three wall times, and four. *)
Definition three_walls : list float := [3; 1; 2].
Definition four_walls : list float := [4; 1; 3; 2].

(** ** postprocess.py: the rows [csv.DictReader] gives

    The reader names the cells of a data line after the header line.  A
    line with fewer cells than the header has no text for its last
    columns: the reader fills them with [None].  A row here has one entry
    for each column of the header, a text or [None]; the rows of [load]
    above are the ones with a text in every column. *)

Definition cell : Type := option string.
Definition dict_row : Type := list (string * cell).

(** [row[key]]: [KeyError] when the header has no such column. *)
Fixpoint item (key : string) (row : dict_row) : result cell :=
  match row with
  | [] => Raise KeyError
  | (k, v) :: row' => if String.eqb k key then Ok v else item key row'
  end.

(** [if c]: [None] and the empty text are false. *)
Definition cell_truthy (c : cell) : bool :=
  match c with
  | Some s => Py.truthy s
  | None => false
  end.

Section DictRows.
Variable np_lstsq : list (float * float) -> list float -> option (float * float).
Variable py_float : string -> option float.
Variable py_int : string -> option Z.

(** [float(c)] and [int(c)]: [TypeError] on [None]. *)
Definition float_of_cell (c : cell) : result float :=
  match c with
  | Some s => to_float py_float s
  | None => Raise TypeError
  end.

Definition int_of_cell (c : cell) : result Z :=
  match c with
  | Some s => to_int py_int s
  | None => Raise TypeError
  end.

(** [float(r[key])] *)
Definition dict_float_cell (key : string) (r : dict_row) : result float :=
  (c <- item key r ;; float_of_cell c)%py.

(** [float(r[key]) if r[key] else float("nan")] *)
Definition dict_float_cell_or_nan (key : string) (r : dict_row)
  : result float :=
  (c <- item key r ;;
   if cell_truthy c then (c' <- item key r ;; float_of_cell c')
   else Ok nan)%py.

(** [int(r[key])] *)
Definition dict_int_cell (key : string) (r : dict_row) : result Z :=
  (c <- item key r ;; int_of_cell c)%py.

(** The body of the loop over the parallel rows, lines 23-29. *)
Definition load_dict_row (r : dict_row)
  : result (Z * float * float * float * float * float * float) :=
  (p <- dict_int_cell "threads" r ;;
   tp <- dict_float_cell "Tp_wall_s" r ;;
   sp <- dict_float_cell_or_nan "speedup" r ;;
   ep <- dict_float_cell_or_nan "efficiency" r ;;
   hc <- dict_float_cell_or_nan "hc_med" r ;;
   hp <- dict_float_cell_or_nan "hp_med" r ;;
   rss <- dict_float_cell_or_nan "maxrss_kb" r ;;
   Ok (p, tp, sp, ep, hc, hp, rss))%py.

(** [load], lines 6-30, on the rows of the reader. *)
Definition load_dict (rows : list dict_row) : result Loaded :=
  match rows with
  | [] => Raise SystemExit
  | row0 :: _ =>
      (ngrid <- dict_int_cell "NGRID" row0 ;;
       T1_wall <- dict_float_cell "T1_wall_s" row0 ;;
       T1_app <- dict_float_cell "T1_app_s" row0 ;;
       hc1 <- dict_float_cell_or_nan "hc1" row0 ;;
       hp1 <- dict_float_cell_or_nan "hp1" row0 ;;
       cols <- mapM load_dict_row rows ;;
       Ok {| ngrid := ngrid; l_T1_wall := T1_wall; l_T1_app := T1_app;
             l_hc1 := hc1; l_hp1 := hp1;
             P := map (fun c => match c with (p, _, _, _, _, _, _) => p end) cols;
             Tp := map (fun c => match c with (_, t, _, _, _, _, _) => t end) cols;
             Sp := map (fun c => match c with (_, _, s, _, _, _, _) => s end) cols;
             Ep := map (fun c => match c with (_, _, _, e, _, _, _) => e end) cols;
             Hc := map (fun c => match c with (_, _, _, _, h, _, _) => h end) cols;
             Hp := map (fun c => match c with (_, _, _, _, _, h, _) => h end) cols;
             Rss := map (fun c => match c with (_, _, _, _, _, _, r) => r end) cols
          |})%py
  end.

(** [load(csv_path)], lines 6-30: [reading] is what opening the file and
    running the reader over it gives, the rows or the exception raised
    there, [FileNotFoundError] for a path without a file. *)
Definition load_file (reading : result (list dict_row)) : result Loaded :=
  (rows <- reading ;; load_dict rows)%py.

(** [main], lines 103-133. *)
Definition post_main_dict (reading : result (list dict_row))
           (mrange nstrike : option Z) : io unit :=
  (L <- lift (load_file reading) ;;
   save_speedup_serial (P L) (Sp L) ;;
   save_speedup_parallel (P L) (Tp L) ;;
   save_correctness_table (P L) (Hc L) (Hp L) (l_hc1 L) (l_hp1 L) ;;
   save_summary (P L) (Tp L) (l_T1_wall L) (Ep L) ;;
   amdahl_step np_lstsq (floats (P L)) (Tp L) (l_T1_wall L) ;;
   match mrange, nstrike with
   | Some m, Some n => save_throughput (P L) (Tp L) (ngrid L) n m
   | _, _ => io_ret tt
   end)%io.

(** The columns [load] reads without a test for an empty cell. *)
Definition REQUIRED_COLUMNS : list string :=
  ["NGRID"; "T1_wall_s"; "T1_app_s"; "threads"; "Tp_wall_s"].

(** How reading the cell [key] of [row] fails with [e]: the header has no
    such column, or the row is too short to have the cell and the column
    is a required one, or the cell has a text that [float] or [int]
    refuses. *)
Definition cell_failure (key : string) (row : dict_row) (e : exn) : Prop :=
  (item key row = Raise KeyError /\ e = KeyError) \/
  (item key row = Ok None /\ In key REQUIRED_COLUMNS /\ e = TypeError) \/
  (exists s, item key row = Ok (Some s) /\ e = ValueError /\
             (py_float s = None \/ py_int s = None)).
End DictRows.

(** The row of a line that has a text for every column. *)
Definition complete (row : list (string * string)) : dict_row :=
  map (fun kv => (fst kv, Some (snd kv))) row.

(** A cell without a number: no text, or the empty text. *)
Definition blank (c : result cell) : Prop :=
  c = Ok None \/ c = Ok (Some EmptyString).

(** A line of the table that stops after the serial times. *)
Definition cut_row : dict_row :=
  [("NGRID", Some (Codec.str_int 48));
   ("T1_wall_s", Some (Codec.str_float 10));
   ("T1_app_s", Some (Codec.str_float 9));
   ("hc1", None);
   ("hp1", None);
   ("threads", None);
   ("Tp_wall_s", None);
   ("Tp_app_s", None);
   ("speedup", None);
   ("efficiency", None);
   ("maxrss_kb", None);
   ("hc_med", None);
   ("hp_med", None)].

(** A line of the table that stops after the efficiency, with an empty
    cell for the speedup. *)
Definition short_row : dict_row :=
  [("NGRID", Some (Codec.str_int 48));
   ("T1_wall_s", Some (Codec.str_float 10));
   ("T1_app_s", Some (Codec.str_float 9));
   ("hc1", Some EmptyString);
   ("hp1", Some EmptyString);
   ("threads", Some (Codec.str_int 2));
   ("Tp_wall_s", Some (Codec.str_float 5));
   ("Tp_app_s", Some (Codec.str_float 4));
   ("speedup", Some EmptyString);
   ("efficiency", Some (Codec.str_float 1));
   ("maxrss_kb", None);
   ("hc_med", None);
   ("hp_med", None)].

(** ** plot_heatmap.py

    The script loads the matrix of objective values over the pairs of
    bandwidths and marks the cell of the smallest value.  [np.loadtxt]
    gives a two-dimensional array when the file has at least two rows of
    at least two values each, all of one length; the array is read by
    rows. *)

Definition matrix : Type := list (list float).

(** [m.shape] *)
Definition shape (m : matrix) : nat * nat :=
  (List.length m, List.length (hd [] m)).

(** The entries in memory order, row after row. *)
Definition ravel (m : matrix) : list float := List.concat m.

(** [a, mask = _replace_nan(a, np.inf)] *)
Definition replace_nan (a : list float) : list float :=
  map (fun x => if Py.isnan x then infinity else x) a.

(** [np.nanargmin(a)] on the whole array: [ValueError] when every entry
    is [nan] and on an empty array, else [np.argmin] after each [nan] was
    replaced by [+inf]. *)
Definition np_nanargmin (a : list float) : result nat :=
  if forallb Py.isnan a then Raise ValueError
  else np_argmin (replace_nan a).

(** [np.unravel_index(k, shape)] for two dimensions. *)
Definition np_unravel_index (k : nat) (shp : nat * nat) : result (nat * nat) :=
  let (r, c) := shp in
  if (k <? r * c)%nat then Ok ((k / c)%nat, (k mod c)%nat)
  else Raise ValueError.

(** The figure: the image and the marker, [plt.scatter([argmin[1]],
    [argmin[0]])], so the column is the abscissa. *)
Record Heatmap : Type := {
  image : matrix;
  marker_x : nat;
  marker_y : nat
}.

Definition plot_heatmap (m : matrix) : result Heatmap :=
  (k <- np_nanargmin (ravel m) ;;
   argmin <- np_unravel_index k (shape m) ;;
   Ok {| image := m; marker_x := snd argmin; marker_y := fst argmin |})%py.

(** Every row has [c] entries. *)
Definition rectangular (c : nat) (m : matrix) : Prop :=
  Forall (fun row => List.length row = c) m.

(** The value an entry counts as in [np.nanargmin]. *)
Definition nan_as_inf (x : float) : float :=
  if Py.isnan x then infinity else x.

(** A surface with a missing value and its minimum in the second row. *)
Definition surface : matrix := [[nan; 5; 4]; [3; 1; 1]].

(** ** bench.py: the peak memory of a run (run_one, lines 62-74)

    The text is ASCII, as [/usr/bin/time] prints it. *)

(** [c.lower()] *)
Definition lower_char (c : ascii) : ascii :=
  let n := nat_of_ascii c in
  if ((65 <=? n) && (n <=? 90))%nat then ascii_of_nat (n + 32) else c.

(** [s.lower()] *)
Fixpoint lower (s : string) : string :=
  match s with
  | EmptyString => EmptyString
  | String c s' => String (lower_char c) (lower s')
  end.

(** [key in s] *)
Fixpoint contains (key s : string) : bool :=
  match Re.strip_prefix key s with
  | Some _ => true
  | None =>
      match s with
      | String _ s' => contains key s'
      | EmptyString => false
      end
  end.

(** The line boundaries of [str.splitlines] in ASCII: line feed, vertical
    tab, form feed, carriage return and the file, group and record
    separators. *)
Definition is_linebreak (c : ascii) : bool :=
  let n := nat_of_ascii c in
  ((10 <=? n) && (n <=? 13) || (28 <=? n) && (n <=? 30))%nat.

(** [s.splitlines()], with [cur] the line read so far: a carriage return
    followed by a line feed is one boundary, and a boundary at the end of
    the text opens no further line. *)
Fixpoint splitlines_from (cur s : string) : list string :=
  match s with
  | EmptyString =>
      match cur with
      | EmptyString => []
      | _ => [cur]
      end
  | String c s' =>
      if is_linebreak c then
        cur :: match s' with
               | String c' s'' =>
                   if (Ascii.eqb c "013" && Ascii.eqb c' "010")%bool
                   then splitlines_from EmptyString s''
                   else splitlines_from EmptyString s'
               | EmptyString => []
               end
      else splitlines_from (cur ++ String c EmptyString) s'
  end.

Definition splitlines (s : string) : list string :=
  splitlines_from EmptyString s.

(** [re.findall(r"(\d+)", line)], with [cur] the digits read so far: the
    maximal runs of digits from left to right. *)
Fixpoint findall_digits_from (cur s : string) : list string :=
  match s with
  | EmptyString =>
      match cur with
      | EmptyString => []
      | _ => [cur]
      end
  | String c s' =>
      if Re.digit c then findall_digits_from (cur ++ String c EmptyString) s'
      else
        match cur with
        | EmptyString => findall_digits_from EmptyString s'
        | _ => cur :: findall_digits_from EmptyString s'
        end
  end.

Definition findall_digits (line : string) : list string :=
  findall_digits_from EmptyString line.

(** [toks[-1]] when [toks] is not empty. *)
Definition last_token (toks : list string) : option string :=
  match toks with
  | [] => None
  | t :: toks' => Some (last toks' t)
  end.

(** The two phrases [run_one] looks for. *)
Definition RSS_KEYS : list string :=
  ["maximum resident set size"; "maximum resident set size (kbytes)"].

Section MaxRss.
Variable py_float : string -> option float.

(** The loop over the lines, lines 68-73: at the first line that holds the
    phrase the loop ends, with the last integer of the line when it has
    one. *)
Fixpoint scan_lines (key : string) (lines : list string) (maxrss_kb : float)
  : result float :=
  match lines with
  | [] => Ok maxrss_kb
  | line :: lines' =>
      if contains key (lower line) then
        match last_token (findall_digits line) with
        | Some t => to_float py_float t
        | None => Ok maxrss_kb
        end
      else scan_lines key lines' maxrss_kb
  end.

(** The loop over the phrases, lines 65-74: the first phrase found in the
    text ends the loop. *)
Fixpoint scan_keys (keys : list string) (out err : string) (maxrss_kb : float)
  : result float :=
  match keys with
  | [] => Ok maxrss_kb
  | key :: keys' =>
      if contains key (lower (out ++ newline ++ err)) then
        scan_lines key (splitlines (out ++ newline ++ err)) maxrss_kb
      else scan_keys keys' out err maxrss_kb
  end.

(** Lines 62-74. *)
Definition run_one_maxrss (out err : string) : result float :=
  scan_keys RSS_KEYS out err nan.

(** What [run_one] returns for a process that took [wall] seconds, ended
    with the status [rc] and printed [out] and [err], lines 50-76. *)
Definition run_one (wall : float) (rc : Z) (out err : string)
  : result Sample :=
  (m <- run_one_parse py_float out err ;;
   maxrss_kb <- run_one_maxrss out err ;;
   Ok {| wall_s := wall; app_s := m_app_s m; maxrss_kb := maxrss_kb;
         hc := m_hc m; hp := m_hp m; rc := rc; out := out; err := err |})%py.
End MaxRss.

(** The text is made of digits. *)
Fixpoint all_digits (s : string) : bool :=
  match s with
  | EmptyString => true
  | String c s' => Re.digit c && all_digits s'
  end.

(** The line of [/usr/bin/time -v] with the peak memory. *)
Definition linux_time_line : string :=
  "Maximum resident set size (kbytes): 20480".

(** What a run measured: the fields of the dictionary that are numbers. *)
Definition measures (r : Sample) : float * float * float * float * float :=
  (wall_s r, app_s r, maxrss_kb r, hc r, hp r).

(** The value of a text of decimal digits after the digits [acc]. *)
Fixpoint decimal_value (acc : Z) (s : string) : Z :=
  match s with
  | EmptyString => acc
  | String c s' =>
      decimal_value (10 * acc + (Z.of_nat (nat_of_ascii c) - 48))%Z s'
  end.

(** [float(t)] on the texts [\d+] matches; other texts are refused here. *)
Definition float_of_digits (t : string) : option float :=
  match t with
  | EmptyString => None
  | _ => if all_digits t then Some (Py.float_of_Z (decimal_value 0 t))
         else None
  end.

(** The same measurements from a run that ended in a crash. *)
Definition crashed (r : Sample) : Sample :=
  {| wall_s := wall_s r; app_s := app_s r; maxrss_kb := maxrss_kb r;
     hc := hc r; hp := hp r;
     rc := 139; out := EmptyString; err := "Segmentation fault" |}.

(** ** bench.py: main over the processes it starts *)

(** The two programs, [vix_seq] and [vix_omp]. *)
Inductive binary : Type := SEQ_BIN | OMP_BIN.

(** A finished process, lines 45-52: the seconds between the two readings
    of the clock, the exit status and the two texts. *)
Record Finished : Type := {
  f_wall : float;
  f_rc : Z;
  f_out : string;
  f_err : string
}.

(** Lines 23-26: [sys.exit] when a program is missing, else the
    directory of the plots is made; [mkdir] is what making it gives. *)
Definition ensure_paths (seq_exists omp_exists : bool) (mkdir : result unit)
  : result unit :=
  if (negb seq_exists || negb omp_exists)%bool then Raise SystemExit
  else mkdir.

Section BenchRun.
Variable np_lstsq : list (float * float) -> list float -> option (float * float).
Variable str_float : float -> string.
Variable str_int : Z -> string.
Variable py_float : string -> option float.
(** What [subprocess.run] gives for the start number [i] of a program when
    [OMP_NUM_THREADS] is [threads]: the finished process, or the exception
    it raises, [FileNotFoundError] when the program cannot be started and
    [UnicodeDecodeError] when its output is not text. *)
Variable process : binary -> Z -> nat -> result Finished.

(** [[run_one(cmd, threads=t) for _ in range(REPEATS)]] *)
Definition repeats (b : binary) (t : Z) : result (list Sample) :=
  mapM (fun i => (f <- process b t i ;;
                  run_one py_float (f_wall f) (f_rc f) (f_out f) (f_err f))%py)
       (seq 0 REPEATS).

(** [main], lines 89-186: every process is started and read before the
    first file is written. *)
Definition bench_run (seq_exists omp_exists : bool) (mkdir : result unit)
           (NGRID : Z) : io unit :=
  (lift (ensure_paths seq_exists omp_exists mkdir) ;;
   serial_runs <- lift (repeats SEQ_BIN 1) ;;
   base <- lift (serial_baseline serial_runs) ;;
   rows <- lift (mapM (fun pthr =>
                         (runs <- repeats OMP_BIN pthr ;;
                          config_row (T1_wall base) pthr runs)%py)
                      THREADS) ;;
   bench_artifacts np_lstsq str_float str_int
                   {| grid := NGRID; baseline := base; configs := rows |})%io.

(** The runs of a program, when all of them were read. *)
Definition samples (b : binary) (t : Z) : list Sample :=
  match repeats b t with
  | Ok runs => runs
  | Raise _ => []
  end.
End BenchRun.

(** A process that took two seconds and printed the line of
    [/usr/bin/time]. *)
Definition timed_process (b : binary) (t : Z) (i : nat) : result Finished :=
  Ok {| f_wall := 2; f_rc := 0; f_out := EmptyString;
        f_err := linux_time_line |}.

(** ** bench.py: what the patterns capture *)

(** Every character of the text is in the class. *)
Fixpoint all_in (cls : ascii -> bool) (s : string) : bool :=
  match s with
  | EmptyString => true
  | String c s' => cls c && all_in cls s'
  end.

(** A text of digits and dots. *)
Definition digits_and_dots (t : string) : Prop :=
  t <> EmptyString /\ all_in Re.digit_or_dot t = true.

(** A line of the program with a bandwidth. *)
Definition hc_line : string := "best hc: 0.25 (cv)".
(** * Facts about binary64 values *)

Open Scope list_scope.

Module FloatFacts.
Import FloatOrder.

Lemma SFcompare_refl (x : spec_float) :
  x <> S754_nan -> SFcompare x x = Some Eq.
Proof.
  destruct x as [s | s | | s m e]; simpl; intros H; try congruence.
  - now destruct s.
  - rewrite Z.compare_refl.
    destruct s; simpl; rewrite ?Pos.compare_refl; reflexivity.
Qed.

Lemma Prim2SF_nan : Prim2SF nan = S754_nan.
Proof. reflexivity. Qed.

Lemma isnan_iff (x : float) : Py.isnan x = true <-> x = nan.
Proof.
  unfold Py.isnan, is_nan. rewrite FloatAxioms.eqb_spec. unfold SFeqb. split.
  - intros H. apply Prim2SF_inj. rewrite Prim2SF_nan.
    destruct (Prim2SF x) eqn:E; try reflexivity;
      rewrite SFcompare_refl in H by congruence; discriminate.
  - intros ->. reflexivity.
Qed.

Lemma isnan_false_iff (x : float) : Py.isnan x = false <-> x <> nan.
Proof.
  split.
  - intros H E. apply isnan_iff in E. congruence.
  - intros H. destruct (Py.isnan x) eqn:E; [| reflexivity].
    apply isnan_iff in E. contradiction.
Qed.

Lemma div_nan_l (x : float) : nan / x = nan.
Proof. apply Prim2SF_inj. rewrite div_spec. reflexivity. Qed.

Lemma div_nan_r (x : float) : x / nan = nan.
Proof.
  apply Prim2SF_inj. rewrite div_spec. simpl.
  unfold SF64div, SFdiv. now destruct (Prim2SF x).
Qed.

Lemma ltb_nan_r (x : float) : (x <? nan) = false.
Proof.
  rewrite FloatAxioms.ltb_spec. unfold SFltb. simpl. now destruct (Prim2SF x).
Qed.

Lemma ltb_nan_l (x : float) : (nan <? x) = false.
Proof. rewrite FloatAxioms.ltb_spec. reflexivity. Qed.

Lemma leb_nan_r (x : float) : (x <=? nan) = false.
Proof.
  rewrite FloatAxioms.leb_spec. unfold SFleb. simpl. now destruct (Prim2SF x).
Qed.

Lemma leb_nan_l (x : float) : (nan <=? x) = false.
Proof. rewrite FloatAxioms.leb_spec. reflexivity. Qed.

(** A value at or below zero is not above zero. *)
Lemma leb_zero_not_pos (x : float) : (x <=? 0) = true -> (0 <? x) = false.
Proof.
  rewrite FloatAxioms.leb_spec, FloatAxioms.ltb_spec. unfold SFleb, SFltb.
  change (Prim2SF 0) with (S754_zero false).
  destruct (Prim2SF x) as [s | s | | s m e]; simpl; try discriminate;
    try reflexivity; destruct s; simpl; congruence.
Qed.

(** A value above zero is not zero: a guarded division does not raise. *)
Lemma pos_not_zero (x : float) : (0 <? x) = true -> (x =? 0) = false.
Proof.
  rewrite FloatAxioms.eqb_spec, FloatAxioms.ltb_spec. unfold SFeqb, SFltb.
  change (Prim2SF 0) with (S754_zero false).
  destruct (Prim2SF x) as [s | s | | s m e]; simpl; try discriminate;
    try reflexivity; destruct s; simpl; congruence.
Qed.

Lemma truediv_guarded (x y : float) :
  (0 <? y) = true -> Py.truediv x y = Ok (x / y).
Proof.
  intros H. unfold Py.truediv. now rewrite (pos_not_zero H).
Qed.

(** *** The order of the values that are not [nan] *)

Lemma lex_Lt_iff a b : lex a b = Lt <-> lex_lt a b.
Proof.
  destruct a as [[a1 a2] a3], b as [[b1 b2] b3]. unfold lex, lex_lt.
  destruct (Z.compare_spec a1 b1), (Z.compare_spec a2 b2),
    (Z.compare_spec a3 b3); split; intros G; try discriminate G;
    try reflexivity; lia.
Qed.

Lemma lex_Gt_iff a b : lex a b = Gt <-> lex_lt b a.
Proof.
  destruct a as [[a1 a2] a3], b as [[b1 b2] b3]. unfold lex, lex_lt.
  destruct (Z.compare_spec a1 b1), (Z.compare_spec a2 b2),
    (Z.compare_spec a3 b3); split; intros G; try discriminate G;
    try reflexivity; lia.
Qed.

Lemma lex_lt_trans a b c : lex_lt a b -> lex_lt b c -> lex_lt a c.
Proof.
  destruct a as [[a1 a2] a3], b as [[b1 b2] b3], c as [[c1 c2] c3].
  unfold lex_lt. lia.
Qed.

Lemma lex_lt_irrefl a : ~ lex_lt a a.
Proof. destruct a as [[a1 a2] a3]. unfold lex_lt. lia. Qed.

Lemma SFcompare_key (x y : spec_float) :
  x <> S754_nan -> y <> S754_nan ->
  SFcompare x y = Some (lex (key x) (key y)).
Proof.
  intros Hx Hy.
  destruct x as [sx | sx | | sx mx ex], y as [sy | sy | | sy my ey];
    try congruence; try (destruct sx); try (destruct sy); try reflexivity;
    simpl; f_equal.
  rewrite Z.compare_opp, (Z.compare_antisym ex ey).
  destruct (ex ?= ey)%Z; reflexivity.
Qed.

Lemma number_spec (x : float) : number x <-> Prim2SF x <> S754_nan.
Proof.
  unfold number. split; intros H E; apply H.
  - apply Prim2SF_inj. now rewrite E.
  - now subst.
Qed.

Lemma ltb_iff (x y : float) :
  (x <? y) = true <-> number x /\ number y /\ below x y.
Proof.
  rewrite FloatAxioms.ltb_spec, !number_spec. unfold SFltb, below. split.
  - intros H.
    assert (Hx : Prim2SF x <> S754_nan)
      by (intros E; rewrite E in H; discriminate H).
    assert (Hy : Prim2SF y <> S754_nan)
      by (intros E; rewrite E in H; destruct (Prim2SF x); discriminate H).
    rewrite (SFcompare_key Hx Hy) in H. repeat split; try assumption.
    apply lex_Lt_iff. now destruct (lex _ _).
  - intros [Hx [Hy H]]. rewrite (SFcompare_key Hx Hy).
    apply lex_Lt_iff in H. now rewrite H.
Qed.

Lemma leb_iff (x y : float) :
  (x <=? y) = true <-> number x /\ number y /\ ~ below y x.
Proof.
  rewrite FloatAxioms.leb_spec, !number_spec. unfold SFleb, below. split.
  - intros H.
    assert (Hx : Prim2SF x <> S754_nan)
      by (intros E; rewrite E in H; discriminate H).
    assert (Hy : Prim2SF y <> S754_nan)
      by (intros E; rewrite E in H; destruct (Prim2SF x); discriminate H).
    rewrite (SFcompare_key Hx Hy) in H. repeat split; try assumption.
    intros G. apply lex_Gt_iff in G. rewrite G in H. discriminate H.
  - intros [Hx [Hy H]]. rewrite (SFcompare_key Hx Hy).
    destruct (lex _ _) eqn:E; try reflexivity.
    apply lex_Gt_iff in E. contradiction.
Qed.

Lemma lex_lt_le_trans a b c : lex_lt a b -> ~ lex_lt c b -> lex_lt a c.
Proof.
  destruct a as [[a1 a2] a3], b as [[b1 b2] b3], c as [[c1 c2] c3].
  unfold lex_lt. lia.
Qed.

Lemma below_trans (x y z : float) : below x y -> ~ below z y -> below x z.
Proof. unfold below. apply lex_lt_le_trans. Qed.

Lemma below_irrefl (x : float) : ~ below x x.
Proof. unfold below. apply lex_lt_irrefl. Qed.

Lemma leb_false_ltb (x y : float) :
  number x -> number y -> (x <=? y) = false -> (y <? x) = true.
Proof.
  intros Hx Hy H. apply ltb_iff. repeat split; try assumption.
  destruct (lex (key (Prim2SF x)) (key (Prim2SF y))) eqn:E.
  - exfalso. assert (G : (x <=? y) = true); [| congruence].
    apply leb_iff. repeat split; try assumption. unfold below.
    intros B. apply lex_Gt_iff in B. congruence.
  - exfalso. assert (G : (x <=? y) = true); [| congruence].
    apply leb_iff. repeat split; try assumption. unfold below.
    intros B. apply lex_Gt_iff in B. congruence.
  - now apply lex_Gt_iff.
Qed.

Lemma ltb_leb_trans (x y z : float) :
  (x <? y) = true -> (y <=? z) = true -> (x <? z) = true.
Proof.
  rewrite !ltb_iff, leb_iff.
  intros [Hx [Hy H1]] [_ [Hz H2]]. repeat split; try assumption.
  exact (@below_trans x y z H1 H2).
Qed.

Lemma ltb_leb (x y : float) : (x <? y) = true -> (x <=? y) = true.
Proof.
  rewrite ltb_iff, leb_iff. unfold below.
  intros [Hx [Hy H]]. repeat split; try assumption.
  intros G. exact (@lex_lt_irrefl _ (@lex_lt_trans _ _ _ H G)).
Qed.

Lemma leb_refl (x : float) : number x -> (x <=? x) = true.
Proof.
  intros H. apply leb_iff. repeat split; try assumption.
  apply below_irrefl.
Qed.

Lemma ltb_not_leb (x y : float) : (x <? y) = true -> (y <=? x) = false.
Proof.
  intros H. destruct (y <=? x) eqn:E; [| reflexivity].
  apply ltb_iff in H. apply leb_iff in E. tauto.
Qed.

Lemma pos_number (x : float) : (0 <? x) = true -> number x.
Proof. intros H. apply ltb_iff in H. tauto. Qed.

End FloatFacts.

(** * The aggregator *)

Section Aggregator.

Lemma insert_length (x : float) (l : list float) :
  List.length (insert x l) = S (List.length l).
Proof.
  induction l as [| y l IH]; simpl; [reflexivity |].
  destruct (x <? y); simpl; congruence.
Qed.

Lemma fold_insert_length (l acc : list float) :
  List.length (fold_left (fun acc x => insert x acc) l acc)
  = (List.length l + List.length acc)%nat.
Proof.
  revert acc. induction l as [| x l IH]; intros acc; simpl; [reflexivity |].
  rewrite IH, insert_length. lia.
Qed.

Lemma sorted_length (l : list float) :
  List.length (sorted l) = List.length l.
Proof. unfold sorted. rewrite fold_insert_length. simpl. lia. Qed.

(** [statistics.median] only raises on empty data. *)
Lemma median_nonempty (x : float) (l : list float) :
  median (x :: l) = Ok (middle_value (sorted (x :: l))).
Proof.
  unfold median, middle_value. rewrite sorted_length.
  change (List.length (x :: l)) with (S (List.length l)).
  destruct (Nat.eqb_spec (S (List.length l)) 0) as [E | _]; [discriminate |].
  destruct (S (List.length l) mod 2 =? 1)%nat; reflexivity.
Qed.

(** [med] never raises. *)
Lemma med_total (vals : list float) : med vals = Ok (med_value vals).
Proof.
  destruct vals as [| x l]; [reflexivity |]. apply median_nonempty.
Qed.

Lemma config_row_total (T1 : float) (pthr : Z) (runs : list Sample) :
  config_row T1 pthr runs =
  Ok {| threads := pthr;
        Tp_wall_s := med_value (map wall_s runs);
        Tp_app_s := med_value (map app_s runs);
        speedup := speedup_of T1 (med_value (map wall_s runs));
        efficiency :=
          efficiency_of (speedup_of T1 (med_value (map wall_s runs))) pthr;
        row_maxrss_kb := med_value (non_missing (map maxrss_kb runs));
        hc_med := med_value (map hc runs);
        hp_med := med_value (map hp runs) |}.
Proof.
  unfold config_row, non_missing. rewrite !med_total. reflexivity.
Qed.

Lemma serial_baseline_total (runs : list Sample) :
  serial_baseline runs =
  Ok {| T1_wall := med_value (map wall_s runs);
        T1_app := med_value (map app_s runs);
        hc1 := med_value (map hc runs);
        hp1 := med_value (map hp runs) |}.
Proof. unfold serial_baseline. rewrite !med_total. reflexivity. Qed.

(** The peak-memory field is the one whose missing values are dropped
    before the median: it is the spec's aggregate. *)
Lemma rss_is_spec_aggregate (vals : list float) :
  med_value (non_missing vals) =
  match spec_aggregate vals with Some m => m | None => nan end.
Proof.
  unfold spec_aggregate, med_value.
  destruct (non_missing vals); reflexivity.
Qed.

(** When every value is missing the median of the unfiltered list is
    [nan] as well. *)
Lemma insert_all_nan (l : list float) :
  Forall (fun v => v = nan) l -> insert nan l = l ++ [nan].
Proof.
  induction 1 as [| v l Hv _ IH]; simpl; [reflexivity |].
  subst v. rewrite FloatFacts.ltb_nan_l. now rewrite IH.
Qed.

Lemma sorted_all_nan (l : list float) :
  Forall (fun v => v = nan) l -> sorted l = l.
Proof.
  unfold sorted. intros H.
  enough (G : forall acc, Forall (fun v => v = nan) acc ->
              fold_left (fun acc x => insert x acc) l acc = acc ++ l)
    by (apply (G []); constructor).
  induction H as [| v l Hv Hl IH]; intros acc Hacc; simpl.
  - now rewrite app_nil_r.
  - subst v. rewrite insert_all_nan by assumption.
    rewrite IH.
    + now rewrite <- app_assoc.
    + apply Forall_app. split; [assumption | repeat constructor].
Qed.

Lemma nth_all_nan (l : list float) (i : nat) :
  Forall (fun v => v = nan) l -> nth i l nan = nan.
Proof.
  intros H. revert i. induction H as [| v l Hv _ IH]; intros [| i]; simpl;
    auto.
Qed.

(** A field that every repeat lacks aggregates to [nan], the missing
    value, whether or not the missing values were dropped first. *)
Lemma all_missing_is_missing (vals : list float) :
  Forall (fun v => v = nan) vals ->
  med_value vals = nan /\ med_value (non_missing vals) = nan /\
  spec_aggregate vals = None.
Proof.
  intros H.
  assert (Hnone : non_missing vals = []).
  { unfold non_missing. induction H as [| v l Hv _ IH]; simpl; [reflexivity |].
    subst v. exact IH. }
  unfold spec_aggregate. rewrite Hnone. repeat split.
  unfold med_value. destruct vals as [| x l]; [reflexivity |].
  rewrite (sorted_all_nan H). unfold middle_value.
  destruct (_ =? _)%nat.
  - now apply nth_all_nan.
  - rewrite !(nth_all_nan _ H). reflexivity.
Qed.

End Aggregator.

(** * Metric extraction *)

(** A marker that is absent from stdout leaves the field missing and raises
    nothing, whatever stderr holds. *)
Lemma hc_absent_is_nan (py_float : string -> option float) (out err : string) :
  Re.search HC_RE out = None ->
  Re.search HP_RE out = None ->
  exists app,
    float_of_match py_float
      (or_else (Re.search APP_TIME_RE out) (Re.search APP_TIME_RE err)) = app /\
    run_one_parse py_float out err =
    bind app (fun a => Ok {| m_app_s := a; m_hc := nan; m_hp := nan |}).
Proof.
  intros Hc Hp. eexists. split; [reflexivity |].
  unfold run_one_parse. rewrite Hc, Hp. reflexivity.
Qed.

(** C2, at the input that separates the code from the claim: both
    correctness markers are printed on stderr and each pattern does match
    that text, yet [run_one] records [hc] and [hp] as missing because it
    searches stdout only; the internal timer, searched in both streams, is
    found on stderr. *)
Theorem hc_hp_on_stderr_are_missed :
  forall py_float : string -> option float,
    Re.search HC_RE markers_on_stderr = Some ["0.25"%string] /\
    Re.search HP_RE markers_on_stderr = Some ["0.5"%string] /\
    run_one_parse py_float "" markers_on_stderr
    = Ok {| m_app_s := nan; m_hc := nan; m_hp := nan |} /\
    run_one_parse py_float markers_on_stderr ""
    = bind (to_float py_float "0.25")
        (fun c => bind (to_float py_float "0.5")
           (fun p => Ok {| m_app_s := nan; m_hc := c; m_hp := p |})) /\
    run_one_parse py_float "" "[bandwidth_grid_total] 1.5 s"
    = bind (to_float py_float "1.5")
        (fun a => Ok {| m_app_s := a; m_hc := nan; m_hp := nan |}).
Proof.
  intros py_float. repeat split; vm_compute; reflexivity.
Qed.

(** * Aggregation and scaling *)

(** C1, at the input that separates the code from the claim: of three
    repeats only the first printed [hc = 2.5].  The median of the
    non-missing values is 2.5, but [main] takes the median of all three
    values and records [nan]; the peak-memory field, which is filtered
    first, does follow the claim. *)
Theorem hc_median_keeps_missing_values :
  (exists row,
      config_row 1 2 hc_printed_once = Ok row /\
      hc_med row = nan /\
      row_maxrss_kb row = nan) /\
  spec_aggregate (map hc hc_printed_once) = Some 2.5 /\
  spec_aggregate (map maxrss_kb hc_printed_once) = None.
Proof.
  split; [| split; reflexivity].
  rewrite config_row_total. eexists. split; [reflexivity |].
  split; reflexivity.
Qed.

(** C5: a wall time is positive, missing or at most zero; speedup is
    [T1 / Tp] and is undefined ([nan]) when [Tp] is missing or not
    positive; efficiency is speedup over the thread count and is
    undefined under the same condition and for a thread count that is not
    positive; every row [main] builds carries exactly these two values; and
    for T1 = 10 with Tp = 10, 5, 2.5 at 1, 2, 4 threads the speedups are
    1, 2, 4 and the efficiencies 1, 1, 1. *)
Theorem speedup_efficiency_spec :
  (forall Tp : float,
      (0 <? Tp) = true \/ Py.isnan Tp = true \/ (Tp <=? 0) = true) /\
  (forall T1 Tp : float,
      ((0 <? Tp) = true -> speedup_of T1 Tp = T1 / Tp) /\
      (Py.isnan Tp = true \/ (Tp <=? 0) = true -> speedup_of T1 Tp = nan)) /\
  (forall (T1 Tp : float) (p : Z),
      ((0 <? Tp) = true -> (0 < p)%Z ->
       efficiency_of (speedup_of T1 Tp) p = T1 / Tp / Py.float_of_Z p) /\
      (Py.isnan Tp = true \/ (Tp <=? 0) = true \/ (p <= 0)%Z ->
       efficiency_of (speedup_of T1 Tp) p = nan)) /\
  (forall (T1 : float) (pthr : Z) (runs : list Sample) (row : Row),
      config_row T1 pthr runs = Ok row ->
      threads row = pthr /\
      speedup row = speedup_of T1 (Tp_wall_s row) /\
      efficiency row = efficiency_of (speedup row) pthr) /\
  (exists rows,
      bench_rows 10 [1; 2; 4]%Z
        (fun p => three_runs (10 / Py.float_of_Z p)) = Ok rows /\
      map Tp_wall_s rows = [10; 5; 2.5] /\
      map speedup rows = [1; 2; 4] /\
      map efficiency rows = [1; 1; 1]).
Proof.
  split; [| split; [| split; [| split]]].
  - intros Tp. destruct (Py.isnan Tp) eqn:En; [right; left; reflexivity |].
    destruct (Tp <=? 0) eqn:El; [right; right; reflexivity |]. left.
    apply FloatFacts.leb_false_ltb; try assumption.
    + now apply FloatFacts.isnan_false_iff.
    + discriminate.
  - intros T1 Tp. unfold speedup_of. split.
    + intros ->. reflexivity.
    + intros [H | H].
      * apply FloatFacts.isnan_iff in H. subst Tp.
        now rewrite FloatFacts.ltb_nan_r.
      * now rewrite (FloatFacts.leb_zero_not_pos H).
  - intros T1 Tp p. unfold efficiency_of, speedup_of. split.
    + intros -> Hp. apply Z.ltb_lt in Hp. now rewrite Hp.
    + intros [H | [H | H]].
      * apply FloatFacts.isnan_iff in H. subst Tp.
        rewrite FloatFacts.ltb_nan_r.
        destruct (0 <? p)%Z; [apply FloatFacts.div_nan_l | reflexivity].
      * rewrite (FloatFacts.leb_zero_not_pos H).
        destruct (0 <? p)%Z; [apply FloatFacts.div_nan_l | reflexivity].
      * apply Z.ltb_ge in H. now rewrite H.
  - intros T1 pthr runs row H. rewrite config_row_total in H.
    injection H as <-. simpl. repeat split.
  - eexists. split; [vm_compute; reflexivity |]. repeat split.
Qed.

Lemma speedup_efficiency_witness :
  speedup_of 10 2.5 = 10 / 2.5 /\
  efficiency_of (speedup_of 10 0) 4 = nan.
Proof.
  destruct speedup_efficiency_spec as [_ [Hs [He _]]]. split.
  - apply (proj1 (Hs 10 2.5)). reflexivity.
  - apply (proj2 (He 10 0 4%Z)). right. left. reflexivity.
Defined.

(** * The least-squares fit in exact arithmetic *)

Module ExactFitFacts.
Import ExactFit.
Open Scope Q_scope.

Lemma dot_cons (u v : Q) (us vs : list Q) :
  dot (u :: us) (v :: vs) = u * v + dot us vs.
Proof. reflexivity. Qed.

(** With a Gram determinant that is not zero the routine solves the
    normal equations. *)
Lemma solution_full_rank X y :
  List.length X = List.length y ->
  ~ gram_det X == 0 ->
  let a := map fst X in
  let b := map snd X in
  solution X y =
  Ok ((dot b b * dot a y - dot a b * dot b y) / gram_det X,
      (dot a a * dot b y - dot a b * dot a y) / gram_det X).
Proof.
  intros Hlen Hdet a b. unfold solution.
  rewrite Hlen, Nat.eqb_refl. simpl negb. cbv iota.
  fold a b. change (dot a a * dot b b - dot a b * dot a b) with (gram_det X).
  destruct (Qeq_bool (gram_det X) 0) eqn:E.
  - apply Qeq_bool_eq in E. contradiction.
  - reflexivity.
Qed.

(** *** The answer minimises the residual sum of squares *)

Lemma shift_norm_nonneg X d0 d1 : 0 <= shift_norm X d0 d1.
Proof.
  unfold shift_norm. induction X as [| r X IH]; simpl.
  - apply Qle_refl.
  - rewrite <- (Qplus_0_r 0). apply Qplus_le_compat; [| exact IH].
    set (q := fst r * d0 + snd r * d1). clearbody q. clear.
    destruct (Qlt_le_dec q 0) as [Hneg | Hpos].
    + setoid_replace (q * q) with ((- q) * (- q)) by ring.
      apply Qmult_le_0_compat; apply (Qopp_le_compat q 0), Qlt_le_weak, Hneg.
    + now apply Qmult_le_0_compat.
Qed.

Lemma rss_cons r yi X y beta :
  rss (r :: X) (yi :: y) beta =
  (fst r * fst beta + snd r * snd beta - yi)
  * (fst r * fst beta + snd r * snd beta - yi)
  + rss X y beta.
Proof. reflexivity. Qed.

Lemma rss_nil y beta : rss [] y beta = 0.
Proof. reflexivity. Qed.

Lemma rss_expand X : forall y b0 b1 c0 c1,
  List.length X = List.length y ->
  let a := map fst X in
  let b := map snd X in
  rss X y (c0, c1) ==
  rss X y (b0, b1)
  + 2 * ((c0 - b0) * (dot a a * b0 + dot a b * b1 - dot a y)
         + (c1 - b1) * (dot a b * b0 + dot b b * b1 - dot b y))
  + shift_norm X (c0 - b0) (c1 - b1).
Proof.
  induction X as [| r X IH]; intros [| yi y] b0 b1 c0 c1 Hlen;
    try discriminate Hlen.
  - simpl. rewrite !rss_nil. unfold shift_norm, dot. simpl. ring.
  - injection Hlen as Hlen. specialize (IH y b0 b1 c0 c1 Hlen).
    simpl in IH. simpl map. cbv zeta.
    rewrite !rss_cons, !dot_cons, IH.
    unfold shift_norm. simpl map. simpl sumQ.
    simpl fst. simpl snd.
    assert (Hsym : dot (map snd X) (map fst X) == dot (map fst X) (map snd X)).
    { clear. induction X as [| r' X IH]; simpl map.
      - reflexivity.
      - rewrite !dot_cons, IH. ring. }
    ring.
Qed.

Lemma solution_least_squares X y beta :
  solution X y = Ok beta ->
  ~ gram_det X == 0 ->
  forall beta', rss X y beta <= rss X y beta'.
Proof.
  intros Hfit Hdet [c0 c1].
  assert (Hlen : List.length X = List.length y).
  { unfold solution in Hfit.
    destruct (Nat.eqb_spec (List.length X) (List.length y)) as [E | E];
      [exact E | discriminate Hfit]. }
  rewrite (solution_full_rank _ Hlen Hdet) in Hfit. injection Hfit as <-.
  set (a := map fst X) in *. set (b := map snd X) in *.
  set (b0 := (dot b b * dot a y - dot a b * dot b y) / gram_det X).
  set (b1 := (dot a a * dot b y - dot a b * dot a y) / gram_det X).
  rewrite (@rss_expand X y b0 b1 c0 c1 Hlen). fold a b.
  assert (N1 : dot a a * b0 + dot a b * b1 - dot a y == 0).
  { unfold b0, b1, gram_det in *. fold a b in Hdet |- *. field. exact Hdet. }
  assert (N2 : dot a b * b0 + dot b b * b1 - dot b y == 0).
  { unfold b0, b1, gram_det in *. fold a b in Hdet |- *. field. exact Hdet. }
  rewrite N1, N2.
  setoid_replace (rss X y (b0, b1) + 2 * ((c0 - b0) * 0 + (c1 - b1) * 0)
                  + shift_norm X (c0 - b0) (c1 - b1))
    with (rss X y (b0, b1) + shift_norm X (c0 - b0) (c1 - b1)) by ring.
  rewrite <- (Qplus_0_r (rss X y (b0, b1))) at 1.
  apply Qplus_le_compat; [apply Qle_refl | apply shift_norm_nonneg].
Qed.

(** *** Amdahl data *)

Lemma amdahl_data_on_line (T1 s : Q) (p : list Q) :
  ~ T1 == 0 ->
  on_line s (1 - s) (design_matrix 1 Qdiv p)
          (map (fun t => t / T1) (map (amdahl_time T1 s) p)).
Proof.
  intros HT. unfold on_line, design_matrix.
  induction p as [| pi p IH]; simpl; constructor; [| exact IH].
  simpl. unfold amdahl_time, Qdiv.
  set (q := / pi). clearbody q. field. exact HT.
Qed.

(** *** Two distinct thread counts make the fit well-posed *)

Lemma sq_nonneg (q : Q) : 0 <= q * q.
Proof.
  destruct (Qlt_le_dec q 0) as [Hneg | Hpos].
  - setoid_replace (q * q) with ((- q) * (- q)) by ring.
    apply Qmult_le_0_compat; apply (Qopp_le_compat q 0), Qlt_le_weak, Hneg.
  - now apply Qmult_le_0_compat.
Qed.

Lemma inv_thread_injective (p q : Z) :
  p <> 0%Z -> q <> 0%Z -> 1 / inject_Z p == 1 / inject_Z q -> p = q.
Proof.
  intros Hp Hq H. apply inject_Z_injective.
  assert (Hp' : ~ inject_Z p == 0)
    by (intros E; apply Hp; now apply inject_Z_injective).
  assert (Hq' : ~ inject_Z q == 0)
    by (intros E; apply Hq; now apply inject_Z_injective).
  setoid_replace (inject_Z p) with (1 / (1 / inject_Z p)) by (field; auto).
  rewrite H. field. auto.
Qed.

End ExactFitFacts.

(** * The fit on floats, under the routine's promise *)

Section RecoveryFacts.
Import ExactFit ExactFitFacts.
Local Open Scope Q_scope.

Lemma design_values :
  row_values (design_matrix 1%float PrimFloat.div (floats [1; 2; 4; 8]%Z))
  = Some design_1248.
Proof. vm_compute. reflexivity. Qed.

Lemma squares_zero (a b c d : Q) :
  a * a + (b * b + (c * c + (d * d + 0))) <= 0 -> a == 0 /\ b == 0.
Proof. intros H. split; nra. Qed.

(** The residual sum of squares at 1, 2, 4 and 8 threads, around the
    solution of the normal equations. *)
Lemma rss_split (q1 q2 q3 q4 c0 c1 : Q) :
  rss design_1248 [q1; q2; q3; q4] (c0, c1) ==
  rss design_1248 [q1; q2; q3; q4]
      ((-(7) * q1 + 5 * q2 + 11 * q3 + 14 * q4) * (1 # 23),
       (136 * q1 + 8 * q2 - 56 * q3 - 88 * q4) * (1 # 115))
  + ((c0 - (-(7) * q1 + 5 * q2 + 11 * q3 + 14 * q4) * (1 # 23)
      + (c1 - (136 * q1 + 8 * q2 - 56 * q3 - 88 * q4) * (1 # 115)))
     * (c0 - (-(7) * q1 + 5 * q2 + 11 * q3 + 14 * q4) * (1 # 23)
        + (c1 - (136 * q1 + 8 * q2 - 56 * q3 - 88 * q4) * (1 # 115)))
     + ((c0 - (-(7) * q1 + 5 * q2 + 11 * q3 + 14 * q4) * (1 # 23)
         + (c1 - (136 * q1 + 8 * q2 - 56 * q3 - 88 * q4) * (1 # 115)) * (1 # 2))
        * (c0 - (-(7) * q1 + 5 * q2 + 11 * q3 + 14 * q4) * (1 # 23)
           + (c1 - (136 * q1 + 8 * q2 - 56 * q3 - 88 * q4) * (1 # 115)) * (1 # 2))
        + ((c0 - (-(7) * q1 + 5 * q2 + 11 * q3 + 14 * q4) * (1 # 23)
            + (c1 - (136 * q1 + 8 * q2 - 56 * q3 - 88 * q4) * (1 # 115)) * (1 # 4))
           * (c0 - (-(7) * q1 + 5 * q2 + 11 * q3 + 14 * q4) * (1 # 23)
              + (c1 - (136 * q1 + 8 * q2 - 56 * q3 - 88 * q4) * (1 # 115)) * (1 # 4))
           + ((c0 - (-(7) * q1 + 5 * q2 + 11 * q3 + 14 * q4) * (1 # 23)
               + (c1 - (136 * q1 + 8 * q2 - 56 * q3 - 88 * q4) * (1 # 115)) * (1 # 8))
              * (c0 - (-(7) * q1 + 5 * q2 + 11 * q3 + 14 * q4) * (1 # 23)
                 + (c1 - (136 * q1 + 8 * q2 - 56 * q3 - 88 * q4) * (1 # 115)) * (1 # 8))
              + 0)))).
Proof. unfold rss, design_1248, sumQ. simpl. ring. Qed.

(** A least-squares solution at 1, 2, 4 and 8 threads has the first
    coefficient of the normal equations. *)
Lemma minimiser_1248 (q1 q2 q3 q4 : Q) (beta : Q * Q) :
  least_squares design_1248 [q1; q2; q3; q4] beta ->
  fst beta == (-(7) * q1 + 5 * q2 + 11 * q3 + 14 * q4) * (1 # 23).
Proof.
  destruct beta as [c0 c1]. intros H.
  specialize (H ((-(7) * q1 + 5 * q2 + 11 * q3 + 14 * q4) * (1 # 23),
                 (136 * q1 + 8 * q2 - 56 * q3 - 88 * q4) * (1 # 115))).
  rewrite rss_split in H.
  set (r := rss _ _ _) in H. clearbody r.
  set (d0 := c0 - _) in H. set (d1 := c1 - _) in H.
  assert (S0 : (d0 + d1) * (d0 + d1)
               + ((d0 + d1 * (1 # 2)) * (d0 + d1 * (1 # 2))
                  + ((d0 + d1 * (1 # 4)) * (d0 + d1 * (1 # 4))
                     + ((d0 + d1 * (1 # 8)) * (d0 + d1 * (1 # 8)) + 0))) <= 0)
    by lra.
  apply squares_zero in S0. destruct S0 as [S1 S2].
  simpl fst. subst d0 d1. lra.
Qed.

Lemma follows_values (delta s : Q) (P : list Z) :
  forall y yQ,
    follows_amdahl delta s P y ->
    values y = Some yQ ->
    Forall2 (fun p q => Qabs (q - amdahl_time 1 s (inject_Z p)) <= delta) P yQ.
Proof.
  unfold follows_amdahl. intros y yQ H. revert yQ.
  induction H as [| p yi P y [v [Hv Hb]] _ IH]; intros yQ Hy; simpl in Hy.
  - injection Hy as <-. constructor.
  - rewrite Hv in Hy. destruct (values y) as [qs |]; [| discriminate Hy].
    injection Hy as <-. constructor; [exact Hb | now apply IH].
Qed.

Lemma weights_bound (e1 e2 e3 e4 d : Q) :
  Qabs e1 <= d -> Qabs e2 <= d -> Qabs e3 <= d -> Qabs e4 <= d ->
  Qabs ((-(7) * e1 + 5 * e2 + 11 * e3 + 14 * e4) * (1 # 23)) <= 2 * d.
Proof.
  intros H1 H2 H3 H4.
  apply Qabs_Qle_condition in H1, H2, H3, H4.
  apply Qabs_Qle_condition. split; lra.
Qed.

(** Quotients on Amdahl's law up to [delta] have a least-squares solution
    within [2 delta] of the serial fraction. *)
Lemma recovery_1248 (delta s : Q) (y : list float) (yQ : list Q)
      (beta : Q * Q) :
  follows_amdahl delta s [1; 2; 4; 8]%Z y ->
  values y = Some yQ ->
  least_squares design_1248 yQ beta ->
  Qabs (fst beta - s) <= 2 * delta.
Proof.
  intros Hlaw Hy Hls.
  pose proof (follows_values Hlaw Hy) as H.
  inversion H as [| p1 q1 P1 y1 H1 G1]; subst.
  inversion G1 as [| p2 q2 P2 y2 H2 G2]; subst.
  inversion G2 as [| p3 q3 P3 y3 H3 G3]; subst.
  inversion G3 as [| p4 q4 P4 y4 H4 G4]; subst.
  inversion G4; subst.
  rewrite (minimiser_1248 Hls).
  unfold amdahl_time in H1, H2, H3, H4.
  setoid_replace ((-(7) * q1 + 5 * q2 + 11 * q3 + 14 * q4) * (1 # 23) - s)
    with ((-(7) * (q1 - 1 * (s + (1 - s) / inject_Z 1))
           + 5 * (q2 - 1 * (s + (1 - s) / inject_Z 2))
           + 11 * (q3 - 1 * (s + (1 - s) / inject_Z 4))
           + 14 * (q4 - 1 * (s + (1 - s) / inject_Z 8))) * (1 # 23))
    by field.
  now apply weights_bound.
Qed.

Lemma within_trans (eps d : Q) (x : float) (q s : Q) :
  within eps x q -> Qabs (q - s) <= d -> within (eps + d) x s.
Proof.
  intros [v [Hv Hb]] Hd. exists v. split; [exact Hv |].
  apply Qabs_Qle_condition in Hb, Hd. apply Qabs_Qle_condition. split; lra.
Qed.

Lemma within_weaken (eps tol : Q) (x : float) (q : Q) :
  eps <= tol -> within eps x q -> within tol x q.
Proof.
  intros Hle [v [Hv Hb]]. exists v. split; [exact Hv |].
  eapply Qle_trans; eassumption.
Qed.

(** Where data lie on a line, the residual sum of squares of the line is
    zero, and a coefficient pair with no residual meets every row. *)
Lemma rss_on_line (s t : Q) X y : on_line s t X y -> rss X y (s, t) == 0.
Proof.
  induction 1 as [| r yi X y Hr _ IH].
  - reflexivity.
  - rewrite rss_cons, IH. simpl fst. simpl snd. rewrite Hr. ring.
Qed.

Lemma rss_nonneg X y beta : 0 <= rss X y beta.
Proof.
  unfold rss. induction (combine X y) as [| ry l IH]; simpl.
  - apply Qle_refl.
  - rewrite <- (Qplus_0_r 0). apply Qplus_le_compat; [apply sq_nonneg | exact IH].
Qed.

Lemma rss_zero_rows (s t c0 c1 : Q) X y :
  on_line s t X y ->
  rss X y (c0, c1) <= 0 ->
  Forall (fun r => fst r * c0 + snd r * c1 == s * fst r + t * snd r) X.
Proof.
  induction 1 as [| r yi X y Hr _ IH]; intros Hz; constructor.
  - rewrite rss_cons in Hz. simpl fst in Hz. simpl snd in Hz.
    pose proof (rss_nonneg X y (c0, c1)) as Hn.
    set (e := fst r * c0 + snd r * c1 - yi) in Hz.
    assert (He : e == 0) by nra.
    subst e. rewrite Hr in He. lra.
  - apply IH. rewrite rss_cons in Hz.
    pose proof (sq_nonneg (fst r * fst (c0, c1) + snd r * snd (c0, c1) - yi)).
    lra.
Qed.

(** In exact arithmetic every least-squares solution of data on Amdahl's
    law has the serial fraction as its first coefficient. *)
Lemma exact_recovery (P : list Z) (s T1 : Q) (beta : Q * Q) :
  ~ T1 == 0 ->
  Forall (fun p => (0 < p)%Z) P ->
  (exists p q, In p P /\ In q P /\ p <> q) ->
  least_squares (design_matrix 1 Qdiv (inject_threads P))
                (map (fun t => t / T1)
                     (map (amdahl_time T1 s) (inject_threads P))) beta ->
  fst beta == s.
Proof.
  intros HT Hpos [p [q [Hp [Hq Hne]]]] Hls.
  pose proof (amdahl_data_on_line s (inject_threads P) HT) as Hline.
  destruct beta as [c0 c1].
  assert (Hz : rss (design_matrix 1 Qdiv (inject_threads P))
                   (map (fun t => t / T1)
                        (map (amdahl_time T1 s) (inject_threads P))) (c0, c1)
               <= 0).
  { rewrite <- (rss_on_line Hline). apply Hls. }
  pose proof (@rss_zero_rows _ _ _ _ _ _ Hline Hz) as Hrows.
  rewrite Forall_forall in Hrows, Hpos.
  assert (Hrow : forall z, In z P ->
                           c0 + (1 / inject_Z z) * c1
                           == s + (1 - s) * (1 / inject_Z z)).
  { intros z Hz'.
    specialize (Hrows (1, 1 / inject_Z z)).
    simpl fst in Hrows. simpl snd in Hrows.
    setoid_replace (c0 + (1 / inject_Z z) * c1)
      with (1 * c0 + (1 / inject_Z z) * c1) by ring.
    rewrite Hrows; [ring |].
    unfold design_matrix, inject_threads. rewrite map_map.
    apply (in_map (fun x => (1, 1 / inject_Z x)) P z Hz'). }
  pose proof (Hrow p Hp) as Ep. pose proof (Hrow q Hq) as Eq.
  assert (Hpq : ~ 1 / inject_Z p == 1 / inject_Z q).
  { intros E. apply Hne.
    apply inv_thread_injective; [| | exact E].
    - specialize (Hpos p Hp). simpl in Hpos. lia.
    - specialize (Hpos q Hq). simpl in Hpos. lia. }
  set (u := 1 / inject_Z p) in *. set (v := 1 / inject_Z q) in *.
  clearbody u v.
  assert (Hprod : (c1 - (1 - s)) * (u - v) == 0) by lra.
  destruct (Qmult_integral _ _ Hprod) as [H1 | H1].
  - simpl fst. assert (Hc1 : c1 == 1 - s) by lra.
    rewrite Hc1 in Ep. lra.
  - exfalso. apply Hpq. lra.
Qed.

End RecoveryFacts.

(** C3: the estimator is the first coefficient the least-squares routine
    returns for [Tp / T1] against the columns [1] and [1 / p], one row per
    configuration.  At 1, 2, 4 and 8 threads, when the quotients [Tp / T1]
    the script computes are on Amdahl's law for the serial fraction [s] up
    to [delta], and the routine keeps its promise on this call, a pair
    within [eps] of a least-squares solution of the matrix and the vector
    it was given, the estimate is within [eps + 2 delta] of [s], so within
    1e-6 when that sum is.  In exact arithmetic every least-squares
    solution of data generated as [Tp = T1 (s + (1 - s) / p)] has the
    first coefficient [s], for any positive thread counts of which two
    differ. *)
Theorem amdahl_fit_recovers_serial_fraction :
  (forall (np_lstsq : list (float * float) -> list float -> option (float * float))
          (p Tp : list float) (T1 : float),
      fit_serial_fraction np_lstsq p Tp T1 =
      match np_lstsq (map (fun pi => (1, 1 / pi)) p)
                     (map (fun t => t / T1) Tp) with
      | Some beta => Ok (fst beta)
      | None => Raise LinAlgError
      end) /\
  (forall (np_lstsq : list (float * float) -> list float -> option (float * float))
          (Tp : list float) (T1 : float) (s eps delta : Q) (b : float * float),
      follows_amdahl delta s [1; 2; 4; 8]%Z (map (fun t => t / T1) Tp) ->
      np_lstsq (design_matrix 1 PrimFloat.div (floats [1; 2; 4; 8]%Z))
               (map (fun t => t / T1) Tp) = Some b ->
      solves_least_squares
        eps (design_matrix 1 PrimFloat.div (floats [1; 2; 4; 8]%Z))
        (map (fun t => t / T1) Tp) b ->
      fit_serial_fraction np_lstsq (floats [1; 2; 4; 8]%Z) Tp T1 = Ok (fst b) /\
      within (eps + 2 * delta) (fst b) s /\
      ((eps + 2 * delta <= 1 # 1000000)%Q -> within (1 # 1000000) (fst b) s)) /\
  (forall (P : list Z) (s T1 : Q) (beta : Q * Q),
      ~ (T1 == 0)%Q ->
      Forall (fun p => (0 < p)%Z) P ->
      (exists p q, In p P /\ In q P /\ p <> q) ->
      least_squares
        (design_matrix 1%Q Qdiv (ExactFit.inject_threads P))
        (map (fun t => (t / T1)%Q)
             (map (ExactFit.amdahl_time T1 s) (ExactFit.inject_threads P)))
        beta ->
      (fst beta == s)%Q).
Proof.
  split; [| split].
  - intros np_lstsq p Tp T1.
    unfold fit_serial_fraction, amdahl_serial_fraction, np_fit, design_matrix.
    destruct (np_lstsq _ _); reflexivity.
  - intros np_lstsq Tp T1 s eps delta b Hlaw Hcall Hprom.
    destruct Hprom as [XQ [yQ [beta [HX [Hy [Hls [H0 _]]]]]]].
    rewrite design_values in HX. injection HX as <-.
    pose proof (recovery_1248 Hlaw Hy Hls) as Hrec.
    pose proof (within_trans H0 Hrec) as Hw.
    split; [| split; [exact Hw |]].
    + unfold fit_serial_fraction, amdahl_serial_fraction, np_fit.
      rewrite Hcall. reflexivity.
    + intros Htol. exact (within_weaken Htol Hw).
  - intros P s T1 beta HT Hpos Htwo Hls.
    exact (@exact_recovery P s T1 beta HT Hpos Htwo Hls).
Qed.

Lemma amdahl_fit_witness :
  fit_serial_fraction normal_equations (floats [1; 2; 4; 8]%Z) amdahl_walls 10
  = Ok 0.1 /\
  within (1 # 1000000) 0.1 (1 # 10).
Proof.
  assert (Hlaw : follows_amdahl (1 # 10000000) (1 # 10) [1; 2; 4; 8]%Z
                                (map (fun t => t / 10) amdahl_walls)).
  { unfold follows_amdahl, amdahl_walls. simpl map.
    repeat constructor;
      (eexists; split;
       [vm_compute; reflexivity | apply Qle_bool_imp_le; vm_compute; reflexivity]). }
  assert (Hcall : normal_equations
                    (design_matrix 1 PrimFloat.div (floats [1; 2; 4; 8]%Z))
                    (map (fun t => t / 10) amdahl_walls) = Some (0.1, 0.9))
    by (vm_compute; reflexivity).
  assert (Hprom : solves_least_squares
                    (1 # 10000000)
                    (design_matrix 1 PrimFloat.div (floats [1; 2; 4; 8]%Z))
                    (map (fun t => t / 10) amdahl_walls) (0.1, 0.9)).
  { destruct (values (map (fun t => t / 10) amdahl_walls)) as [yQ |] eqn:Ey;
      [| vm_compute in Ey; discriminate Ey].
    destruct (ExactFit.solution design_1248 yQ) as [beta |] eqn:Efit.
    2: { vm_compute in Ey. injection Ey as <-.
         vm_compute in Efit. discriminate Efit. }
    exists design_1248, yQ, beta.
    split; [exact design_values |]. split; [exact Ey |]. split.
    - assert (Hdet : ~ (ExactFit.gram_det design_1248 == 0)%Q)
        by (intros Hd; vm_compute in Hd; discriminate Hd).
      exact (@ExactFitFacts.solution_least_squares design_1248 yQ beta Efit Hdet).
    - vm_compute in Ey. injection Ey as <-.
      vm_compute in Efit. injection Efit as <-.
      split; (eexists; split;
              [vm_compute; reflexivity
              | apply Qle_bool_imp_le; vm_compute; reflexivity]). }
  destruct (proj1 (proj2 amdahl_fit_recovers_serial_fraction)
              normal_equations amdahl_walls 10 (1 # 10)%Q
              (1 # 10000000)%Q (1 # 10000000)%Q (0.1, 0.9) Hlaw Hcall Hprom)
    as [Hfit [_ Htol]].
  split; [exact Hfit |]. apply Htol.
  apply Qle_bool_imp_le. vm_compute. reflexivity.
Defined.

(** * The writer monad *)

Section IoFacts.
Context {A B : Type}.



Lemma io_bind_lift_ok (a : A) (k : A -> io B) :
  io_bind (lift (Ok a)) k = k a.
Proof. unfold io_bind, lift. now destruct (k a). Qed.

Lemma io_bind_lift_raise (e : exn) (k : A -> io B) :
  io_bind (lift (Raise e)) k = ([], Raise e).
Proof. reflexivity. Qed.

Lemma written_bind (c : io A) (k : A -> io B) :
  written (io_bind c k) =
  written c ++ match outcome c with
               | Ok a => written (k a)
               | Raise _ => []
               end.
Proof.
  destruct c as [w [a | e]]; unfold written, outcome; simpl.
  - now destruct (k a).
  - now rewrite app_nil_r.
Qed.

Lemma outcome_bind (c : io A) (k : A -> io B) :
  outcome (io_bind c k) =
  match outcome c with
  | Ok a => outcome (k a)
  | Raise e => Raise e
  end.
Proof.
  destruct c as [w [a | e]]; unfold outcome; simpl; [| reflexivity].
  now destruct (k a).
Qed.
End IoFacts.

(** * The serial-fraction artifact *)

Section AmdahlStep.
Variable np_lstsq : list (float * float) -> list float -> option (float * float).

Lemma amdahl_step_spec (p Tp : list float) (T1 : float) :
  amdahl_step np_lstsq p Tp T1 =
  (match np_lstsq (design_matrix 1 PrimFloat.div p)
                  (map (fun t => t / T1) Tp) with
   | Some beta =>
       [{| path := "plots/amdahl.txt"; content := AmdahlText (fst beta) |}]
   | None => []
   end, Ok tt).
Proof.
  unfold amdahl_step, fit_serial_fraction, amdahl_serial_fraction, np_fit.
  destruct (np_lstsq _ _) as [beta |]; reflexivity.
Qed.

End AmdahlStep.




(** * When the estimate is written *)

Section FitFailureFacts.



End FitFailureFacts.




(** * bench.py: the report *)

Section BenchReport.
Variable l : list (float * float) -> list float -> option (float * float).
Variable sf : float -> string.
Variable si : Z -> string.

Lemma bench_artifacts_written (rep : ScalingReport) :
  configs rep <> [] ->
  let p := map (fun r => Py.float_of_Z (threads r)) (configs rep) in
  bench_artifacts l sf si rep =
  (bench_core_files sf si rep
   ++ (if forallb Py.isnan (map row_maxrss_kb (configs rep)) then []
       else [memory_file rep])
   ++ written (amdahl_step l p (map Tp_wall_s (configs rep))
                           (T1_wall (baseline rep))),
   Ok tt).
Proof.
  intros Hne p. unfold bench_artifacts. fold p.
  destruct (configs rep) as [| r rows] eqn:E; [contradiction |].
  rewrite (amdahl_step_spec l).
  unfold bench_core_files, memory_file. rewrite E. fold p.
  destruct (forallb Py.isnan (map row_maxrss_kb (r :: rows)));
    destruct (l _ _); reflexivity.
Qed.

(** Samples without a memory value aggregate to a row without one. *)
Lemma rows_without_rss (T1 : float) (threads : list Z)
      (runs_of : Z -> list Sample) (rows : list Row) :
  (forall p r, In p threads -> In r (runs_of p) ->
               Py.isnan (maxrss_kb r) = true) ->
  bench_rows T1 threads runs_of = Ok rows ->
  forallb Py.isnan (map row_maxrss_kb rows) = true.
Proof.
  unfold bench_rows. revert rows.
  induction threads as [| p threads IH]; intros rows Hnan Hrows; simpl in *.
  - injection Hrows as <-. reflexivity.
  - rewrite config_row_total in Hrows. simpl in Hrows.
    destruct (mapM _ threads) as [rows' |] eqn:E; [| discriminate].
    simpl in Hrows. injection Hrows as <-. simpl.
    assert (Hrest : forallb Py.isnan (map row_maxrss_kb rows') = true).
    { apply IH; [| reflexivity].
      intros q r Hq Hr. apply (Hnan q r); [now right | exact Hr]. }
    rewrite Hrest.
    assert (H : forall r, In r (runs_of p) -> Py.isnan (maxrss_kb r) = true).
    { intros r Hr. apply (Hnan p r); [now left | exact Hr]. }
    assert (Hnil : non_missing (map maxrss_kb (runs_of p)) = []).
    { clear - H. induction (runs_of p) as [| r rs IHr]; simpl; [reflexivity |].
      rewrite (H r) by (now left). simpl. apply IHr.
      intros r' Hr'. apply H. now right. }
    rewrite Hnil. reflexivity.
Qed.

Lemma bench_rows_length (T1 : float) (threads : list Z)
      (runs_of : Z -> list Sample) :
  exists rows, bench_rows T1 threads runs_of = Ok rows /\
               List.length rows = List.length threads.
Proof.
  unfold bench_rows. induction threads as [| p threads [rows [E Hl]]]; simpl.
  - eexists. split; reflexivity.
  - rewrite config_row_total, E. simpl. eexists. split; [reflexivity |].
    simpl. now rewrite Hl.
Qed.
End BenchReport.

(** C9: a report with at least one configuration consists of the table and
    the three curves, then the memory curve unless every row's memory is
    missing, then the serial-fraction file, and [main] ends normally;
    samples that all lack a memory value aggregate to such rows; so a sweep
    whose samples all lack it writes no memory curve, raises nothing and
    writes every other file. *)
Theorem memory_plot_omitted_without_rss :
  (forall l sf si rep,
      configs rep <> [] ->
      written (bench_artifacts l sf si rep) =
      bench_core_files sf si rep
      ++ (if forallb Py.isnan (map row_maxrss_kb (configs rep)) then []
          else [memory_file rep])
      ++ written (amdahl_step l
                    (map (fun r => Py.float_of_Z (threads r)) (configs rep))
                    (map Tp_wall_s (configs rep)) (T1_wall (baseline rep))) /\
      outcome (bench_artifacts l sf si rep) = Ok tt) /\
  (forall l sf si NGRID threads serial_runs runs_of,
      threads <> [] ->
      (forall p r, In p threads -> In r (runs_of p) ->
                   Py.isnan (maxrss_kb r) = true) ->
      outcome (bench_report l sf si NGRID threads serial_runs runs_of) = Ok tt /\
      ~ In "plots/memory_vs_threads.png"%string
           (paths (bench_report l sf si NGRID threads serial_runs runs_of)) /\
      exists base rows,
        serial_baseline serial_runs = Ok base /\
        bench_rows (T1_wall base) threads runs_of = Ok rows /\
        other_artifacts (bench_report l sf si NGRID threads serial_runs runs_of)
        = bench_core_files sf si
            {| grid := NGRID; baseline := base; configs := rows |}).
Proof.
  split.
  - intros l sf si rep Hne.
    rewrite (bench_artifacts_written l sf si rep Hne). split; reflexivity.
  - intros l sf si NGRID threads serial_runs runs_of Hne Hnan.
    unfold bench_report. rewrite serial_baseline_total, io_bind_lift_ok.
    set (base := {| T1_wall := _ |}).
    destruct (bench_rows_length (T1_wall base) threads runs_of)
      as [rows [Hrows Hlen]].
    rewrite Hrows, io_bind_lift_ok.
    set (rep := {| grid := NGRID; baseline := base; configs := rows |}).
    assert (Hrep : configs rep <> []).
    { simpl. intros ->. destruct threads; [contradiction | discriminate]. }
    rewrite (bench_artifacts_written l sf si rep Hrep).
    simpl configs.
    rewrite (rows_without_rss _ _ _ Hnan Hrows).
    rewrite (amdahl_step_spec l).
    unfold outcome, paths, other_artifacts, written. simpl.
    split; [reflexivity | split].
    + destruct (l _ _); simpl; intros H;
        repeat (destruct H as [H | H]; [discriminate H |]); exact H.
    + exists base, rows. split; [reflexivity |].
      split; [exact Hrows |]. destruct (l _ _); reflexivity.
Qed.

Lemma memory_plot_witness :
  outcome (bench_main failing_lstsq (fun _ => "x"%string) (fun _ => "n"%string)
                      48 (three_runs 1) (fun _ => three_runs 1)) = Ok tt /\
  ~ In "plots/memory_vs_threads.png"%string
       (paths (bench_main failing_lstsq (fun _ => "x"%string) (fun _ => "n"%string)
                          48 (three_runs 1) (fun _ => three_runs 1))).
Proof.
  destruct (proj2 memory_plot_omitted_without_rss
              failing_lstsq (fun _ => "x"%string) (fun _ => "n"%string)
              48%Z THREADS (three_runs 1) (fun _ => three_runs 1))
    as [H1 [H2 _]].
  - discriminate.
  - intros p r _ Hr. unfold three_runs in Hr. simpl in Hr.
    repeat (destruct Hr as [<- | Hr]; [reflexivity |]). contradiction.
  - split; assumption.
Defined.

(** * postprocess.py *)

Lemma mapM_length {A B : Type} (f : A -> result B) (l : list A) (bs : list B) :
  mapM f l = Ok bs -> List.length bs = List.length l.
Proof.
  revert bs. induction l as [| a l IH]; intros bs H; simpl in H.
  - injection H as <-. reflexivity.
  - destruct (f a) as [b |]; [| discriminate]. simpl in H.
    destruct (mapM f l) as [bs' |]; [| discriminate]. simpl in H.
    injection H as <-. simpl. f_equal. now apply IH.
Qed.

Lemma existsb_eqb_In (v : Z) (l : list Z) :
  existsb (Z.eqb v) l = true <-> In v l.
Proof.
  rewrite existsb_exists. split.
  - intros [x [Hx E]]. apply Z.eqb_eq in E. now subst.
  - intros H. exists v. split; [exact H | apply Z.eqb_refl].
Qed.

Lemma index_of_In (v : Z) (l : list Z) :
  In v l -> exists i, index_of v l = Ok i /\ (i < List.length l)%nat.
Proof.
  induction l as [| x l IH]; intros H; [contradiction |]. simpl.
  destruct (Z.eqb_spec x v) as [E | E].
  - exists 0%nat. split; [reflexivity | simpl; lia].
  - destruct H as [H | H]; [contradiction |].
    destruct (IH H) as [i [Hi Hlt]]. rewrite Hi. simpl.
    exists (S i). split; [reflexivity | simpl; lia].
Qed.

Lemma index_lt {A : Type} (a : list A) (i : nat) :
  (i < List.length a)%nat -> exists x, index a i = Ok x /\ nth_error a i = Some x.
Proof.
  intros H. unfold index.
  destruct (nth_error a i) as [x |] eqn:E.
  - exists x. split; reflexivity.
  - apply nth_error_None in E. lia.
Qed.

Section PostSteps.
Variable l : list (float * float) -> list float -> option (float * float).
Variable pf : string -> option float.
Variable pi : string -> option Z.

Lemma load_shape (rows : table) (L : Loaded) :
  load pf pi rows = Ok L ->
  rows <> [] /\
  List.length (P L) = List.length rows /\
  List.length (Tp L) = List.length rows /\
  List.length (Ep L) = List.length rows.
Proof.
  unfold load. destruct rows as [| row0 rows]; [discriminate |].
  intros H. split; [discriminate |].
  repeat match type of H with
         | bind ?c _ = Ok _ =>
             let E := fresh "E" in
             destruct c eqn:E; [cbn [bind] in H | discriminate H]
         end.
  injection H as <-. cbn [P Tp Ep].
  match goal with E : mapM _ _ = Ok _ |- _ => apply mapM_length in E end.
  rewrite !length_map. repeat split; assumption.
Qed.

Lemma save_speedup_serial_ok (P : list Z) (Sp : list float) :
  P <> [] ->
  outcome (save_speedup_serial P Sp) = Ok tt /\
  paths (save_speedup_serial P Sp) = ["plots/speedup_vs_serial.png"%string].
Proof.
  destruct P as [| p P]; [contradiction |]. intros _. split; reflexivity.
Qed.

Lemma save_speedup_parallel_absent (P : list Z) (Tp : list float) :
  ~ In 1%Z P -> save_speedup_parallel P Tp = io_ret tt.
Proof.
  intros H. unfold save_speedup_parallel.
  destruct (existsb (Z.eqb 1) P) eqn:E; [| reflexivity].
  apply existsb_eqb_In in E. contradiction.
Qed.

Lemma save_speedup_parallel_present (P : list Z) (Tp : list float) :
  List.length P = List.length Tp ->
  In 1%Z P ->
  outcome (save_speedup_parallel P Tp) = Ok tt /\
  paths (save_speedup_parallel P Tp)
  = ["plots/speedup_parallel_baseline.png"%string].
Proof.
  intros Hlen H. unfold save_speedup_parallel.
  rewrite (proj2 (existsb_eqb_In 1 P) H). simpl negb. cbv iota.
  destruct (index_of_In 1 P H) as [i [Hi Hlt]]. rewrite Hi, io_bind_lift_ok.
  rewrite Hlen in Hlt. destruct (index_lt Tp Hlt) as [t [Ht _]].
  rewrite Ht, io_bind_lift_ok.
  destruct P as [| p P]; [contradiction |]. split; reflexivity.
Qed.

Lemma save_summary_paths P Tp T1 Ep :
  paths (save_summary P Tp T1 Ep)
  = match outcome (save_summary P Tp T1 Ep) with
    | Ok _ => ["plots/summary.txt"%string]
    | Raise _ => []
    end.
Proof.
  unfold save_summary.
  repeat match goal with
         | |- context [io_bind (lift ?c) _] =>
             destruct c;
             [rewrite io_bind_lift_ok | rewrite io_bind_lift_raise; reflexivity]
         end.
  reflexivity.
Qed.

Lemma amdahl_step_paths p Tp T1 :
  outcome (amdahl_step l p Tp T1) = Ok tt /\
  (paths (amdahl_step l p Tp T1) = ["plots/amdahl.txt"%string] \/
   paths (amdahl_step l p Tp T1) = []).
Proof.
  rewrite amdahl_step_spec. destruct (l _ _); split; auto.
Qed.

(** The files of a run of [main] on a table that loads. *)
Lemma post_main_paths (rows : table) (m n : option Z) (L : Loaded) :
  load pf pi rows = Ok L ->
  paths (post_main l pf pi rows m n) =
  ["plots/speedup_vs_serial.png"%string]
  ++ paths (save_speedup_parallel (P L) (Tp L))
  ++ ["plots/correctness_table.md"%string]
  ++ paths (save_summary (P L) (Tp L) (l_T1_wall L) (Ep L))
  ++ match outcome (save_summary (P L) (Tp L) (l_T1_wall L) (Ep L)) with
     | Ok _ =>
         paths (amdahl_step l (floats (P L)) (Tp L) (l_T1_wall L))
         ++ match m, n with
            | Some _, Some _ => ["plots/throughput.png"%string]
            | _, _ => []
            end
     | Raise _ => []
     end.
Proof.
  intros HL. destruct (load_shape _ HL) as [Hne [HP [HTp HEp]]].
  assert (HPne : P L <> []).
  { intros E. rewrite E in HP. destruct rows; [contradiction | discriminate]. }
  unfold post_main. rewrite HL, io_bind_lift_ok.
  unfold paths. rewrite written_bind, map_app.
  destruct (save_speedup_serial_ok (Sp L) HPne) as [Hs1 Hs2].
  unfold paths in Hs2. rewrite Hs1, Hs2. f_equal.
  rewrite written_bind, map_app. f_equal.
  assert (Hpar : outcome (save_speedup_parallel (P L) (Tp L)) = Ok tt).
  { destruct (in_dec Z.eq_dec 1%Z (P L)) as [H1 | H1].
    - apply save_speedup_parallel_present; [congruence | exact H1].
    - now rewrite (@save_speedup_parallel_absent (P L) (Tp L) H1). }
  rewrite Hpar.
  rewrite written_bind, map_app. simpl outcome. cbv iota.
  change (map path (written (save_correctness_table (P L) (Hc L) (Hp L)
                                                    (l_hc1 L) (l_hp1 L))))
    with ["plots/correctness_table.md"%string].
  f_equal.
  rewrite written_bind, map_app. f_equal.
  destruct (outcome (save_summary (P L) (Tp L) (l_T1_wall L) (Ep L)));
    [| reflexivity].
  rewrite written_bind, map_app. f_equal.
  rewrite (proj1 (amdahl_step_paths _ _ _)).
  destruct m, n; reflexivity.
Qed.

End PostSteps.

(** C10: with no configuration at thread count 1 the step is the empty
    computation: it writes nothing, raises nothing and whatever follows
    runs as if the step were not there; with such a configuration it writes
    the one file and ends normally; and in a run of [main] on a table that
    loads, the file is among those written exactly when some configuration
    has thread count 1. *)
Theorem parallel_baseline_iff_thread_one :
  (forall (P : list Z) (Tp : list float),
      ~ In 1%Z P ->
      save_speedup_parallel P Tp = ([], Ok tt) /\
      forall (B : Type) (k : unit -> io B),
        io_bind (save_speedup_parallel P Tp) k = k tt) /\
  (forall (P : list Z) (Tp : list float),
      List.length P = List.length Tp ->
      In 1%Z P ->
      outcome (save_speedup_parallel P Tp) = Ok tt /\
      paths (save_speedup_parallel P Tp)
      = ["plots/speedup_parallel_baseline.png"%string]) /\
  (forall l pf pi rows m n L,
      load pf pi rows = Ok L ->
      (In "plots/speedup_parallel_baseline.png"%string
          (paths (post_main l pf pi rows m n))
       <-> In 1%Z (P L))).
Proof.
  split; [| split].
  - intros P Tp H. rewrite (@save_speedup_parallel_absent P Tp H).
    split; [reflexivity |]. intros B k.
    unfold io_ret, io_bind. now destruct (k tt).
  - intros P Tp Hlen H. now apply save_speedup_parallel_present.
  - intros l pf pi rows m n L HL.
    rewrite (@post_main_paths l pf pi rows m n L HL).
    destruct (@load_shape pf pi rows L HL) as [_ [HP [HTp _]]].
    rewrite (save_summary_paths (P L) (Tp L) (l_T1_wall L) (Ep L)).
    destruct (in_dec Z.eq_dec 1%Z (P L)) as [H1 | H1].
    + split; [intros _; exact H1 | intros _].
      destruct (@save_speedup_parallel_present (P L) (Tp L)) as [_ Hp];
        [congruence | exact H1 |].
      rewrite Hp. simpl. right. left. reflexivity.
    + split; [| intros H; contradiction].
      rewrite (@save_speedup_parallel_absent (P L) (Tp L) H1).
      unfold paths at 1. simpl written. simpl map.
      destruct (outcome (save_summary _ _ _ _)).
      * destruct (@amdahl_step_paths l (floats (P L)) (Tp L) (l_T1_wall L))
          as [_ [Ha | Ha]]; rewrite Ha; destruct m, n; simpl;
          intros H; repeat (destruct H as [H | H]; [discriminate H |]);
          contradiction.
      * simpl. intros H.
        repeat (destruct H as [H | H]; [discriminate H |]). contradiction.
Qed.

Lemma parallel_baseline_witness :
  save_speedup_parallel [2; 4]%Z [5; 2.5] = ([], Ok tt) /\
  paths (save_speedup_parallel [1; 2]%Z [10; 5])
  = ["plots/speedup_parallel_baseline.png"%string].
Proof.
  destruct parallel_baseline_iff_thread_one as [Habsent [Hpresent _]]. split.
  - apply (Habsent [2; 4]%Z [5; 2.5]). simpl. intros [H | [H | H]];
      try discriminate H; exact H.
  - apply (Hpresent [1; 2]%Z [10; 5]); [reflexivity | now left].
Defined.



(** * The summary *)

Section Argmin.
Import FloatOrder FloatFacts.

Lemma argmin_from_spec (a : list float) :
  forall (pre : list float) (mp : float) (best : nat),
    Forall number (pre ++ a) ->
    nth_error pre best = Some mp ->
    (forall j t, nth_error pre j = Some t -> (mp <=? t) = true) ->
    (forall j t, (j < best)%nat -> nth_error pre j = Some t -> (mp <? t) = true) ->
    exists m,
      first_minimum (pre ++ a) (argmin_from mp best (List.length pre) a) m.
Proof.
  induction a as [| x a IH]; intros pre mp best Hnum Hbest Hle Hlt.
  - simpl. rewrite app_nil_r. exists mp. repeat split; assumption.
  - assert (Hb : (best < List.length pre)%nat).
    { apply nth_error_Some. congruence. }
    assert (Hmp : number mp).
    { rewrite Forall_forall in Hnum. apply Hnum. apply in_or_app. left.
      eapply nth_error_In. exact Hbest. }
    assert (Hx : number x).
    { rewrite Forall_forall in Hnum. apply Hnum. apply in_or_app. right.
      now left. }
    assert (Hsplit : forall j t,
               nth_error (pre ++ [x]) j = Some t ->
               nth_error pre j = Some t \/ (j = List.length pre /\ t = x)).
    { intros j t Hj. destruct (Nat.lt_ge_cases j (List.length pre)) as [Hl | Hl].
      - left. now rewrite nth_error_app1 in Hj.
      - right. rewrite nth_error_app2 in Hj by exact Hl.
        destruct (j - List.length pre)%nat as [| k] eqn:Ek; simpl in Hj.
        + split; [lia | congruence].
        + destruct k; discriminate Hj. }
    replace (pre ++ x :: a) with ((pre ++ [x]) ++ a) in *
      by (rewrite <- app_assoc; reflexivity).
    simpl argmin_from. destruct (mp <=? x) eqn:E.
    + replace (S (List.length pre)) with (List.length (pre ++ [x]))
        by (rewrite length_app; simpl; lia).
      apply IH; try assumption.
      * now rewrite nth_error_app1.
      * intros j t Hj. destruct (Hsplit j t Hj) as [Hp | [_ ->]];
          [eapply Hle; exact Hp | exact E].
      * intros j t Hjb Hj. destruct (Hsplit j t Hj) as [Hp | [-> _]];
          [eapply Hlt; [exact Hjb | exact Hp] | lia].
    + rewrite (proj2 (isnan_false_iff x) Hx).
      assert (Hxm : (x <? mp) = true) by now apply leb_false_ltb.
      replace (S (List.length pre)) with (List.length (pre ++ [x]))
        by (rewrite length_app; simpl; lia).
      apply IH; try assumption.
      * rewrite nth_error_app2 by lia. now rewrite Nat.sub_diag.
      * intros j t Hj. destruct (Hsplit j t Hj) as [Hp | [_ ->]].
        -- apply ltb_leb. apply (@ltb_leb_trans x mp t Hxm).
           eapply Hle. exact Hp.
        -- now apply leb_refl.
      * intros j t Hjb Hj. destruct (Hsplit j t Hj) as [Hp | [-> _]]; [| lia].
        apply (@ltb_leb_trans x mp t Hxm). eapply Hle. exact Hp.
Qed.

(** On an array without [nan], [np.argmin] is the first position of the
    minimum. *)
Lemma np_argmin_spec (a : list float) :
  a <> [] ->
  Forall number a ->
  exists i m, np_argmin a = Ok i /\ first_minimum a i m.
Proof.
  destruct a as [| x a]; [contradiction |]. intros _ Hnum.
  assert (Hx : number x) by (inversion Hnum; assumption).
  unfold np_argmin. rewrite (proj2 (isnan_false_iff x) Hx).
  destruct (@argmin_from_spec a [x] x 0%nat) as [m Hm].
  - exact Hnum.
  - reflexivity.
  - intros [| [| j]] t Hj; simpl in Hj; try discriminate Hj.
    injection Hj as <-. now apply leb_refl.
  - intros j t Hj. lia.
  - exists (argmin_from x 0 1 a), m. split; [reflexivity | exact Hm].
Qed.

End Argmin.

Lemma sorted_nth_le (P : list Z) (i j : nat) (a b : Z) :
  Sorted Z.le P ->
  (i <= j)%nat ->
  nth_error P i = Some a -> nth_error P j = Some b -> (a <= b)%Z.
Proof.
  intros HS. apply Sorted_StronglySorted in HS;
    [| intros x y z; apply Z.le_trans].
  revert i j. induction HS as [| p P HS IH Hall]; intros i j Hij Hi Hj.
  - destruct i; discriminate Hi.
  - destruct i as [| i], j as [| j]; simpl in *.
    + injection Hi as <-. injection Hj as <-. lia.
    + injection Hi as <-. rewrite Forall_forall in Hall. apply Hall.
      eapply nth_error_In. exact Hj.
    + lia.
    + apply (IH i j); [lia | assumption | assumption].
Qed.

(** C7, as the code has it: for a non-empty configuration list whose wall
    times are positive numbers, the summary names a configuration whose
    wall time no configuration undercuts, the first such in list order;
    when the list is in ascending thread order that is the smallest thread
    count among the ties; the speedup it prints is [T1 / Tp] of that
    configuration and the efficiency is that configuration's. *)
Theorem summary_selects_first_fastest :
  forall (P : list Z) (Tp : list float) (T1 : float) (Ep : list float),
    Tp <> [] ->
    List.length P = List.length Tp ->
    List.length Ep = List.length Tp ->
    Forall (fun t => (0 <? t) = true) Tp ->
    exists (i : nat) (best_p : Z) (best_Tp Eff : float),
      save_summary P Tp T1 Ep
      = ([{| path := "plots/summary.txt";
             content := SummaryText T1 best_p best_Tp (T1 / best_Tp) Eff |}],
         Ok tt) /\
      nth_error P i = Some best_p /\
      nth_error Tp i = Some best_Tp /\
      nth_error Ep i = Some Eff /\
      (forall j t, nth_error Tp j = Some t -> (best_Tp <=? t) = true) /\
      (forall j t,
          nth_error Tp j = Some t -> (t <=? best_Tp) = true -> (i <= j)%nat) /\
      (Sorted Z.le P ->
       forall j p t,
         nth_error P j = Some p -> nth_error Tp j = Some t ->
         (t <=? best_Tp) = true -> (best_p <= p)%Z).
Proof.
  intros P Tp T1 Ep Hne HP HEp Hpos.
  assert (Hnum : Forall FloatOrder.number Tp).
  { eapply Forall_impl; [| exact Hpos]. intros t. apply FloatFacts.pos_number. }
  destruct (np_argmin_spec Hne Hnum) as [i [m [Harg [Hi [Hmin Hfirst]]]]].
  assert (Hlt : (i < List.length Tp)%nat) by (apply nth_error_Some; congruence).
  destruct (@index_lt Z P i) as [bp [HbpI Hbp]]; [lia |].
  destruct (@index_lt float Ep i) as [eff [HeffI Heff]]; [lia |].
  exists i, bp, m, eff.
  assert (Hm : (0 <? m) = true).
  { rewrite Forall_forall in Hpos. apply Hpos. eapply nth_error_In. exact Hi. }
  assert (Htie : forall j t,
             nth_error Tp j = Some t -> (t <=? m) = true -> (i <= j)%nat).
  { intros j t Ht Hle. destruct (Nat.lt_ge_cases j i) as [Hji | Hij]; [| exact Hij].
    rewrite (FloatFacts.ltb_not_leb (Hfirst j t Hji Ht)) in Hle.
    discriminate Hle. }
  split; [| repeat split; try assumption].
  - unfold save_summary.
    rewrite Harg, io_bind_lift_ok, HbpI, io_bind_lift_ok.
    unfold index at 1. rewrite Hi, io_bind_lift_ok.
    rewrite (FloatFacts.truediv_guarded T1 Hm), io_bind_lift_ok.
    replace (i <? List.length Ep)%nat with true
      by (symmetry; apply Nat.ltb_lt; lia).
    rewrite HeffI, io_bind_lift_ok. reflexivity.
  - intros HS j p t Hp Ht Hle.
    exact (@sorted_nth_le P i j bp p HS (Htie j t Ht Hle) Hbp Hp).
Qed.

Lemma summary_witness :
  exists (i : nat) (best_p : Z) (best_Tp Eff : float),
    save_summary [1; 2; 4]%Z [10; 2.5; 2.5] 10 [1; 2; 1]
    = ([{| path := "plots/summary.txt";
           content := SummaryText 10 best_p best_Tp (10 / best_Tp) Eff |}],
       Ok tt) /\
    nth_error [1; 2; 4]%Z i = Some best_p /\
    nth_error [10; 2.5; 2.5] i = Some best_Tp /\
    nth_error [1; 2; 1] i = Some Eff /\
    (forall j t, nth_error [10; 2.5; 2.5] j = Some t -> (best_Tp <=? t) = true) /\
    (forall j t,
        nth_error [10; 2.5; 2.5] j = Some t ->
        (t <=? best_Tp) = true -> (i <= j)%nat) /\
    (Sorted Z.le [1; 2; 4]%Z ->
     forall j p t,
       nth_error [1; 2; 4]%Z j = Some p ->
       nth_error [10; 2.5; 2.5] j = Some t ->
       (t <=? best_Tp) = true -> (best_p <= p)%Z).
Proof.
  apply (@summary_selects_first_fastest
           [1; 2; 4]%Z [10; 2.5; 2.5] 10 [1; 2; 1]).
  - discriminate.
  - reflexivity.
  - reflexivity.
  - repeat constructor.
Defined.

(** C7 as stated fails: in a table that lists 4 threads before 2 threads
    with the same wall time, the summary names 4 threads, not the smaller
    thread count. *)
Lemma tie_goes_to_first_row :
  save_summary [4; 2]%Z [2.5; 2.5] 10 [1; 2]
  = ([{| path := "plots/summary.txt";
         content := SummaryText 10 4 2.5 4 1 |}],
     Ok tt).
Proof. vm_compute. reflexivity. Qed.

(** * The persisted table *)

Module CodecFacts.
Import Codec.

Lemma dec_enc_pos (p : positive) (rest : string) :
  dec_pos (enc_pos p ++ rest) = Some (p, rest).
Proof.
  induction p as [q IH | q IH |]; simpl; rewrite ?IH; reflexivity.
Qed.

Lemma dec_enc_Z (z : Z) (rest : string) :
  dec_Z (enc_Z z ++ rest) = Some (z, rest).
Proof.
  destruct z as [| p | p]; simpl; rewrite ?dec_enc_pos; reflexivity.
Qed.

Lemma append_empty (s : string) : (s ++ "")%string = s.
Proof. induction s as [| c s IH]; simpl; congruence. Qed.

Lemma dec_enc_sf (x : spec_float) : dec_sf (enc_sf x) = Some x.
Proof.
  destruct x as [[] | [] | | [] m e]; try reflexivity;
    simpl; unfold dec_finite; rewrite dec_enc_pos;
    rewrite <- (append_empty (enc_Z e)), dec_enc_Z; reflexivity.
Qed.

Lemma parse_str_float (x : float) : parse_float (str_float x) = Some x.
Proof.
  unfold parse_float, str_float. rewrite dec_enc_sf.
  now rewrite SF2Prim_Prim2SF.
Qed.

Lemma parse_str_int (z : Z) : parse_int (str_int z) = Some z.
Proof.
  unfold parse_int, str_int.
  rewrite <- (append_empty (enc_Z z)), dec_enc_Z. reflexivity.
Qed.

End CodecFacts.

Section RoundTrip.
Variable sf : float -> string.
Variable si : Z -> string.
Variable pf : string -> option float.
Variable pi : string -> option Z.

(** [float(str(x))] is [x], [float("")] raises, [int(str(n))] is [n]. *)
Hypothesis float_str : forall x, pf (sf x) = Some x.
Hypothesis float_empty : pf "" = None.
Hypothesis int_str : forall n, pi (si n) = Some n.

Lemma str_float_truthy (x : float) : Py.truthy (sf x) = true.
Proof.
  destruct (sf x) eqn:E; [| reflexivity].
  specialize (float_str x). rewrite E in float_str. congruence.
Qed.

Lemma load_row_csv_row (NGRID : Z) (b : Baseline) (r : Row) :
  load_row pf pi (csv_row sf si NGRID b r) =
  Ok (threads r, Tp_wall_s r, speedup r, efficiency r, hc_med r, hp_med r,
      row_maxrss_kb r).
Proof.
  unfold load_row, int_cell, float_cell, float_cell_or_nan, to_int, to_float.
  cbn [csv_row lookup String.eqb Ascii.eqb Bool.eqb bind].
  rewrite !str_float_truthy, !float_str, !int_str. reflexivity.
Qed.

Lemma load_rows_csv_rows (NGRID : Z) (b : Baseline) (rows : list Row) :
  mapM (load_row pf pi) (map (csv_row sf si NGRID b) rows) =
  Ok (map (fun r => (threads r, Tp_wall_s r, speedup r, efficiency r,
                     hc_med r, hp_med r, row_maxrss_kb r)) rows).
Proof.
  induction rows as [| r rows IH]; [reflexivity |].
  cbn [map mapM]. rewrite load_row_csv_row, IH. reflexivity.
Qed.

Lemma load_write_table (rep : ScalingReport) :
  configs rep <> [] ->
  load pf pi (write_table sf si rep) = Ok (reloaded rep).
Proof.
  intros Hne. unfold write_table.
  destruct (configs rep) as [| r rows] eqn:E; [contradiction |].
  unfold load. rewrite load_rows_csv_rows. cbn [map].
  unfold int_cell, float_cell, float_cell_or_nan, to_int, to_float.
  cbn [csv_row lookup String.eqb Ascii.eqb Bool.eqb bind].
  rewrite !str_float_truthy, !float_str, !int_str.
  cbn [bind]. unfold reloaded. rewrite E.
  cbn [map]. rewrite !map_map. reflexivity.
Qed.

End RoundTrip.

(** C6, as the code has it: when [float(str(x))] gives back [x], [float]
    raises on the empty text and [int(str(n))] gives back [n], loading the
    table written from a report with at least one configuration succeeds
    and returns the grid size, the serial baseline, and per configuration,
    in the same order, the thread count, wall time, speedup, efficiency,
    both correctness medians and peak memory, each equal to what was
    written; the serial-fraction step then computes the same from the
    reloaded data as from the live data.  The per-configuration internal
    duration is not among what is returned. *)
Theorem table_round_trip :
  forall (sf : float -> string) (si : Z -> string)
         (pf : string -> option float) (pi : string -> option Z),
    (forall x, pf (sf x) = Some x) ->
    pf ""%string = None ->
    (forall n, pi (si n) = Some n) ->
    forall rep : ScalingReport,
      configs rep <> [] ->
      load pf pi (write_table sf si rep) =
      Ok {| ngrid := grid rep;
            l_T1_wall := T1_wall (baseline rep);
            l_T1_app := T1_app (baseline rep);
            l_hc1 := hc1 (baseline rep);
            l_hp1 := hp1 (baseline rep);
            P := map threads (configs rep);
            Tp := map Tp_wall_s (configs rep);
            Sp := map speedup (configs rep);
            Ep := map efficiency (configs rep);
            Hc := map hc_med (configs rep);
            Hp := map hp_med (configs rep);
            Rss := map row_maxrss_kb (configs rep) |} /\
      forall l,
        amdahl_step l (floats (P (reloaded rep))) (Tp (reloaded rep))
                    (l_T1_wall (reloaded rep))
        = amdahl_step l (map (fun r => Py.float_of_Z (threads r)) (configs rep))
                      (map Tp_wall_s (configs rep)) (T1_wall (baseline rep)).
Proof.
  intros sf si pf pi Hf He Hi rep Hne. split.
  - exact (@load_write_table sf si pf pi Hf He Hi rep Hne).
  - intros l. unfold reloaded, floats. cbn [P Tp l_T1_wall].
    now rewrite map_map.
Qed.

Lemma table_round_trip_witness :
  load Codec.parse_float Codec.parse_int
       (write_table Codec.str_float Codec.str_int (report_with_app 8))
  = Ok (reloaded (report_with_app 8)).
Proof.
  apply (@table_round_trip Codec.str_float Codec.str_int
                           Codec.parse_float Codec.parse_int
                           CodecFacts.parse_str_float eq_refl
                           CodecFacts.parse_str_int
                           (report_with_app 8)).
  discriminate.
Defined.

(** C6 as stated fails: two reports that differ in a configuration's median
    internal duration are written to tables that load to the same data,
    whatever [str], [float] and [int] do, so the reloaded data cannot
    reproduce that field. *)
Lemma reload_forgets_internal_duration :
  report_with_app 1 <> report_with_app 2 /\
  forall (sf : float -> string) (si : Z -> string)
         (pf : string -> option float) (pi : string -> option Z),
    load pf pi (write_table sf si (report_with_app 1))
    = load pf pi (write_table sf si (report_with_app 2)).
Proof.
  split.
  - intros H.
    apply (f_equal (fun rep => map (fun r => Tp_app_s r =? 1) (configs rep))) in H.
    vm_compute in H. discriminate H.
  - intros sf si pf pi. reflexivity.
Qed.

(** * More of the scripts: properties *)

Section MedianFacts.
Import FloatOrder FloatFacts.

Lemma leb_trans (x y z : float) :
  (x <=? y) = true -> (y <=? z) = true -> (x <=? z) = true.
Proof.
  rewrite !leb_iff. unfold below.
  intros [Hx [Hy H1]] [_ [Hz H2]]. repeat split; try assumption.
  intros G. apply H2. exact (@lex_lt_le_trans _ _ _ G H1).
Qed.

Lemma ltb_false_leb (x y : float) :
  number x -> number y -> (x <? y) = false -> (y <=? x) = true.
Proof.
  intros Hx Hy H. apply leb_iff. repeat split; try assumption.
  intros B. assert (G : (x <? y) = true); [| congruence].
  apply ltb_iff. repeat split; assumption.
Qed.

Lemma insert_perm (x : float) (l : list float) :
  Permutation (x :: l) (insert x l).
Proof.
  induction l as [| y l IH]; simpl; [reflexivity |].
  destruct (x <? y); [reflexivity |].
  rewrite perm_swap. now constructor.
Qed.

Lemma sorted_perm (vals : list float) : Permutation (sorted vals) vals.
Proof.
  unfold sorted.
  enough (G : forall acc, Permutation (fold_left (fun acc x => insert x acc) vals acc)
                                      (acc ++ vals))
    by (apply (G [])).
  induction vals as [| x vals IH]; intros acc; simpl.
  - now rewrite app_nil_r.
  - rewrite IH. rewrite <- insert_perm. apply Permutation_middle.
Qed.

Lemma insert_ascending (x : float) (l : list float) :
  number x -> Forall number l -> ascending l -> ascending (insert x l).
Proof.
  unfold ascending. intros Hx Hl HS. induction HS as [| y l HS IH Hy]; simpl.
  - repeat constructor.
  - inversion Hl as [| ? ? Hny Hnl]; subst.
    destruct (x <? y) eqn:E.
    + constructor; [constructor; assumption |].
      constructor; [now apply ltb_leb |].
      eapply Forall_impl; [| exact Hy]. intros z Hz. simpl in Hz.
      apply (@leb_trans x y z); [now apply ltb_leb | exact Hz].
    + constructor; [now apply IH |].
      rewrite <- (insert_perm x l).
      constructor; [now apply ltb_false_leb | exact Hy].
Qed.

Lemma sorted_ascending (vals : list float) :
  Forall number vals -> ascending (sorted vals).
Proof.
  unfold sorted. intros H.
  enough (G : forall acc, Forall number acc -> ascending acc ->
                          ascending (fold_left (fun acc x => insert x acc) vals acc))
    by (apply G; constructor).
  induction H as [| x vals Hx Hv IH]; intros acc Hacc HS; simpl; [exact HS |].
  apply IH.
  - rewrite <- (insert_perm x acc). now constructor.
  - now apply insert_ascending.
Qed.

Lemma ascending_split (l1 l2 : list float) (m : float) :
  ascending (l1 ++ m :: l2) ->
  Forall (fun a => (a <=? m) = true) l1 /\ Forall (fun b => (m <=? b) = true) l2.
Proof.
  unfold ascending. induction l1 as [| x l1 IH]; simpl; intros H.
  - inversion H; subst. split; [constructor | assumption].
  - inversion H as [| ? ? HS Hx]; subst. destruct (IH HS) as [H1 H2].
    split; [| exact H2]. constructor; [| exact H1].
    rewrite Forall_forall in Hx. apply Hx. apply in_or_app. right. now left.
Qed.

Lemma filter_length_perm (f : float -> bool) (l l' : list float) :
  Permutation l l' ->
  List.length (filter f l) = List.length (filter f l').
Proof.
  induction 1 as [| x l l' _ IH | x y l | l l' l'' _ IH1 _ IH2]; simpl.
  - reflexivity.
  - destruct (f x); simpl; congruence.
  - destruct (f x), (f y); reflexivity.
  - congruence.
Qed.

Lemma filter_all (f : float -> bool) (l : list float) :
  Forall (fun a => f a = true) l -> filter f l = l.
Proof.
  induction 1 as [| x l Hx _ IH]; simpl; [reflexivity |].
  now rewrite Hx, IH.
Qed.

(** In an ascending list of numbers, the entry at position [k] has the
    [k + 1] entries up to it at most as large and the rest at least as
    large. *)
Lemma ascending_counts (s : list float) (k : nat) :
  Forall number s -> ascending s -> (k < List.length s)%nat ->
  In (nth k s nan) s /\
  (k + 1 <= count_le (nth k s nan) s)%nat /\
  (List.length s - k <= count_ge (nth k s nan) s)%nat.
Proof.
  intros Hnum Hasc Hk.
  destruct (nth_split s nan Hk) as [l1 [l2 [Hs Hl1]]].
  set (m := nth k s nan) in *.
  assert (Hin : In m s) by (rewrite Hs; apply in_or_app; right; now left).
  assert (Hm : number m) by (rewrite Forall_forall in Hnum; now apply Hnum).
  rewrite Hs in Hasc. destruct (ascending_split _ _ _ Hasc) as [H1 H2].
  split; [exact Hin |].
  unfold count_le, count_ge. rewrite Hs, !filter_app, !length_app. simpl.
  rewrite (leb_refl Hm). simpl. split.
  - rewrite (filter_all (fun v => v <=? m) H1). lia.
  - rewrite (filter_all (fun v => m <=? v) H2). lia.
Qed.

End MedianFacts.

(** X1: on repeats without missing values [med] is the standard median.
    For an odd number of values it is one of them, with more than half of
    the values at most as large and more than half at least as large; for
    an even number [n] it is the mean of the two middle values: of [a],
    which has at least half of the values at most as large and more than
    half at least as large, so that it is the value number [n / 2] in
    ascending order, and of [b], which has more than half of the values at
    most as large and at least half at least as large, the value number
    [n / 2 + 1]. *)
Theorem med_is_standard_median :
  forall vals : list float,
    vals <> [] ->
    Forall FloatOrder.number vals ->
    ((List.length vals mod 2 = 1)%nat ->
     exists m,
       med vals = Ok m /\ In m vals /\
       (List.length vals < 2 * count_le m vals)%nat /\
       (List.length vals < 2 * count_ge m vals)%nat) /\
    ((List.length vals mod 2 = 0)%nat ->
     exists a b,
       med vals = Ok ((a + b) / 2) /\ In a vals /\ In b vals /\
       (a <=? b) = true /\
       (List.length vals <= 2 * count_le a vals)%nat /\
       (List.length vals < 2 * count_ge a vals)%nat /\
       (List.length vals < 2 * count_le b vals)%nat /\
       (List.length vals <= 2 * count_ge b vals)%nat).
Proof.
  intros vals Hne Hnum.
  pose proof (sorted_perm vals) as Hperm.
  assert (Hnum_s : Forall FloatOrder.number (sorted vals)).
  { rewrite Forall_forall in *. intros x Hx. apply Hnum.
    eapply Permutation_in; [exact Hperm | exact Hx]. }
  pose proof (sorted_ascending Hnum) as Hasc.
  pose proof (sorted_length vals) as Hlen.
  assert (Hpos : (0 < List.length vals)%nat)
    by (destruct vals; [contradiction | simpl; lia]).
  set (n := List.length vals) in *.
  assert (Hcount : forall m,
             count_le m vals = count_le m (sorted vals) /\
             count_ge m vals = count_ge m (sorted vals)).
  { intros m. unfold count_le, count_ge.
    split; apply filter_length_perm; symmetry; exact Hperm. }
  rewrite med_total. unfold med_value.
  destruct vals as [| v0 vals']; [contradiction |].
  set (vals := v0 :: vals') in *. unfold middle_value. rewrite Hlen.
  split; intros Hpar.
  - rewrite Hpar. simpl Nat.eqb. cbv iota.
    assert (Hk : (n / 2 < List.length (sorted vals))%nat).
    { rewrite Hlen. apply Nat.div_lt; lia. }
    destruct (ascending_counts Hnum_s Hasc Hk) as [Hin [Hle Hge]].
    exists (nth (n / 2) (sorted vals) nan).
    destruct (Hcount (nth (n / 2) (sorted vals) nan)) as [-> ->].
    rewrite Hlen in Hge.
    pose proof (Nat.div_mod_eq n 2) as Hdm.
    repeat split; try lia.
    eapply Permutation_in; [exact Hperm | exact Hin].
  - rewrite Hpar. simpl Nat.eqb. cbv iota.
    pose proof (Nat.div_mod_eq n 2) as Hdm.
    assert (Hk1 : (n / 2 - 1 < List.length (sorted vals))%nat)
      by (rewrite Hlen; lia).
    assert (Hk2 : (n / 2 < List.length (sorted vals))%nat)
      by (rewrite Hlen; lia).
    destruct (ascending_counts Hnum_s Hasc Hk1) as [Hina [Hlea Hgea]].
    destruct (ascending_counts Hnum_s Hasc Hk2) as [Hinb [Hleb Hgeb]].
    set (a := nth (n / 2 - 1) (sorted vals) nan) in *.
    set (b := nth (n / 2) (sorted vals) nan) in *.
    exists a, b.
    destruct (Hcount a) as [-> ->]. destruct (Hcount b) as [-> ->].
    rewrite Hlen in Hgea, Hgeb.
    assert (Hab : (a <=? b) = true).
    { destruct (nth_split (sorted vals) nan Hk1) as [l1 [l2 [Hs Hl1]]].
      fold a in Hs.
      assert (Hb : b = nth 0 l2 nan).
      { unfold b. rewrite Hs. rewrite app_nth2 by lia.
        replace (n / 2 - List.length l1)%nat with 1%nat by lia. reflexivity. }
      assert (Hl2 : l2 <> []).
      { intros ->. apply (f_equal (@List.length float)) in Hs.
        rewrite Hlen, length_app in Hs. simpl in Hs. lia. }
      rewrite Hs in Hasc.
      destruct (ascending_split _ _ _ Hasc) as [_ H2].
      destruct l2 as [| b0 l2]; [contradiction |]. simpl in Hb. subst b0.
      now inversion H2. }
    repeat split; try assumption; try lia.
    + eapply Permutation_in; [exact Hperm | exact Hina].
    + eapply Permutation_in; [exact Hperm | exact Hinb].
Qed.

Lemma med_is_standard_median_witness :
  (exists m,
      med three_walls = Ok m /\ In m three_walls /\
      (List.length three_walls < 2 * count_le m three_walls)%nat /\
      (List.length three_walls < 2 * count_ge m three_walls)%nat) /\
  (exists a b,
      med four_walls = Ok ((a + b) / 2) /\ In a four_walls /\ In b four_walls /\
      (a <=? b) = true /\
      (List.length four_walls <= 2 * count_le a four_walls)%nat /\
      (List.length four_walls < 2 * count_ge a four_walls)%nat /\
      (List.length four_walls < 2 * count_le b four_walls)%nat /\
      (List.length four_walls <= 2 * count_ge b four_walls)%nat).
Proof.
  assert (Hnum3 : Forall FloatOrder.number three_walls).
  { repeat constructor; apply FloatFacts.isnan_false_iff; reflexivity. }
  assert (Hnum4 : Forall FloatOrder.number four_walls).
  { repeat constructor; apply FloatFacts.isnan_false_iff; reflexivity. }
  split.
  - apply (proj1 (@med_is_standard_median three_walls ltac:(discriminate) Hnum3)).
    reflexivity.
  - apply (proj2 (@med_is_standard_median four_walls ltac:(discriminate) Hnum4)).
    reflexivity.
Defined.

(** X2: a marker that no repeat of a configuration printed stays missing in
    the row: the internal duration, either correctness scalar and the peak
    memory each aggregate to [nan] when every repeat lacks them, and the
    same holds for the serial baseline. *)
Theorem field_missing_in_every_repeat :
  forall (T1 : float) (pthr : Z) (runs : list Sample),
    exists row base,
      config_row T1 pthr runs = Ok row /\
      serial_baseline runs = Ok base /\
      (Forall (fun r => app_s r = nan) runs ->
       Tp_app_s row = nan /\ T1_app base = nan) /\
      (Forall (fun r => hc r = nan) runs ->
       hc_med row = nan /\ hc1 base = nan) /\
      (Forall (fun r => hp r = nan) runs ->
       hp_med row = nan /\ hp1 base = nan) /\
      (Forall (fun r => maxrss_kb r = nan) runs -> row_maxrss_kb row = nan).
Proof.
  intros T1 pthr runs. rewrite config_row_total, serial_baseline_total.
  eexists. eexists. split; [reflexivity |]. split; [reflexivity |]. simpl.
  assert (G : forall f : Sample -> float,
             Forall (fun r => f r = nan) runs ->
             med_value (map f runs) = nan /\
             med_value (non_missing (map f runs)) = nan).
  { intros f H.
    assert (H' : Forall (fun v => v = nan) (map f runs))
      by (apply Forall_map; exact H).
    destruct (all_missing_is_missing H') as [H1 [H2 _]]. now split. }
  split; [| split; [| split]]; intros H; try (split; apply (G _ H)).
  apply (G _ H).
Qed.

Lemma field_missing_witness :
  exists row base,
    config_row 10 2 (three_runs 5) = Ok row /\
    serial_baseline (three_runs 5) = Ok base /\
    hc_med row = nan /\ hc1 base = nan.
Proof.
  destruct (field_missing_in_every_repeat 10 2%Z (three_runs 5))
    as [row [base [Hr [Hb [_ [Hhc _]]]]]].
  exists row, base. split; [exact Hr |]. split; [exact Hb |].
  apply Hhc. repeat constructor.
Defined.

(** * postprocess.py: how a run can end *)

Lemma mapM_error {A B : Type} (f : A -> result B) (l : list A) (e : exn) :
  mapM f l = Raise e -> exists a, In a l /\ f a = Raise e.
Proof.
  induction l as [| a l IH]; simpl; [discriminate |].
  destruct (f a) eqn:E; simpl.
  - destruct (mapM f l); simpl; [discriminate |].
    intros H. injection H as <-. destruct (IH eq_refl) as [a' [Hin Ha']].
    exists a'. split; [now right | exact Ha'].
  - intros H. injection H as <-. exists a. split; [now left | exact E].
Qed.

Lemma mapM_map {A B C : Type} (g : A -> B) (f : B -> result C) (l : list A) :
  mapM f (map g l) = mapM (fun a => f (g a)) l.
Proof.
  induction l as [| a l IH]; simpl; [reflexivity | now rewrite IH].
Qed.

Lemma mapM_ext {A B : Type} (f g : A -> result B) (l : list A) :
  (forall a, f a = g a) -> mapM f l = mapM g l.
Proof.
  intros H. induction l as [| a l IH]; simpl; [reflexivity |].
  now rewrite H, IH.
Qed.

Section DictRowFacts.
Variable pf : string -> option float.
Variable pi : string -> option Z.

(** On rows with a text in every column the reader's rows are read as
    [load] reads them. *)
Lemma item_complete (key : string) (row : list (string * string)) :
  item key (complete row) = bind (lookup key row) (fun s => Ok (Some s)).
Proof.
  induction row as [| [k v] row IH]; simpl; [reflexivity |].
  destruct (String.eqb k key); [reflexivity | exact IH].
Qed.

Lemma dict_float_cell_complete key row :
  dict_float_cell pf key (complete row) = float_cell pf key row.
Proof.
  unfold dict_float_cell, float_cell. rewrite item_complete.
  now destruct (lookup key row).
Qed.

Lemma dict_int_cell_complete key row :
  dict_int_cell pi key (complete row) = int_cell pi key row.
Proof.
  unfold dict_int_cell, int_cell. rewrite item_complete.
  now destruct (lookup key row).
Qed.

Lemma dict_float_cell_or_nan_complete key row :
  dict_float_cell_or_nan pf key (complete row) = float_cell_or_nan pf key row.
Proof.
  unfold dict_float_cell_or_nan, float_cell_or_nan. rewrite item_complete.
  now destruct (lookup key row).
Qed.

Lemma load_dict_row_complete row :
  load_dict_row pf pi (complete row) = load_row pf pi row.
Proof.
  unfold load_dict_row, load_row.
  now rewrite dict_int_cell_complete, dict_float_cell_complete,
    !dict_float_cell_or_nan_complete.
Qed.

Lemma load_dict_complete (rows : table) :
  load_dict pf pi (map complete rows) = load pf pi rows.
Proof.
  destruct rows as [| row0 rest]; [reflexivity |].
  unfold load_dict, load. cbn [map].
  rewrite dict_int_cell_complete, !dict_float_cell_complete,
    !dict_float_cell_or_nan_complete.
  change (complete row0 :: map complete rest) with (map complete (row0 :: rest)).
  rewrite mapM_map.
  now rewrite (mapM_ext _ _ (row0 :: rest) load_dict_row_complete).
Qed.

(** How the reading of one cell fails. *)
Lemma item_error key (row : dict_row) e : item key row = Raise e -> e = KeyError.
Proof.
  induction row as [| [k v] row IH]; simpl.
  - now intros [= <-].
  - destruct (String.eqb k key); [discriminate | exact IH].
Qed.

Lemma dict_float_cell_failure key row e :
  In key REQUIRED_COLUMNS ->
  dict_float_cell pf key row = Raise e -> cell_failure pf pi key row e.
Proof.
  intros Hreq. unfold dict_float_cell, cell_failure.
  destruct (item key row) as [[s |] | e'] eqn:E; cbn [bind float_of_cell].
  - unfold to_float. destruct (pf s) eqn:Es; [discriminate |].
    intros [= <-]. right. right. exists s. auto.
  - intros [= <-]. right. left. auto.
  - intros [= <-]. left. apply item_error in E. subst. auto.
Qed.

Lemma dict_int_cell_failure key row e :
  In key REQUIRED_COLUMNS ->
  dict_int_cell pi key row = Raise e -> cell_failure pf pi key row e.
Proof.
  intros Hreq. unfold dict_int_cell, cell_failure.
  destruct (item key row) as [[s |] | e'] eqn:E; cbn [bind int_of_cell].
  - unfold to_int. destruct (pi s) eqn:Es; [discriminate |].
    intros [= <-]. right. right. exists s. auto.
  - intros [= <-]. right. left. auto.
  - intros [= <-]. left. apply item_error in E. subst. auto.
Qed.

Lemma dict_float_cell_or_nan_failure key row e :
  dict_float_cell_or_nan pf key row = Raise e -> cell_failure pf pi key row e.
Proof.
  unfold dict_float_cell_or_nan, cell_failure.
  destruct (item key row) as [[s |] | e'] eqn:E; cbn [bind cell_truthy].
  - destruct (Py.truthy s); [| discriminate]. cbn [bind float_of_cell].
    unfold to_float. destruct (pf s) eqn:Es; [discriminate |].
    intros [= <-]. right. right. exists s. auto.
  - discriminate.
  - intros [= <-]. left. apply item_error in E. subst. auto.
Qed.

Ltac cell_step H key :=
  match type of H with
  | bind ?c _ = Raise _ =>
      let E := fresh "E" in
      destruct c eqn:E; cbn [bind] in H;
      [| injection H as <-; exists key;
         first [ apply dict_int_cell_failure;
                 [unfold REQUIRED_COLUMNS; simpl; tauto | exact E]
               | apply dict_float_cell_failure;
                 [unfold REQUIRED_COLUMNS; simpl; tauto | exact E]
               | apply dict_float_cell_or_nan_failure; exact E ]]
  end.

Lemma load_dict_row_failure row e :
  load_dict_row pf pi row = Raise e ->
  exists key, cell_failure pf pi key row e.
Proof.
  unfold load_dict_row. intros H.
  cell_step H "threads"%string.
  cell_step H "Tp_wall_s"%string.
  cell_step H "speedup"%string.
  cell_step H "efficiency"%string.
  cell_step H "hc_med"%string.
  cell_step H "hp_med"%string.
  cell_step H "maxrss_kb"%string.
  discriminate H.
Qed.

Lemma load_dict_error (rows : list dict_row) (e : exn) :
  load_dict pf pi rows = Raise e ->
  (rows = [] /\ e = SystemExit) \/
  (rows <> [] /\
   exists row key, In row rows /\ cell_failure pf pi key row e).
Proof.
  unfold load_dict. destruct rows as [| row0 rest].
  - intros [= <-]. left. split; reflexivity.
  - intros H. right. split; [discriminate |].
    assert (Hfirst : forall key,
               cell_failure pf pi key row0 e ->
               exists row key, In row (row0 :: rest) /\
                               cell_failure pf pi key row e).
    { intros key Hk. exists row0, key. split; [now left | exact Hk]. }
    match type of H with
    | bind ?c _ = Raise _ =>
        destruct c eqn:E1; cbn [bind] in H;
        [| injection H as <-; apply (Hfirst "NGRID"%string);
           apply dict_int_cell_failure;
           [unfold REQUIRED_COLUMNS; simpl; tauto | exact E1]]
    end.
    match type of H with
    | bind ?c _ = Raise _ =>
        destruct c eqn:E2; cbn [bind] in H;
        [| injection H as <-; apply (Hfirst "T1_wall_s"%string);
           apply dict_float_cell_failure;
           [unfold REQUIRED_COLUMNS; simpl; tauto | exact E2]]
    end.
    match type of H with
    | bind ?c _ = Raise _ =>
        destruct c eqn:E3; cbn [bind] in H;
        [| injection H as <-; apply (Hfirst "T1_app_s"%string);
           apply dict_float_cell_failure;
           [unfold REQUIRED_COLUMNS; simpl; tauto | exact E3]]
    end.
    match type of H with
    | bind ?c _ = Raise _ =>
        destruct c eqn:E4; cbn [bind] in H;
        [| injection H as <-; apply (Hfirst "hc1"%string);
           apply dict_float_cell_or_nan_failure; exact E4]
    end.
    match type of H with
    | bind ?c _ = Raise _ =>
        destruct c eqn:E5; cbn [bind] in H;
        [| injection H as <-; apply (Hfirst "hp1"%string);
           apply dict_float_cell_or_nan_failure; exact E5]
    end.
    destruct (mapM (load_dict_row pf pi) (row0 :: rest)) eqn:Erows;
      cbn [bind] in H; [discriminate H |].
    injection H as <-.
    destruct (@mapM_error _ _ _ _ _ Erows) as [row [Hin Hrow]].
    destruct (load_dict_row_failure _ Hrow) as [key Hk].
    now exists row, key.
Qed.

Lemma cell_failure_exn key row e :
  cell_failure pf pi key row e ->
  e = KeyError \/ e = TypeError \/ e = ValueError.
Proof.
  intros [[_ ->] | [[_ [_ ->]] | [s [_ [-> _]]]]]; auto.
Qed.

End DictRowFacts.

(** X3: how [load] fails.  It ends with the exception that opening or
    reading the file raised; with [SystemExit] exactly when the file was
    read and has no row; and otherwise with the failure of one cell of one
    row: [KeyError] when the header has no such column, [TypeError] when
    the row is too short to have the cell and the column is one of the
    five read without a test, [ValueError] when [float] or [int] refuses
    the text of the cell.  When [load] fails [main] ends with that
    exception before any file is written.  On rows with a text in every
    column [load] and [main] are the ones over texts above. *)
Theorem load_failure_modes :
  forall (pf : string -> option float) (pi : string -> option Z),
    (forall reading e,
        load_file pf pi reading = Raise e ->
        reading = Raise e \/
        (reading = Ok [] /\ e = SystemExit) \/
        (exists rows row key,
            reading = Ok rows /\ In row rows /\
            cell_failure pf pi key row e)) /\
    (forall rows,
        load_file pf pi (Ok rows) = Raise SystemExit <-> rows = []) /\
    (forall rows e,
        load_file pf pi (Ok rows) = Raise e ->
        e = SystemExit \/ e = KeyError \/ e = TypeError \/ e = ValueError) /\
    (forall l m n reading e,
        load_file pf pi reading = Raise e ->
        post_main_dict l pf pi reading m n = ([], Raise e)) /\
    (forall l m n (texts : table),
        load_file pf pi (Ok (map complete texts)) = load pf pi texts /\
        post_main_dict l pf pi (Ok (map complete texts)) m n
        = post_main l pf pi texts m n).
Proof.
  intros pf pi. split; [| split; [| split; [| split]]].
  - intros [rows | e'] e H; cbn [load_file bind] in H.
    + destruct (load_dict_error _ _ _ H)
        as [[-> ->] | [_ [row [key [Hin Hk]]]]].
      * right. left. split; reflexivity.
      * right. right. now exists rows, row, key.
    + left. now injection H as <-.
  - intros rows. cbn [load_file bind]. split.
    + intros H. destruct (load_dict_error _ _ _ H)
        as [[Hr _] | [_ [row [key [_ Hk]]]]]; [exact Hr |].
      apply cell_failure_exn in Hk.
      destruct Hk as [Hk | [Hk | Hk]]; discriminate Hk.
    + intros ->. reflexivity.
  - intros rows e H. cbn [load_file bind] in H.
    destruct (load_dict_error _ _ _ H)
      as [[_ He] | [_ [row [key [_ Hk]]]]]; [now left |].
    right. exact (cell_failure_exn Hk).
  - intros l m n reading e H. unfold post_main_dict. rewrite H. reflexivity.
  - intros l m n texts. cbn [load_file bind].
    split; [apply load_dict_complete |].
    unfold post_main_dict, post_main. cbn [load_file bind].
    now rewrite load_dict_complete.
Qed.

Lemma load_failure_witness :
  post_main_dict failing_lstsq Codec.parse_float Codec.parse_int
                 (Ok [cut_row]) None None
  = ([], Raise TypeError).
Proof.
  apply (proj1 (proj2 (proj2 (proj2
           (load_failure_modes Codec.parse_float Codec.parse_int))))).
  reflexivity.
Defined.

(** * postprocess.py: the summary on unusual wall times *)

Section ArgminMore.
Import FloatOrder FloatFacts.

Lemma argmin_from_bound (a : list float) :
  forall mp best i,
    (best < i)%nat ->
    (argmin_from mp best i a < i + List.length a)%nat.
Proof.
  induction a as [| x a IH]; intros mp best i Hb; simpl; [lia |].
  destruct (mp <=? x).
  - specialize (IH mp best (S i)). lia.
  - destruct (Py.isnan x); [lia |].
    specialize (IH x i (S i)). lia.
Qed.

Lemma np_argmin_bound (a : list float) :
  a <> [] -> exists i, np_argmin a = Ok i /\ (i < List.length a)%nat.
Proof.
  destruct a as [| x a]; [contradiction |]. intros _. simpl.
  destruct (Py.isnan x).
  - exists 0%nat. split; [reflexivity | lia].
  - exists (argmin_from x 0 1 a). split; [reflexivity |].
    pose proof (@argmin_from_bound a x 0%nat 1%nat). lia.
Qed.

Lemma argmin_from_first_nan (a1 a2 : list float) :
  Forall number a1 ->
  forall mp best i,
    argmin_from mp best i (a1 ++ nan :: a2) = (i + List.length a1)%nat.
Proof.
  induction 1 as [| x a1 Hx _ IH]; intros mp best i; simpl.
  - rewrite leb_nan_r. simpl. lia.
  - rewrite (proj2 (isnan_false_iff x) Hx).
    destruct (mp <=? x); rewrite IH; lia.
Qed.

Lemma first_nan_split (a : list float) :
  (exists t, In t a /\ Py.isnan t = true) ->
  exists a1 a2, a = a1 ++ nan :: a2 /\ Forall number a1.
Proof.
  induction a as [| x a IH]; intros [t [Hin Ht]]; [contradiction |].
  destruct (Py.isnan x) eqn:Ex.
  - apply isnan_iff in Ex. subst x. exists [], a. split; [reflexivity | constructor].
  - destruct Hin as [-> | Hin]; [congruence |].
    destruct IH as [a1 [a2 [-> H1]]]; [now exists t |].
    exists (x :: a1), a2. split; [reflexivity |].
    constructor; [now apply isnan_false_iff | exact H1].
Qed.

Lemma np_argmin_first_nan (a1 a2 : list float) :
  Forall number a1 ->
  np_argmin (a1 ++ nan :: a2) = Ok (List.length a1).
Proof.
  intros H. destruct H as [| x a1 Hx H1]; simpl; [reflexivity |].
  rewrite (proj2 (isnan_false_iff x) Hx).
  rewrite (@argmin_from_first_nan a1 a2 H1). reflexivity.
Qed.

End ArgminMore.

Section SummaryOutcome.
Variable pf : string -> option float.
Variable pi : string -> option Z.

(** After a successful [load] the summary can only fail in the division. *)
Lemma save_summary_loaded (rows : table) (L : Loaded) :
  load pf pi rows = Ok L ->
  exists i best_p best_Tp Eff,
    np_argmin (Tp L) = Ok i /\
    nth_error (P L) i = Some best_p /\
    nth_error (Tp L) i = Some best_Tp /\
    nth_error (Ep L) i = Some Eff /\
    save_summary (P L) (Tp L) (l_T1_wall L) (Ep L) =
    if best_Tp =? 0 then ([], Raise ZeroDivisionError)
    else ([{| path := "plots/summary.txt";
              content := SummaryText (l_T1_wall L) best_p best_Tp
                                     (l_T1_wall L / best_Tp) Eff |}],
          Ok tt).
Proof.
  intros HL. destruct (@load_shape pf pi rows L HL) as [Hne [HP [HTp HEp]]].
  assert (HTne : Tp L <> []).
  { intros E. rewrite E in HTp. destruct rows; [contradiction | discriminate]. }
  destruct (@np_argmin_bound (Tp L) HTne) as [i [Hi Hlt]].
  assert (HiP : (i < List.length (P L))%nat) by lia.
  assert (HiE : (i < List.length (Ep L))%nat) by lia.
  destruct (@index_lt Z (P L) i HiP) as [bp [HbpI Hbp]].
  destruct (@index_lt float (Tp L) i Hlt) as [bt [HbtI Hbt]].
  destruct (@index_lt float (Ep L) i HiE) as [eff [HeffI Heff]].
  exists i, bp, bt, eff. repeat split; try assumption.
  unfold save_summary.
  rewrite Hi, io_bind_lift_ok, HbpI, io_bind_lift_ok, HbtI, io_bind_lift_ok.
  unfold Py.truediv. destruct (bt =? 0).
  - reflexivity.
  - rewrite io_bind_lift_ok.
    replace (i <? List.length (Ep L))%nat with true
      by (symmetry; apply Nat.ltb_lt; lia).
    rewrite HeffI, io_bind_lift_ok. reflexivity.
Qed.

(** On a table that loads, [main] ends as [save_summary] does. *)
Lemma post_main_outcome
      (l : list (float * float) -> list float -> option (float * float))
      (rows : table) (m n : option Z) (L : Loaded) :
  load pf pi rows = Ok L ->
  outcome (post_main l pf pi rows m n)
  = outcome (save_summary (P L) (Tp L) (l_T1_wall L) (Ep L)).
Proof.
  intros HL. destruct (@load_shape pf pi rows L HL) as [Hne [HP [HTp _]]].
  assert (HPne : P L <> []).
  { intros E. rewrite E in HP. destruct rows; [contradiction | discriminate]. }
  unfold post_main. rewrite HL, io_bind_lift_ok.
  rewrite outcome_bind.
  rewrite (proj1 (@save_speedup_serial_ok (P L) (Sp L) HPne)).
  rewrite outcome_bind.
  assert (Hpar : outcome (save_speedup_parallel (P L) (Tp L)) = Ok tt).
  { destruct (in_dec Z.eq_dec 1%Z (P L)) as [H1 | H1].
    - apply save_speedup_parallel_present; [congruence | exact H1].
    - now rewrite (@save_speedup_parallel_absent (P L) (Tp L) H1). }
  rewrite Hpar, outcome_bind. simpl outcome at 1. cbv iota.
  rewrite outcome_bind.
  destruct (outcome (save_summary (P L) (Tp L) (l_T1_wall L) (Ep L)))
    as [[] | e]; [| reflexivity].
  rewrite outcome_bind.
  rewrite (proj1 (@amdahl_step_paths l (floats (P L)) (Tp L) (l_T1_wall L))).
  destruct m, n; reflexivity.
Qed.

End SummaryOutcome.

(** X4: on a table that loads, [main] ends normally or with
    [ZeroDivisionError], and nothing else; the error is raised exactly when
    the wall time [np.argmin] selects is zero, and then the serial and
    parallel speedup plots and the correctness table are on disk while the
    summary, the serial-fraction file and the throughput plot are not. *)
Theorem post_main_outcomes :
  forall l pf pi rows m n L,
    load pf pi rows = Ok L ->
    exists i best_Tp,
      np_argmin (Tp L) = Ok i /\
      nth_error (Tp L) i = Some best_Tp /\
      ((best_Tp =? 0) = false ->
       outcome (post_main l pf pi rows m n) = Ok tt /\
       In "plots/summary.txt"%string (paths (post_main l pf pi rows m n))) /\
      ((best_Tp =? 0) = true ->
       outcome (post_main l pf pi rows m n) = Raise ZeroDivisionError /\
       paths (post_main l pf pi rows m n) =
       ["plots/speedup_vs_serial.png"%string]
       ++ paths (save_speedup_parallel (P L) (Tp L))
       ++ ["plots/correctness_table.md"%string]).
Proof.
  intros l pf pi rows m n L HL.
  destruct (@save_summary_loaded pf pi rows L HL)
    as [i [bp [bt [eff [Hi [_ [Hbt [_ Hsum]]]]]]]].
  exists i, bt. split; [exact Hi |]. split; [exact Hbt |].
  pose proof (@post_main_paths l pf pi rows m n L HL) as Hpaths.
  pose proof (@post_main_outcome pf pi l rows m n L HL) as Hout.
  rewrite Hout, Hpaths, Hsum. split; intros Hz; rewrite Hz.
  - split; [reflexivity |]. simpl outcome. cbv iota.
    apply in_or_app. right. apply in_or_app. right.
    apply in_or_app. right. apply in_or_app. left. now left.
  - split; [reflexivity |]. simpl outcome. cbv iota.
    unfold paths at 2. simpl. rewrite ?app_nil_r. reflexivity.
Qed.

Lemma post_main_outcomes_witness :
  outcome (post_main failing_lstsq Codec.parse_float Codec.parse_int
             (write_table Codec.str_float Codec.str_int (report_with_app 8))
             None None) = Ok tt.
Proof.
  destruct (@post_main_outcomes failing_lstsq Codec.parse_float Codec.parse_int
              (write_table Codec.str_float Codec.str_int (report_with_app 8))
              None None (reloaded (report_with_app 8)))
    as [i [t [H1 [H2 [H3 _]]]]].
  - exact (@load_write_table Codec.str_float Codec.str_int
             Codec.parse_float Codec.parse_int
             CodecFacts.parse_str_float eq_refl CodecFacts.parse_str_int
             (report_with_app 8) ltac:(discriminate)).
  - vm_compute in H1. injection H1 as <-.
    vm_compute in H2. injection H2 as <-.
    apply H3. reflexivity.
Defined.

(** X5: a missing wall time wins the summary.  When the wall times of a
    loaded table hold a [nan], [save_summary] names the first
    configuration whose time is [nan] as the best one and reports [nan] as
    its time and as its speedup; it does not raise. *)
Theorem summary_selects_first_missing_time :
  forall (P : list Z) (Tp1 Tp2 Ep : list float) (T1 : float),
    List.length P = List.length (Tp1 ++ nan :: Tp2) ->
    List.length Ep = List.length (Tp1 ++ nan :: Tp2) ->
    Forall FloatOrder.number Tp1 ->
    exists best_p Eff,
      nth_error P (List.length Tp1) = Some best_p /\
      nth_error Ep (List.length Tp1) = Some Eff /\
      save_summary P (Tp1 ++ nan :: Tp2) T1 Ep =
      ([{| path := "plots/summary.txt";
           content := SummaryText T1 best_p nan nan Eff |}], Ok tt).
Proof.
  intros P Tp1 Tp2 Ep T1 HP HEp Hnum.
  rewrite length_app in HP, HEp. simpl in HP, HEp.
  assert (HiP : (List.length Tp1 < List.length P)%nat) by lia.
  assert (HiE : (List.length Tp1 < List.length Ep)%nat) by lia.
  destruct (@index_lt Z P (List.length Tp1) HiP) as [bp [HbpI Hbp]].
  destruct (@index_lt float Ep (List.length Tp1) HiE) as [eff [HeffI Heff]].
  exists bp, eff. split; [exact Hbp |]. split; [exact Heff |].
  unfold save_summary.
  rewrite (@np_argmin_first_nan Tp1 Tp2 Hnum), io_bind_lift_ok.
  rewrite HbpI, io_bind_lift_ok.
  assert (Hnth : index (Tp1 ++ nan :: Tp2) (List.length Tp1) = Ok nan).
  { unfold index. rewrite nth_error_app2 by lia.
    now rewrite Nat.sub_diag. }
  rewrite Hnth, io_bind_lift_ok.
  unfold Py.truediv. change (nan =? 0) with false. cbv iota.
  rewrite io_bind_lift_ok, FloatFacts.div_nan_r.
  replace (List.length Tp1 <? List.length Ep)%nat with true
    by (symmetry; apply Nat.ltb_lt; lia).
  rewrite HeffI, io_bind_lift_ok. reflexivity.
Qed.

Lemma summary_missing_time_witness :
  save_summary [1; 2; 4]%Z ([3] ++ nan :: [1]) 6 [1; 1; 1] =
  ([{| path := "plots/summary.txt";
       content := SummaryText 6 2 nan nan 1 |}], Ok tt).
Proof.
  destruct (@summary_selects_first_missing_time
              [1; 2; 4]%Z [3] [1] [1; 1; 1] 6 eq_refl eq_refl)
    as [bp [eff [Hp [He H]]]].
  - constructor; [| constructor].
    apply FloatFacts.isnan_false_iff. reflexivity.
  - simpl in Hp, He. injection Hp as <-. injection He as <-. exact H.
Defined.

(** * postprocess.py: the correctness table *)

Section DeltaFacts.
Import FloatFacts.

Lemma sub_nan_l (x : float) : nan - x = nan.
Proof.
  apply Prim2SF_inj. rewrite sub_spec. simpl.
  unfold SF64sub, SFsub. now destruct (Prim2SF x).
Qed.

Lemma sub_nan_r (x : float) : x - nan = nan.
Proof.
  apply Prim2SF_inj. rewrite sub_spec. simpl.
  unfold SF64sub, SFsub. now destruct (Prim2SF x).
Qed.

(** The test for missing values in a difference changes nothing: the
    subtraction gives [nan] by itself. *)
Lemma delta_sub (x x1 : float) : delta x x1 = x - x1.
Proof.
  unfold delta.
  destruct (Py.isnan x) eqn:Ex; simpl.
  - apply isnan_iff in Ex. subst x. now rewrite sub_nan_l.
  - destruct (Py.isnan x1) eqn:Ex1; simpl; [| reflexivity].
    apply isnan_iff in Ex1. subst x1. now rewrite sub_nan_r.
Qed.

End DeltaFacts.

(** X6: [save_correctness_table] writes one file and does not raise; the
    table has one line for each position the three columns share, in
    order, and the line at position [i] holds the thread count, the two
    medians and their differences to the serial baseline, which are plain
    subtractions: the test for [nan] guards nothing. *)
Theorem correctness_table_lines :
  forall (P : list Z) (Hc Hp : list float) (hc1 hp1 : float),
  exists lines,
    save_correctness_table P Hc Hp hc1 hp1 =
    ([{| path := "plots/correctness_table.md";
         content := CorrectnessTable hc1 hp1 lines |}], Ok tt) /\
    List.length lines
    = Nat.min (List.length P) (Nat.min (List.length Hc) (List.length Hp)) /\
    (forall i p hc hp,
        nth_error P i = Some p ->
        nth_error Hc i = Some hc ->
        nth_error Hp i = Some hp ->
        nth_error lines i = Some (p, hc, hc - hc1, hp, hp - hp1)).
Proof.
  intros P Hc Hp hc1 hp1. eexists. split; [reflexivity |]. split.
  - now rewrite length_map, !length_combine.
  - revert Hc Hp. induction P as [| p0 P IH]; intros Hc Hp i p hc hp HP HHc HHp.
    + destruct i; discriminate HP.
    + destruct Hc as [| hc0 Hc]; [destruct i; discriminate HHc |].
      destruct Hp as [| hp0 Hp]; [destruct i; discriminate HHp |].
      destruct i as [| i]; simpl in *.
      * injection HP as <-. injection HHc as <-. injection HHp as <-.
        now rewrite !delta_sub.
      * now apply IH.
Qed.

(** * bench.py then postprocess.py *)

Section Pipeline.
Import FloatFacts.

(** The median of an odd number of values is one of them. *)
Lemma med_value_odd_In (vals : list float) :
  (List.length vals mod 2 = 1)%nat -> In (med_value vals) vals.
Proof.
  intros Hodd. destruct vals as [| v vals']; [discriminate Hodd |].
  unfold med_value, middle_value. rewrite sorted_length, Hodd.
  simpl Nat.eqb. cbv iota.
  eapply Permutation_in; [apply sorted_perm |].
  apply nth_In. rewrite sorted_length. apply Nat.div_lt; simpl; lia.
Qed.

Lemma bench_rows_columns (T1 : float) (ths : list Z)
      (runs_of : Z -> list Sample) :
  exists rows,
    bench_rows T1 ths runs_of = Ok rows /\
    map threads rows = ths /\
    map Tp_wall_s rows = map (fun p => med_value (map wall_s (runs_of p))) ths.
Proof.
  unfold bench_rows.
  induction ths as [| p ths [rows [E [H1 H2]]]]; simpl.
  - exists []. repeat split.
  - rewrite config_row_total, E. simpl. eexists. split; [reflexivity |].
    simpl. now rewrite H1, H2.
Qed.

End Pipeline.

(** X7: [postprocess.py] reads what [bench.py] writes.  Whatever the runs
    produced, the table [bench.py] writes for a non-empty list of thread
    counts loads, given that [float] and [int] read back what [str]
    printed, with the thread counts of the sweep in order; when the sweep
    has the thread count 1 the plot against the parallel baseline is
    written; and when every configuration ran an odd number of times, each
    with a positive wall time, [postprocess.py] ends without an error. *)
Theorem bench_table_postprocesses :
  forall (l l' : list (float * float) -> list float -> option (float * float))
         (sf : float -> string) (si : Z -> string)
         (pf : string -> option float) (pi : string -> option Z),
    (forall x, pf (sf x) = Some x) ->
    pf EmptyString = None ->
    (forall z, pi (si z) = Some z) ->
    forall (NGRID : Z) (ths : list Z) (serial_runs : list Sample)
           (runs_of : Z -> list Sample) (m n : option Z),
      ths <> [] ->
      exists rep,
        In {| path := "plots/bench_results.csv";
              content := Table FIELDNAMES (write_table sf si rep) |}
           (written (bench_report l sf si NGRID ths serial_runs runs_of)) /\
        load pf pi (write_table sf si rep) = Ok (reloaded rep) /\
        P (reloaded rep) = ths /\
        (In 1%Z ths ->
         In "plots/speedup_parallel_baseline.png"%string
            (paths (post_main l' pf pi (write_table sf si rep) m n))) /\
        ((forall p, In p ths ->
                    (List.length (runs_of p) mod 2 = 1)%nat /\
                    forall r, In r (runs_of p) -> (0 <? wall_s r) = true) ->
         outcome (post_main l' pf pi (write_table sf si rep) m n) = Ok tt).
Proof.
  intros l l' sf si pf pi Hf He Hi NGRID ths serial_runs runs_of m n Hne.
  destruct (@bench_rows_columns
              (med_value (map wall_s serial_runs)) ths runs_of)
    as [rows [Hrows [Hth HTp]]].
  assert (Hrne : rows <> []).
  { intros E. rewrite E in Hth. simpl in Hth. congruence. }
  set (base := {| T1_wall := med_value (map wall_s serial_runs);
                  T1_app := med_value (map app_s serial_runs);
                  hc1 := med_value (map hc serial_runs);
                  hp1 := med_value (map hp serial_runs) |}).
  set (rep := {| grid := NGRID; baseline := base; configs := rows |}).
  assert (HL : load pf pi (write_table sf si rep) = Ok (reloaded rep))
    by exact (@load_write_table sf si pf pi Hf He Hi rep Hrne).
  exists rep. split; [| split; [exact HL | split; [exact Hth | split]]].
  - unfold bench_report. rewrite serial_baseline_total, io_bind_lift_ok.
    fold base. change (T1_wall base) with (med_value (map wall_s serial_runs)).
    rewrite Hrows, io_bind_lift_ok. fold rep.
    rewrite (@bench_artifacts_written l sf si rep Hrne).
    unfold written. simpl fst. now left.
  - intros H1.
    rewrite (@post_main_paths l' pf pi (write_table sf si rep) m n
                              (reloaded rep) HL).
    apply in_or_app. right. apply in_or_app. left.
    assert (Hlen : List.length (P (reloaded rep))
                   = List.length (Tp (reloaded rep)))
      by (simpl; now rewrite !length_map).
    assert (HinP : In 1%Z (P (reloaded rep))) by (simpl; now rewrite Hth).
    rewrite (proj2 (@save_speedup_parallel_present _ _ Hlen HinP)).
    now left.
  - intros Hruns.
    rewrite (@post_main_outcome pf pi l' (write_table sf si rep) m n
                                (reloaded rep) HL).
    destruct (@save_summary_loaded pf pi (write_table sf si rep)
                                   (reloaded rep) HL)
      as [i [bp [bt [eff [_ [_ [Hbt [_ Hsum]]]]]]]].
    rewrite Hsum.
    assert (Hpos : (0 <? bt) = true).
    { apply nth_error_In in Hbt. simpl in Hbt. rewrite HTp in Hbt.
      apply in_map_iff in Hbt. destruct Hbt as [p [<- Hp]].
      destruct (Hruns p Hp) as [Hodd Hwall].
      assert (Hin : In (med_value (map wall_s (runs_of p)))
                       (map wall_s (runs_of p)))
        by (apply med_value_odd_In; now rewrite length_map).
      apply in_map_iff in Hin. destruct Hin as [r [<- Hr]].
      now apply Hwall. }
    now rewrite (FloatFacts.pos_not_zero Hpos).
Qed.

Lemma bench_table_postprocesses_witness :
  exists rep,
    In {| path := "plots/bench_results.csv";
          content := Table FIELDNAMES
                       (write_table Codec.str_float Codec.str_int rep) |}
       (written (bench_main failing_lstsq Codec.str_float Codec.str_int 48
                            (three_runs 2) (fun _ => three_runs 1))) /\
    load Codec.parse_float Codec.parse_int
         (write_table Codec.str_float Codec.str_int rep) = Ok (reloaded rep) /\
    P (reloaded rep) = THREADS /\
    outcome (post_main failing_lstsq Codec.parse_float Codec.parse_int
                       (write_table Codec.str_float Codec.str_int rep)
                       None None) = Ok tt.
Proof.
  destruct (@bench_table_postprocesses
              failing_lstsq failing_lstsq Codec.str_float Codec.str_int
              Codec.parse_float Codec.parse_int
              CodecFacts.parse_str_float eq_refl CodecFacts.parse_str_int
              48%Z THREADS (three_runs 2) (fun _ => three_runs 1) None None)
    as [rep [H1 [H2 [H3 [_ H4]]]]].
  - discriminate.
  - exists rep. repeat split; try assumption.
    apply H4. intros p _. split; [reflexivity |].
    intros r Hr. simpl in Hr.
    destruct Hr as [<- | [<- | [<- | []]]]; reflexivity.
Defined.

(** * plot_heatmap.py *)

Section HeatmapFacts.
Import FloatOrder FloatFacts.

Lemma replace_nan_number (a : list float) : Forall number (replace_nan a).
Proof.
  unfold replace_nan. apply Forall_forall. intros x Hx.
  apply in_map_iff in Hx. destruct Hx as [y [<- _]].
  destruct (Py.isnan y) eqn:E.
  - apply isnan_false_iff. reflexivity.
  - now apply isnan_false_iff.
Qed.

Lemma replace_nan_nth (a : list float) (k : nat) :
  nth_error (replace_nan a) k = option_map nan_as_inf (nth_error a k).
Proof. unfold replace_nan. now rewrite nth_error_map. Qed.

Lemma nan_as_inf_number (x : float) : number x -> nan_as_inf x = x.
Proof.
  intros H. unfold nan_as_inf. now rewrite (proj2 (isnan_false_iff x) H).
Qed.

Lemma forallb_isnan_false (a : list float) :
  (exists v, In v a /\ number v) -> forallb Py.isnan a = false.
Proof.
  intros [v [Hin Hv]]. destruct (forallb Py.isnan a) eqn:E; [| reflexivity].
  rewrite forallb_forall in E. apply E in Hin.
  apply isnan_iff in Hin. contradiction.
Qed.

Lemma length_concat_rect (c : nat) (m : matrix) :
  rectangular c m -> List.length (List.concat m) = (List.length m * c)%nat.
Proof.
  induction 1 as [| row m Hrow _ IH]; simpl; [reflexivity |].
  rewrite length_app, IH, Hrow. reflexivity.
Qed.

Lemma concat_nth_rect (c : nat) (m : matrix) :
  rectangular c m ->
  forall i j row,
    nth_error m i = Some row -> (j < c)%nat ->
    nth_error (List.concat m) (i * c + j) = nth_error row j.
Proof.
  induction 1 as [| row0 m Hrow _ IH]; intros i j row Hi Hj.
  - destruct i; discriminate Hi.
  - destruct i as [| i]; simpl in *.
    + injection Hi as <-. apply nth_error_app1. lia.
    + rewrite nth_error_app2 by lia.
      replace (c + i * c + j - List.length row0)%nat with (i * c + j)%nat by lia.
      now apply IH.
Qed.

End HeatmapFacts.

Section HeatmapMarker.
Import FloatOrder FloatFacts.
Variable m : matrix.
Variable c : nat.
Hypothesis Hrect : rectangular c m.

Lemma shape_rect : m <> [] -> shape m = (List.length m, c).
Proof.
  unfold shape. destruct m as [| row m']; [contradiction |]. intros _.
  inversion Hrect; subst. reflexivity.
Qed.

(** The position [np.nanargmin] answers, unravelled. *)
Lemma plot_heatmap_at (k : nat) :
  np_nanargmin (ravel m) = Ok k ->
  (k < List.length (ravel m))%nat ->
  (0 < c)%nat /\
  (k / c < List.length m)%nat /\ (k mod c < c)%nat /\
  plot_heatmap m
  = Ok {| image := m; marker_x := (k mod c)%nat; marker_y := (k / c)%nat |} /\
  exists row, nth_error m (k / c) = Some row /\
              nth_error row (k mod c) = nth_error (ravel m) k.
Proof.
  intros Hk Hlt. unfold ravel in *.
  rewrite (length_concat_rect Hrect) in Hlt.
  assert (Hc : (0 < c)%nat) by nia.
  assert (Hm : m <> []) by (intros E; rewrite E in Hlt; simpl in Hlt; lia).
  assert (Hdiv : (k / c < List.length m)%nat)
    by (apply Nat.Div0.div_lt_upper_bound; lia).
  assert (Hmod : (k mod c < c)%nat) by (apply Nat.mod_upper_bound; lia).
  split; [exact Hc |]. split; [exact Hdiv |]. split; [exact Hmod |]. split.
  - unfold plot_heatmap, ravel. rewrite Hk. cbn [bind].
    rewrite (shape_rect Hm). unfold np_unravel_index.
    replace (k <? List.length m * c)%nat with true
      by (symmetry; apply Nat.ltb_lt; exact Hlt).
    reflexivity.
  - destruct (nth_error m (k / c)) as [row |] eqn:Erow.
    + exists row. split; [reflexivity |].
      rewrite <- (@concat_nth_rect c m Hrect (k / c)%nat (k mod c)%nat row Erow Hmod).
      f_equal. pose proof (Nat.div_mod_eq k c). lia.
    + apply nth_error_None in Erow. lia.
Qed.

End HeatmapMarker.

(** X8: the marker of the heat map sits on the smallest value.  For a
    matrix of at least two rows of one length, at least two, with an entry
    below [+inf], [plot_heatmap.py] marks
    a cell inside the image whose value is a number, at most every other
    number of the matrix, and the first such cell by rows: every number
    stored before it is larger.  Missing values are passed over. *)
Theorem heatmap_marks_first_minimum :
  forall (m : matrix) (c : nat),
    rectangular c m ->
    (2 <= List.length m)%nat ->
    (2 <= c)%nat ->
    (exists w, In w (ravel m) /\ (w <? infinity) = true) ->
    exists h row v,
      plot_heatmap m = Ok h /\ image h = m /\
      (marker_y h < List.length m)%nat /\ (marker_x h < c)%nat /\
      nth_error m (marker_y h) = Some row /\
      nth_error row (marker_x h) = Some v /\
      FloatOrder.number v /\
      (forall w, In w (ravel m) -> FloatOrder.number w -> (v <=? w) = true) /\
      (forall i j row' t,
          nth_error m i = Some row' -> nth_error row' j = Some t ->
          FloatOrder.number t ->
          (i * c + j < marker_y h * c + marker_x h)%nat ->
          (v <? t) = true).
Proof.
  intros m c Hrect _ _ [w0 [Hw0 Hlt0]].
  assert (Hnum0 : FloatOrder.number w0)
    by (apply FloatFacts.ltb_iff in Hlt0; tauto).
  assert (Hne : replace_nan (ravel m) <> []).
  { destruct (ravel m); [contradiction | discriminate]. }
  destruct (@np_argmin_spec (replace_nan (ravel m)) Hne
                            (replace_nan_number (ravel m)))
    as [k [mn [Hk [Hnth [Hle Hfirst]]]]].
  assert (Hnan : np_nanargmin (ravel m) = Ok k).
  { unfold np_nanargmin. rewrite forallb_isnan_false; [exact Hk |].
    now exists w0. }
  rewrite replace_nan_nth in Hnth.
  destruct (nth_error (ravel m) k) as [v |] eqn:Ev; [| discriminate Hnth].
  simpl in Hnth. injection Hnth as Hmn.
  assert (Hklt : (k < List.length (ravel m))%nat)
    by (apply nth_error_Some; congruence).
  destruct (@plot_heatmap_at m c Hrect k Hnan Hklt)
    as [Hc [Hdiv [Hmod [Hplot [row [Hrow Hcell]]]]]].
  assert (Hle' : forall w, In w (ravel m) -> FloatOrder.number w ->
                           (mn <=? w) = true).
  { intros w Hw Hnum. apply In_nth_error in Hw. destruct Hw as [j Hj].
    apply (Hle j). rewrite replace_nan_nth, Hj. simpl.
    now rewrite nan_as_inf_number. }
  assert (Hv : FloatOrder.number v).
  { intros E. subst v. unfold nan_as_inf in Hmn. simpl in Hmn. subst mn.
    pose proof (Hle' w0 Hw0 Hnum0) as H.
    rewrite (FloatFacts.ltb_not_leb Hlt0) in H. discriminate H. }
  rewrite (nan_as_inf_number Hv) in Hmn. subst mn.
  exists {| image := m; marker_x := (k mod c)%nat; marker_y := (k / c)%nat |},
         row, v.
  cbn [image marker_x marker_y].
  split; [exact Hplot |]. split; [reflexivity |].
  split; [exact Hdiv |]. split; [exact Hmod |].
  split; [exact Hrow |]. split; [congruence |].
  split; [exact Hv |]. split; [exact Hle' |].
  intros i j row' t Hi Hj Hnum Hbefore.
  assert (Hjc : (j < c)%nat).
  { assert (Hin : In row' m) by (eapply nth_error_In; exact Hi).
    unfold rectangular in Hrect. rewrite Forall_forall in Hrect.
    rewrite <- (Hrect row' Hin). apply nth_error_Some. congruence. }
  apply (Hfirst (i * c + j)%nat).
  - pose proof (Nat.div_mod_eq k c). lia.
  - rewrite replace_nan_nth. unfold ravel.
    rewrite (@concat_nth_rect c m Hrect i j row' Hi Hjc), Hj. simpl.
    now rewrite nan_as_inf_number.
Qed.

Lemma heatmap_marker_witness :
  plot_heatmap surface
  = Ok {| image := surface; marker_x := 1; marker_y := 1 |}.
Proof.
  destruct (@heatmap_marks_first_minimum surface 3)
    as [h [row [v [Hplot _]]]].
  - repeat constructor.
  - simpl. lia.
  - lia.
  - exists 5. split; [simpl; auto | reflexivity].
  - rewrite Hplot. vm_compute in Hplot. injection Hplot as <-. reflexivity.
Defined.

(** X9: on a matrix of at least two rows of one length, at least two,
    [plot_heatmap.py] fails exactly when no entry is a number, and the
    error is the [ValueError] of [np.nanargmin]; unravelling the position
    never fails. *)
Theorem heatmap_fails_iff_all_missing :
  forall (m : matrix) (c : nat),
    rectangular c m ->
    (2 <= List.length m)%nat ->
    (2 <= c)%nat ->
    forall e,
      plot_heatmap m = Raise e <->
      (e = ValueError /\ forall v, In v (ravel m) -> v = nan).
Proof.
  intros m c Hrect _ _ e. split.
  - intros H. destruct (forallb Py.isnan (ravel m)) eqn:Eall.
    + unfold plot_heatmap, np_nanargmin in H. rewrite Eall in H.
      cbn [bind] in H. injection H as <-. split; [reflexivity |].
      intros v Hv. rewrite forallb_forall in Eall.
      apply FloatFacts.isnan_iff. now apply Eall.
    + exfalso.
      assert (Hne : replace_nan (ravel m) <> []).
      { destruct (ravel m); [discriminate Eall | discriminate]. }
      destruct (@np_argmin_bound (replace_nan (ravel m)) Hne) as [k [Hk Hlt]].
      unfold replace_nan in Hlt. rewrite length_map in Hlt.
      assert (Hnan : np_nanargmin (ravel m) = Ok k)
        by (unfold np_nanargmin; now rewrite Eall).
      destruct (@plot_heatmap_at m c Hrect k Hnan Hlt)
        as [_ [_ [_ [Hplot _]]]].
      rewrite Hplot in H. discriminate H.
  - intros [-> Hall]. unfold plot_heatmap, np_nanargmin.
    replace (forallb Py.isnan (ravel m)) with true; [reflexivity |].
    symmetry. apply forallb_forall. intros v Hv.
    apply FloatFacts.isnan_iff. now apply Hall.
Qed.

Lemma heatmap_fails_witness :
  plot_heatmap [[nan; nan]; [nan; nan]] = Raise ValueError.
Proof.
  apply (proj2 (@heatmap_fails_iff_all_missing [[nan; nan]; [nan; nan]] 2
                  ltac:(repeat constructor) ltac:(simpl; lia) ltac:(lia)
                  ValueError)).
  split; [reflexivity |].
  intros v Hv. simpl in Hv.
  destruct Hv as [<- | [<- | [<- | [<- | []]]]]; reflexivity.
Defined.

(** * bench.py: the peak memory of a run *)

Section TextFacts.
Local Open Scope string_scope.

Lemma append_assoc_s (a b c : string) : (a ++ b) ++ c = a ++ (b ++ c).
Proof. induction a as [| x a IH]; simpl; [reflexivity | now rewrite IH]. Qed.

Lemma append_nil_r (a : string) : a ++ "" = a.
Proof. induction a as [| x a IH]; simpl; [reflexivity | now rewrite IH]. Qed.

Lemma lower_app (a b : string) : lower (a ++ b) = lower a ++ lower b.
Proof. induction a as [| x a IH]; simpl; [reflexivity | now rewrite IH]. Qed.

Lemma strip_prefix_spec (p s rest : string) :
  Re.strip_prefix p s = Some rest <-> s = p ++ rest.
Proof.
  revert s. induction p as [| a p IH]; intros s; simpl.
  - split; [now intros [= ->] | now intros ->].
  - destruct s as [| b s].
    + split; discriminate.
    + destruct (Ascii.eqb_spec a b) as [-> | Hne].
      * rewrite IH. split; [now intros -> | now intros [= ->]].
      * split; [discriminate | intros [= E _]; congruence].
Qed.

Lemma contains_spec (key s : string) :
  contains key s = true <-> exists pre post, s = pre ++ key ++ post.
Proof.
  induction s as [| c s IH].
  - simpl. destruct (Re.strip_prefix key "") as [rest |] eqn:E.
    + apply strip_prefix_spec in E. split; [| reflexivity].
      intros _. exists "", rest. exact E.
    + split; [discriminate |]. intros [pre [post H]].
      destruct pre; [| discriminate H]. simpl in H.
      apply strip_prefix_spec in H. congruence.
  - cbn [contains].
    destruct (Re.strip_prefix key (String c s)) as [rest |] eqn:E.
    + apply strip_prefix_spec in E. split; [| reflexivity].
      intros _. exists "", rest. exact E.
    + rewrite IH. split.
      * intros [pre [post ->]]. exists (String c pre), post. reflexivity.
      * intros [pre [post H]]. destruct pre as [| c' pre].
        -- simpl in H. apply strip_prefix_spec in H. congruence.
        -- injection H as _ ->. now exists pre, post.
Qed.

(** A text that holds a phrase holds every beginning of the phrase. *)
Lemma contains_prefix (k1 k2 s : string) :
  contains (k1 ++ k2) s = true -> contains k1 s = true.
Proof.
  rewrite !contains_spec. intros [pre [post ->]].
  exists pre, (k2 ++ post). now rewrite append_assoc_s.
Qed.

(** A text that holds a part holds what the part holds. *)
Lemma contains_part (key pre line post : string) :
  contains key line = true -> contains key (pre ++ line ++ post) = true.
Proof.
  rewrite !contains_spec. intros [a [b ->]].
  exists (pre ++ a), (b ++ post). now rewrite !append_assoc_s.
Qed.

(** Every line of a text is a part of the text. *)
Lemma splitlines_from_part (n : nat) :
  forall (s cur line : string),
    (String.length s <= n)%nat ->
    In line (splitlines_from cur s) ->
    exists pre post, cur ++ s = pre ++ line ++ post.
Proof.
  induction n as [| n IH]; intros s cur line Hn Hin.
  - destruct s as [| c s]; [| simpl in Hn; lia].
    simpl in Hin. destruct cur as [| x cur]; [contradiction |].
    destruct Hin as [<- | []]. exists "", "". simpl.
    now rewrite !append_nil_r.
  - destruct s as [| c s].
    + simpl in Hin. destruct cur as [| x cur]; [contradiction |].
      destruct Hin as [<- | []]. exists "", "". simpl.
      now rewrite !append_nil_r.
    + simpl in Hn. cbn [splitlines_from] in Hin.
      destruct (is_linebreak c).
      * destruct Hin as [<- | Hin].
        -- exists "", (String c s). reflexivity.
        -- destruct s as [| c' s']; [contradiction |].
           destruct (Ascii.eqb c "013" && Ascii.eqb c' "010")%bool.
           ++ destruct (IH s' "" line ltac:(simpl in Hn; lia) Hin)
                as [pre [post H]].
              simpl in H. rewrite H.
              exists (cur ++ String c (String c' pre)), post.
              now rewrite !append_assoc_s.
           ++ destruct (IH (String c' s') "" line ltac:(simpl in *; lia) Hin)
                as [pre [post H]].
              simpl in H. rewrite H.
              exists (cur ++ String c pre), post.
              now rewrite !append_assoc_s.
      * destruct (IH s (cur ++ String c "") line ltac:(lia) Hin)
          as [pre [post H]].
        rewrite append_assoc_s in H. simpl in H. now exists pre, post.
Qed.

Lemma splitlines_part (s line : string) :
  In line (splitlines s) -> exists pre post, s = pre ++ line ++ post.
Proof.
  intros H. exact (@splitlines_from_part (String.length s) s "" line
                     (Nat.le_refl _) H).
Qed.

Lemma all_digits_app (a b : string) :
  all_digits (a ++ b) = (all_digits a && all_digits b)%bool.
Proof.
  induction a as [| x a IH]; simpl; [reflexivity |].
  now rewrite IH, andb_assoc.
Qed.

(** What [\d+] finds is not empty and made of digits. *)
Lemma findall_digits_from_tokens (s : string) :
  forall cur t,
    all_digits cur = true ->
    In t (findall_digits_from cur s) ->
    t <> "" /\ all_digits t = true.
Proof.
  induction s as [| c s IH]; intros cur t Hcur Hin; simpl in Hin.
  - destruct cur as [| x cur]; [contradiction |].
    destruct Hin as [<- | []]. split; [discriminate | exact Hcur].
  - destruct (Re.digit c) eqn:Ec.
    + apply (IH (cur ++ String c "") t); [| exact Hin].
      rewrite all_digits_app, Hcur. simpl. now rewrite Ec.
    + destruct cur as [| x cur].
      * now apply (IH "" t).
      * destruct Hin as [<- | Hin]; [split; [discriminate | exact Hcur] |].
        now apply (IH "" t).
Qed.

Lemma last_token_In (toks : list string) (t : string) :
  last_token toks = Some t -> In t toks.
Proof.
  destruct toks as [| t0 toks]; [discriminate |]. simpl. intros [= <-].
  destruct toks as [| t1 toks]; [now left |]. right.
  assert (Hne : t1 :: toks <> []) by discriminate.
  rewrite (app_removelast_last t0 Hne) at 2.
  apply in_or_app. right. now left.
Qed.

End TextFacts.

Section MaxRssFacts.
Variable pf : string -> option float.

(** The loop over the lines is a search for the first line with the
    phrase. *)
Lemma scan_lines_find (key : string) (lines : list string) (d : float) :
  scan_lines pf key lines d =
  match find (fun line => contains key (lower line)) lines with
  | Some line =>
      match last_token (findall_digits line) with
      | Some t => to_float pf t
      | None => Ok d
      end
  | None => Ok d
  end.
Proof.
  induction lines as [| line lines IH]; simpl; [reflexivity |].
  destruct (contains key (lower line)); [reflexivity | exact IH].
Qed.

(** A phrase that is in no part of the text is in none of its lines. *)
Lemma find_absent (key s : string) :
  contains key (lower s) = false ->
  find (fun line => contains key (lower line)) (splitlines s) = None.
Proof.
  intros H.
  destruct (find _ (splitlines s)) as [line |] eqn:E; [| reflexivity].
  apply find_some in E. destruct E as [Hin Hline].
  destruct (splitlines_part _ _ Hin) as [pre [post Hs]].
  rewrite Hs, !lower_app, (@contains_part key _ _ _ Hline) in H.
  discriminate H.
Qed.

(** Reading the peak memory asks [float] for texts of digits only. *)
Lemma run_one_maxrss_total (sout serr : string) :
  (forall t, t <> EmptyString -> all_digits t = true ->
             exists x, pf t = Some x) ->
  exists x, run_one_maxrss pf sout serr = Ok x.
Proof.
  intros Hpf. unfold run_one_maxrss, RSS_KEYS. cbn [scan_keys].
  assert (Hscan : forall key lines,
             exists x, scan_lines pf key lines nan = Ok x).
  { intros key lines. rewrite scan_lines_find.
    destruct (find _ lines) as [line |]; [| now exists nan].
    destruct (last_token (findall_digits line)) as [t |] eqn:Et;
      [| now exists nan].
    apply last_token_In in Et.
    destruct (@findall_digits_from_tokens line EmptyString t eq_refl Et)
      as [Hne Hd].
    destruct (Hpf t Hne Hd) as [x Hx]. exists x.
    unfold to_float. now rewrite Hx. }
  repeat match goal with
         | |- context [if ?b then _ else _] => destruct b
         end; try apply Hscan.
  now exists nan.
Qed.

Lemma run_one_parse_error (sout serr : string) (e : exn) :
  run_one_parse pf sout serr = Raise e -> e = ValueError.
Proof.
  unfold run_one_parse, float_of_match, to_float. intros H.
  repeat match type of H with
         | bind ?c _ = Raise _ =>
             let E := fresh "E" in
             destruct c eqn:E; cbn [bind] in H;
             [| injection H as <-;
                repeat match goal with
                       | G : match ?m with _ => _ end = Raise _ |- _ =>
                           destruct m; try discriminate G
                       end;
                congruence]
         end.
  discriminate H.
Qed.

End MaxRssFacts.

(** X10: the peak memory [run_one] records is the last integer on the
    first line of the output, standard output before standard error, that
    holds the phrase "maximum resident set size" in any case of letters,
    and is missing when no line holds it or that line has no digit.  The
    second phrase of the list and the test on the whole text change
    nothing. *)
Theorem maxrss_is_last_integer_of_first_line :
  forall (pf : string -> option float) (out err : string),
    run_one_maxrss pf out err =
    match find (fun line =>
                  contains "maximum resident set size"%string (lower line))
               (splitlines (out ++ newline ++ err)%string) with
    | Some line =>
        match last_token (findall_digits line) with
        | Some t => to_float pf t
        | None => Ok nan
        end
    | None => Ok nan
    end.
Proof.
  intros pf out err. unfold run_one_maxrss, RSS_KEYS. cbn [scan_keys].
  destruct (contains "maximum resident set size"%string
                     (lower (out ++ newline ++ err)%string)) eqn:E1.
  - apply scan_lines_find.
  - rewrite (@find_absent _ _ E1).
    destruct (contains "maximum resident set size (kbytes)"%string
                       (lower (out ++ newline ++ err)%string)) eqn:E2;
      [| reflexivity].
    apply (@contains_prefix "maximum resident set size"%string
                            " (kbytes)"%string) in E2.
    congruence.
Qed.

(** X11: reading the peak memory never fails, given that [float] reads
    every text of digits: [run_one] fails only where reading the timer or
    the bandwidths fails, with the same exception, and a result holds the
    wall time, the exit status and the two texts it was given. *)
Theorem run_one_fails_only_on_markers :
  forall (pf : string -> option float),
    (forall t, t <> EmptyString -> all_digits t = true ->
               exists x, pf t = Some x) ->
    forall (wall : float) (code : Z) (sout serr : string),
      (exists x, run_one_maxrss pf sout serr = Ok x) /\
      (forall e, run_one pf wall code sout serr = Raise e <->
                 run_one_parse pf sout serr = Raise e) /\
      (forall s, run_one pf wall code sout serr = Ok s ->
                 wall_s s = wall /\ rc s = code /\
                 out s = sout /\ err s = serr).
Proof.
  intros pf Hpf wall code sout serr.
  pose proof (@run_one_maxrss_total pf sout serr Hpf) as Hrss.
  split; [exact Hrss |]. destruct Hrss as [x Hx]. unfold run_one.
  rewrite Hx. split.
  - intros e. destruct (run_one_parse pf sout serr) as [m | e']; simpl.
    + split; discriminate.
    + split; intros [= ->]; reflexivity.
  - intros s. destruct (run_one_parse pf sout serr) as [m | e']; simpl;
      [| discriminate].
    intros [= <-]. repeat split.
Qed.

Lemma float_of_digits_reads (t : string) :
  t <> EmptyString -> all_digits t = true ->
  exists x, float_of_digits t = Some x.
Proof.
  intros Hne Hd. unfold float_of_digits. rewrite Hd.
  destruct t; [contradiction | eexists; reflexivity].
Qed.

Lemma run_one_witness :
  (exists x, run_one_maxrss float_of_digits EmptyString linux_time_line = Ok x)
  /\ forall s,
      run_one float_of_digits 2 0 EmptyString linux_time_line = Ok s ->
      wall_s s = 2 /\ rc s = 0%Z /\
      out s = EmptyString /\ err s = linux_time_line.
Proof.
  destruct (@run_one_fails_only_on_markers
              float_of_digits float_of_digits_reads 2 0%Z
              EmptyString linux_time_line) as [H1 [_ H3]].
  split; [exact H1 | exact H3].
Defined.

(** * bench.py: what of a run reaches the files *)

Section MeasuresFacts.

Lemma measures_fields (a b : list Sample) :
  map measures a = map measures b ->
  map wall_s a = map wall_s b /\ map app_s a = map app_s b /\
  map maxrss_kb a = map maxrss_kb b /\
  map hc a = map hc b /\ map hp a = map hp b.
Proof.
  intros H.
  assert (G : forall f : float * float * float * float * float -> float,
             map (fun r => f (measures r)) a = map (fun r => f (measures r)) b).
  { intros f. rewrite <- !(map_map measures f). now rewrite H. }
  repeat split.
  - exact (G (fun t => fst (fst (fst (fst t))))).
  - exact (G (fun t => snd (fst (fst (fst t))))).
  - exact (G (fun t => snd (fst (fst t)))).
  - exact (G (fun t => snd (fst t))).
  - exact (G (fun t => snd t)).
Qed.

Lemma serial_baseline_measures (a b : list Sample) :
  map measures a = map measures b -> serial_baseline a = serial_baseline b.
Proof.
  intros H. destruct (measures_fields _ _ H) as [H1 [H2 [_ [H4 H5]]]].
  unfold serial_baseline. now rewrite H1, H2, H4, H5.
Qed.

Lemma config_row_measures (T1 : float) (p : Z) (a b : list Sample) :
  map measures a = map measures b -> config_row T1 p a = config_row T1 p b.
Proof.
  intros H. destruct (measures_fields _ _ H) as [H1 [H2 [H3 [H4 H5]]]].
  unfold config_row. now rewrite H1, H2, H3, H4, H5.
Qed.

Lemma bench_rows_measures (T1 : float) (ths : list Z)
      (f g : Z -> list Sample) :
  (forall p, In p ths -> map measures (f p) = map measures (g p)) ->
  bench_rows T1 ths f = bench_rows T1 ths g.
Proof.
  unfold bench_rows. induction ths as [| p ths IH]; intros H; simpl.
  - reflexivity.
  - rewrite (@config_row_measures T1 p (f p) (g p)) by (apply H; now left).
    rewrite IH; [reflexivity |]. intros q Hq. apply H. now right.
Qed.

End MeasuresFacts.

(** X12: the exit status and the text of a run reach no file.  Two sweeps
    whose runs measured the same five numbers write the same files and end
    the same way, so a run that crashed is counted like any other. *)
Theorem only_measures_reach_the_files :
  forall (l : list (float * float) -> list float -> option (float * float))
         (sf : float -> string) (si : Z -> string)
         (NGRID : Z) (ths : list Z)
         (serial serial' : list Sample) (runs_of runs_of' : Z -> list Sample),
    map measures serial = map measures serial' ->
    (forall p, In p ths ->
               map measures (runs_of p) = map measures (runs_of' p)) ->
    bench_report l sf si NGRID ths serial runs_of
    = bench_report l sf si NGRID ths serial' runs_of'.
Proof.
  intros l sf si NGRID ths serial serial' runs_of runs_of' Hs Hr.
  unfold bench_report.
  rewrite (serial_baseline_measures _ _ Hs).
  destruct (serial_baseline serial') as [base | e]; [| reflexivity].
  rewrite !io_bind_lift_ok.
  now rewrite (@bench_rows_measures (T1_wall base) ths runs_of runs_of' Hr).
Qed.

Lemma crashed_runs_witness :
  bench_main failing_lstsq Codec.str_float Codec.str_int 48
             (three_runs 2) (fun _ => three_runs 1)
  = bench_main failing_lstsq Codec.str_float Codec.str_int 48
               (map crashed (three_runs 2))
               (fun _ => map crashed (three_runs 1)).
Proof.
  apply only_measures_reach_the_files.
  - reflexivity.
  - intros p _. reflexivity.
Defined.

(** * bench.py: main over the processes it starts *)

Section BenchRunFacts.
Variable l : list (float * float) -> list float -> option (float * float).
Variable sf : float -> string.
Variable si : Z -> string.
Variable pf : string -> option float.
Variable process : binary -> Z -> nat -> result Finished.
Hypothesis Hpf :
  forall t, t <> EmptyString -> all_digits t = true -> exists x, pf t = Some x.

Lemma run_one_error (wall : float) (code : Z) (sout serr : string) (e : exn) :
  run_one pf wall code sout serr = Raise e ->
  e = ValueError /\ run_one_parse pf sout serr = Raise ValueError.
Proof.
  unfold run_one. intros H.
  destruct (run_one_parse pf sout serr) as [m | e'] eqn:E; cbn [bind] in H.
  - destruct (@run_one_maxrss_total pf sout serr Hpf) as [x Hx].
    rewrite Hx in H. discriminate H.
  - injection H as <-. pose proof (run_one_parse_error _ _ _ E) as ->.
    split; reflexivity.
Qed.

Lemma repeats_error (b : binary) (t : Z) (e : exn) :
  repeats pf process b t = Raise e ->
  exists i,
    (i < REPEATS)%nat /\
    (process b t i = Raise e \/
     (e = ValueError /\
      exists f, process b t i = Ok f /\
                run_one_parse pf (f_out f) (f_err f) = Raise ValueError)).
Proof.
  unfold repeats. intros H.
  destruct (@mapM_error _ _ _ _ _ H) as [i [Hi Hrun]].
  apply in_seq in Hi. exists i. split; [lia |].
  destruct (process b t i) as [f | e']; cbn [bind] in Hrun.
  - right. apply run_one_error in Hrun. destruct Hrun as [-> Hp].
    split; [reflexivity |]. now exists f.
  - left. now injection Hrun as <-.
Qed.

Lemma repeats_samples (b : binary) (t : Z) (runs : list Sample) :
  repeats pf process b t = Ok runs ->
  samples pf process b t = runs /\ List.length runs = REPEATS.
Proof.
  intros H. unfold samples. rewrite H. split; [reflexivity |].
  unfold repeats in H. apply mapM_length in H. now rewrite length_seq in H.
Qed.

Lemma sweep_ok (T1 : float) (ths : list Z) (rows : list Row) :
  mapM (fun pthr => bind (repeats pf process OMP_BIN pthr)
                         (fun runs => config_row T1 pthr runs)) ths = Ok rows ->
  bench_rows T1 ths (samples pf process OMP_BIN) = Ok rows.
Proof.
  unfold bench_rows. revert rows.
  induction ths as [| p ths IH]; intros rows H; simpl in *; [exact H |].
  destruct (repeats pf process OMP_BIN p) as [runs |] eqn:E;
    cbn [bind] in H; [| discriminate H].
  rewrite (proj1 (repeats_samples _ _ E)).
  destruct (config_row T1 p runs) as [row |]; cbn [bind] in *;
    [| discriminate H].
  destruct (mapM _ ths) as [rows' |]; cbn [bind] in H; [| discriminate H].
  now rewrite (IH rows' eq_refl).
Qed.

Lemma sweep_error (T1 : float) (ths : list Z) (e : exn) :
  mapM (fun pthr => bind (repeats pf process OMP_BIN pthr)
                         (fun runs => config_row T1 pthr runs)) ths = Raise e ->
  exists p, In p ths /\ repeats pf process OMP_BIN p = Raise e.
Proof.
  intros H. destruct (@mapM_error _ _ _ _ _ H) as [p [Hp Hrow]].
  exists p. split; [exact Hp |].
  destruct (repeats pf process OMP_BIN p) as [runs |]; cbn [bind] in Hrow.
  - rewrite config_row_total in Hrow. discriminate Hrow.
  - now injection Hrow as <-.
Qed.

End BenchRunFacts.

(** X13: [bench.py] writes no file before every run was started and
    read.  Given that [float] reads every text of digits, a sweep either
    ends without an error, and is then the report of the three runs of
    each configuration, table included; or it writes nothing and ends with
    [SystemExit] because a program is missing, or, with both programs in
    place, with the exception raised when the directory of the plots was
    made, with the exception [subprocess.run] raised for one of the runs,
    or with [ValueError] because a run printed a timer or a bandwidth that
    [float] refuses.  Writing a file is taken to succeed, as in the whole
    model. *)
Theorem sweep_writes_after_all_runs :
  forall (l : list (float * float) -> list float -> option (float * float))
         (sf : float -> string) (si : Z -> string)
         (pf : string -> option float)
         (process : binary -> Z -> nat -> result Finished),
    (forall t, t <> EmptyString -> all_digits t = true ->
               exists x, pf t = Some x) ->
    forall (seq_exists omp_exists : bool) (mkdir : result unit) (NGRID : Z),
      let c := bench_run l sf si pf process seq_exists omp_exists mkdir
                         NGRID in
      match outcome c with
      | Ok _ =>
          seq_exists = true /\ omp_exists = true /\
          c = bench_main l sf si NGRID
                         (samples pf process SEQ_BIN 1)
                         (samples pf process OMP_BIN) /\
          List.length (samples pf process SEQ_BIN 1) = REPEATS /\
          In "plots/bench_results.csv"%string (paths c)
      | Raise e =>
          written c = [] /\
          ((e = SystemExit /\ (seq_exists = false \/ omp_exists = false)) \/
           (seq_exists = true /\ omp_exists = true /\ mkdir = Raise e) \/
           (seq_exists = true /\ omp_exists = true /\ mkdir = Ok tt /\
            exists b t i,
              (i < REPEATS)%nat /\
              (process b t i = Raise e \/
               (e = ValueError /\
                exists f, process b t i = Ok f /\
                          run_one_parse pf (f_out f) (f_err f)
                          = Raise ValueError))))
      end.
Proof.
  intros l sf si pf process Hpf se oe mkdir NGRID c. subst c.
  unfold bench_run, ensure_paths.
  destruct se; [destruct oe |]; simpl negb; simpl orb; cbv iota.
  2: { rewrite io_bind_lift_raise. simpl. split; [reflexivity |].
       left. split; [reflexivity | now right]. }
  2: { rewrite io_bind_lift_raise. simpl. split; [reflexivity |].
       left. split; [reflexivity | now left]. }
  destruct mkdir as [[] | e].
  2: { rewrite io_bind_lift_raise. simpl. split; [reflexivity |].
       right. left. repeat split. }
  rewrite io_bind_lift_ok.
  destruct (repeats pf process SEQ_BIN 1) as [serial | e] eqn:Eserial.
  2: { rewrite io_bind_lift_raise. simpl. split; [reflexivity |].
       right. right.
       destruct (@repeats_error pf process Hpf _ _ _ Eserial) as [i Hi].
       repeat split. now exists SEQ_BIN, 1%Z, i. }
  rewrite io_bind_lift_ok, serial_baseline_total, io_bind_lift_ok.
  cbn [T1_wall].
  destruct (mapM _ THREADS) as [rows | e] eqn:Erows.
  2: { rewrite io_bind_lift_raise. simpl. split; [reflexivity |].
       right. right.
       destruct (@sweep_error pf process _ _ _ Erows) as [p [_ Hp]].
       destruct (@repeats_error pf process Hpf _ _ _ Hp) as [i Hi].
       repeat split. now exists OMP_BIN, p, i. }
  rewrite io_bind_lift_ok.
  assert (Hrne : rows <> []).
  { apply mapM_length in Erows. destruct rows; [discriminate Erows |].
    discriminate. }
  destruct (repeats_samples _ _ _ _ Eserial) as [Hs Hlen].
  apply sweep_ok in Erows.
  assert (Hmain : bench_artifacts l sf si
                    {| grid := NGRID;
                       baseline :=
                         {| T1_wall := med_value (map wall_s serial);
                            T1_app := med_value (map app_s serial);
                            hc1 := med_value (map hc serial);
                            hp1 := med_value (map hp serial) |};
                       configs := rows |}
                  = bench_main l sf si NGRID
                               (samples pf process SEQ_BIN 1)
                               (samples pf process OMP_BIN)).
  { unfold bench_main, bench_report.
    rewrite Hs, serial_baseline_total, io_bind_lift_ok. cbn [T1_wall].
    now rewrite Erows, io_bind_lift_ok. }
  rewrite <- Hmain, Hs.
  pose proof (@bench_artifacts_written l sf si
                {| grid := NGRID;
                   baseline :=
                     {| T1_wall := med_value (map wall_s serial);
                        T1_app := med_value (map app_s serial);
                        hc1 := med_value (map hc serial);
                        hp1 := med_value (map hp serial) |};
                   configs := rows |} Hrne) as Hw.
  cbv zeta in Hw. rewrite Hw. simpl outcome. cbv iota.
  repeat split; try assumption.
  unfold paths, written, bench_core_files. cbn [fst app map path]. now left.
Qed.

Lemma sweep_witness :
  outcome (bench_run failing_lstsq Codec.str_float Codec.str_int
                     float_of_digits timed_process true true (Ok tt) 48)
  = Ok tt.
Proof.
  pose proof (@sweep_writes_after_all_runs
                failing_lstsq Codec.str_float Codec.str_int
                float_of_digits timed_process float_of_digits_reads
                true true (Ok tt) 48%Z) as H.
  cbv zeta in H.
  destruct (outcome (bench_run failing_lstsq Codec.str_float Codec.str_int
                               float_of_digits timed_process true true
                               (Ok tt) 48))
    as [[] | e]; [reflexivity |].
  destruct H as [_ [[_ [H | H]] | [[_ [_ H]]
                 | [_ [_ [_ [b [t [i [_ [H | [_ [f [H1 H]]]]]]]]]]]]]];
    try discriminate H.
  injection H1 as <-. discriminate H.
Defined.

(** * postprocess.py: blank cells *)

Section BlankCells.
Variable pf : string -> option float.
Variable pi : string -> option Z.

Lemma mapM_nth {A B : Type} (f : A -> result B) (l : list A) (bs : list B) :
  mapM f l = Ok bs ->
  forall i a, nth_error l i = Some a ->
              exists b, nth_error bs i = Some b /\ f a = Ok b.
Proof.
  revert bs. induction l as [| a0 l IH]; intros bs H i a Ha.
  - destruct i; discriminate Ha.
  - simpl in H. destruct (f a0) as [b0 |] eqn:E0; cbn [bind] in H;
      [| discriminate H].
    destruct (mapM f l) as [bs' |]; cbn [bind] in H; [| discriminate H].
    injection H as <-. destruct i as [| i]; simpl in *.
    + injection Ha as <-. now exists b0.
    + exact (IH bs' eq_refl i a Ha).
Qed.

Lemma mapM_ok_In {A B : Type} (f : A -> result B) (l : list A) (bs : list B) :
  mapM f l = Ok bs -> forall a, In a l -> exists b, f a = Ok b.
Proof.
  intros H a Ha. apply In_nth_error in Ha. destruct Ha as [i Hi].
  destruct (mapM_nth _ _ H _ Hi) as [b [_ Hb]]. now exists b.
Qed.

(** A blank cell under a test is read as [nan]. *)
Lemma blank_or_nan (key : string) (row : dict_row) :
  blank (item key row) -> dict_float_cell_or_nan pf key row = Ok nan.
Proof.
  unfold dict_float_cell_or_nan. intros [-> | ->]; reflexivity.
Qed.

(** A blank cell without a test makes the reading fail. *)
Lemma blank_float_cell (key : string) (row : dict_row) :
  pf EmptyString = None ->
  blank (item key row) ->
  exists e, dict_float_cell pf key row = Raise e.
Proof.
  intros He. unfold dict_float_cell. intros [-> | ->]; cbn [bind float_of_cell].
  - now exists TypeError.
  - unfold to_float. rewrite He. now exists ValueError.
Qed.

Lemma blank_int_cell (key : string) (row : dict_row) :
  pi EmptyString = None ->
  blank (item key row) ->
  exists e, dict_int_cell pi key row = Raise e.
Proof.
  intros He. unfold dict_int_cell. intros [-> | ->]; cbn [bind int_of_cell].
  - now exists TypeError.
  - unfold to_int. rewrite He. now exists ValueError.
Qed.

(** What a table that loads went through. *)
Lemma load_dict_ok (rows : list dict_row) (L : Loaded) :
  load_dict pf pi rows = Ok L ->
  exists row0 rest cols,
    rows = row0 :: rest /\
    (exists n, dict_int_cell pi "NGRID" row0 = Ok n) /\
    (exists x, dict_float_cell pf "T1_wall_s" row0 = Ok x) /\
    (exists x, dict_float_cell pf "T1_app_s" row0 = Ok x) /\
    dict_float_cell_or_nan pf "hc1" row0 = Ok (l_hc1 L) /\
    dict_float_cell_or_nan pf "hp1" row0 = Ok (l_hp1 L) /\
    mapM (load_dict_row pf pi) rows = Ok cols /\
    Sp L = map (fun c => match c with (_, _, s, _, _, _, _) => s end) cols /\
    Ep L = map (fun c => match c with (_, _, _, e, _, _, _) => e end) cols /\
    Hc L = map (fun c => match c with (_, _, _, _, h, _, _) => h end) cols /\
    Hp L = map (fun c => match c with (_, _, _, _, _, h, _) => h end) cols /\
    Rss L = map (fun c => match c with (_, _, _, _, _, _, r) => r end) cols.
Proof.
  unfold load_dict. destruct rows as [| row0 rest]; [discriminate |]. intros H.
  exists row0, rest.
  destruct (dict_int_cell pi "NGRID" row0) as [n |]; cbn [bind] in H;
    [| discriminate H].
  destruct (dict_float_cell pf "T1_wall_s" row0) as [w |]; cbn [bind] in H;
    [| discriminate H].
  destruct (dict_float_cell pf "T1_app_s" row0) as [ta |]; cbn [bind] in H;
    [| discriminate H].
  destruct (dict_float_cell_or_nan pf "hc1" row0) as [h1 |]; cbn [bind] in H;
    [| discriminate H].
  destruct (dict_float_cell_or_nan pf "hp1" row0) as [h2 |]; cbn [bind] in H;
    [| discriminate H].
  destruct (mapM (load_dict_row pf pi) (row0 :: rest)) as [cols |] eqn:E;
    cbn [bind] in H; [| discriminate H].
  injection H as <-. exists cols. cbn [l_hc1 l_hp1 Sp Ep Hc Hp Rss].
  repeat split; try reflexivity; eexists; reflexivity.
Qed.

(** What a row that was read went through. *)
Lemma load_dict_row_ok (row : dict_row) p tp sp ep hc hp rss :
  load_dict_row pf pi row = Ok (p, tp, sp, ep, hc, hp, rss) ->
  dict_int_cell pi "threads" row = Ok p /\
  dict_float_cell pf "Tp_wall_s" row = Ok tp /\
  dict_float_cell_or_nan pf "speedup" row = Ok sp /\
  dict_float_cell_or_nan pf "efficiency" row = Ok ep /\
  dict_float_cell_or_nan pf "hc_med" row = Ok hc /\
  dict_float_cell_or_nan pf "hp_med" row = Ok hp /\
  dict_float_cell_or_nan pf "maxrss_kb" row = Ok rss.
Proof.
  unfold load_dict_row. intros H.
  repeat match type of H with
         | bind ?c _ = Ok _ =>
             destruct c; cbn [bind] in H; [| discriminate H]
         end.
  injection H as <- <- <- <- <- <- <-. repeat split.
Qed.

End BlankCells.

(** X14: which cells of the table may be blank, that is empty or, in a
    row too short, without a text.  Given that [float] and [int] refuse
    the empty text: in a table that loads, a blank cell under [hc1] or
    [hp1] in the first row and under [speedup], [efficiency], [hc_med],
    [hp_med] or [maxrss_kb] in any row gives [nan] at its place in what
    [load] returns; a table with a blank cell under [threads] or
    [Tp_wall_s] in any row, or under [NGRID], [T1_wall_s] or [T1_app_s] in
    its first row, does not load, and [load] ends with [KeyError],
    [TypeError] or [ValueError].  [T1_app_s] is required although nothing
    later reads it. *)
Theorem blank_cells :
  forall (pf : string -> option float) (pi : string -> option Z),
    pf EmptyString = None ->
    pi EmptyString = None ->
    (forall rows L,
        load_dict pf pi rows = Ok L ->
        (forall row0 rest,
            rows = row0 :: rest ->
            (blank (item "hc1" row0) -> l_hc1 L = nan) /\
            (blank (item "hp1" row0) -> l_hp1 L = nan)) /\
        (forall i row,
            nth_error rows i = Some row ->
            (blank (item "speedup" row) -> nth_error (Sp L) i = Some nan) /\
            (blank (item "efficiency" row) -> nth_error (Ep L) i = Some nan) /\
            (blank (item "hc_med" row) -> nth_error (Hc L) i = Some nan) /\
            (blank (item "hp_med" row) -> nth_error (Hp L) i = Some nan) /\
            (blank (item "maxrss_kb" row) ->
             nth_error (Rss L) i = Some nan))) /\
    (forall rows row key,
        In row rows ->
        key = "threads"%string \/ key = "Tp_wall_s"%string ->
        blank (item key row) ->
        exists e, load_dict pf pi rows = Raise e /\
                  (e = KeyError \/ e = TypeError \/ e = ValueError)) /\
    (forall row0 rest key,
        key = "NGRID"%string \/ key = "T1_wall_s"%string \/
        key = "T1_app_s"%string ->
        blank (item key row0) ->
        exists e, load_dict pf pi (row0 :: rest) = Raise e /\
                  (e = KeyError \/ e = TypeError \/ e = ValueError)).
Proof.
  intros pf pi Hf Hi.
  assert (Hfails : forall rows,
             rows <> [] ->
             (forall L, load_dict pf pi rows <> Ok L) ->
             exists e, load_dict pf pi rows = Raise e /\
                       (e = KeyError \/ e = TypeError \/ e = ValueError)).
  { intros rows Hne Hno.
    destruct (load_dict pf pi rows) as [L | e] eqn:E;
      [exfalso; exact (Hno L eq_refl) |].
    exists e. split; [reflexivity |].
    destruct (load_dict_error _ _ _ E) as [[Hr _] | [_ [row [key [_ Hk]]]]];
      [contradiction | exact (cell_failure_exn Hk)]. }
  split; [| split].
  - intros rows L HL.
    destruct (load_dict_ok _ _ _ HL)
      as [r0 [rest' [cols [Hrows [_ [_ [_ [Hhc1 [Hhp1
            [Hcols [HSp [HEp [HHc [HHp HRss]]]]]]]]]]]]]].
    split.
    + intros row0 rest Heq. rewrite Heq in Hrows. injection Hrows as <- <-.
      split; intros Hb; rewrite (blank_or_nan pf _ _ Hb) in *; congruence.
    + intros i row Hrow.
      destruct (mapM_nth _ _ Hcols _ Hrow)
        as [[[[[[[p tp] sp] ep] hc] hp] rss] [Hnth Hread]].
      destruct (load_dict_row_ok _ _ _ Hread)
        as [_ [_ [Hsp [Hep [Hhc [Hhp Hrss]]]]]].
      rewrite HSp, HEp, HHc, HHp, HRss, !nth_error_map, Hnth. cbn [option_map].
      repeat split; intros Hb; rewrite (blank_or_nan pf _ _ Hb) in *; congruence.
  - intros rows row key Hin Hkey Hb. apply Hfails.
    + intros ->. contradiction.
    + intros L HL.
      destruct (load_dict_ok _ _ _ HL)
        as [r0 [rest' [cols [_ [_ [_ [_ [_ [_ [Hcols _]]]]]]]]]].
      destruct (mapM_ok_In _ _ Hcols row Hin)
        as [[[[[[[p tp] sp] ep] hc] hp] rss] Hread].
      destruct (load_dict_row_ok _ _ _ Hread) as [Hp' [Htp _]].
      destruct Hkey as [-> | ->].
      * destruct (blank_int_cell pi _ _ Hi Hb) as [e He]. congruence.
      * destruct (blank_float_cell pf _ _ Hf Hb) as [e He]. congruence.
  - intros row0 rest key Hkey Hb. apply Hfails; [discriminate |].
    intros L HL.
    destruct (load_dict_ok _ _ _ HL)
      as [r0 [rest' [cols [Heq [[n Hn] [[w Hw] [[ta Hta] _]]]]]]].
    injection Heq as <- <-.
    destruct Hkey as [-> | [-> | ->]].
    + destruct (blank_int_cell pi _ _ Hi Hb) as [e He]. congruence.
    + destruct (blank_float_cell pf _ _ Hf Hb) as [e He]. congruence.
    + destruct (blank_float_cell pf _ _ Hf Hb) as [e He]. congruence.
Qed.

Lemma blank_cells_witness :
  exists L,
    load_dict Codec.parse_float Codec.parse_int [short_row] = Ok L /\
    l_hc1 L = nan /\
    nth_error (Sp L) 0 = Some nan /\
    nth_error (Rss L) 0 = Some nan.
Proof.
  destruct (load_dict Codec.parse_float Codec.parse_int [short_row])
    as [L |] eqn:E; [| vm_compute in E; discriminate E].
  exists L. split; [reflexivity |].
  destruct (proj1 (@blank_cells Codec.parse_float Codec.parse_int
                     eq_refl eq_refl) [short_row] L E) as [H0 Hi].
  destruct (H0 short_row [] eq_refl) as [Hhc1 _].
  destruct (Hi 0%nat short_row eq_refl) as [Hsp [_ [_ [_ Hrss]]]].
  split; [apply Hhc1; right; reflexivity |].
  split; [apply Hsp; right; reflexivity | apply Hrss; left; reflexivity].
Defined.

(** * bench.py: what the patterns capture *)

Section CaptureFacts.
Local Open Scope string_scope.
Variable A : Type.

Lemma many_spec (cls : ascii -> bool) (s : string)
      (k : string -> option A) (r : A) :
  Re.many cls s k = Some r ->
  exists pre rest, s = pre ++ rest /\ all_in cls pre = true /\ k rest = Some r.
Proof.
  induction s as [| c s IH]; simpl; intros H.
  - exists "", "". repeat split. exact H.
  - destruct (cls c) eqn:Ec.
    + destruct (Re.many cls s k) as [r' |] eqn:E.
      * injection H as ->. destruct (IH eq_refl) as [pre [rest [-> [Hp Hk]]]].
        exists (String c pre), rest. repeat split; [| exact Hk].
        simpl. now rewrite Ec.
      * exists "", (String c s). repeat split. exact H.
    + exists "", (String c s). repeat split. exact H.
Qed.

Lemma match_lit (lit s : string) (caps : list string)
      (k : string -> list string -> option A) (r : A) :
  Re.match_at (Re.Lit lit) s caps k = Some r ->
  exists rest, s = lit ++ rest /\ k rest caps = Some r.
Proof.
  simpl. destruct (Re.strip_prefix lit s) as [rest |] eqn:E; [| discriminate].
  intros H. exists rest. split; [now apply strip_prefix_spec | exact H].
Qed.

Lemma match_many (cls : ascii -> bool) (b : bool) (s : string)
      (caps : list string) (k : string -> list string -> option A) (r : A) :
  Re.match_at (Re.Many cls b) s caps k = Some r ->
  exists pre rest,
    s = pre ++ rest /\ all_in cls pre = true /\
    (b = true -> pre <> "") /\ k rest caps = Some r.
Proof.
  destruct b; simpl.
  - destruct s as [| c s]; [discriminate |].
    destruct (cls c) eqn:Ec; [| discriminate]. intros H.
    destruct (@many_spec _ _ _ _ H) as [pre [rest [-> [Hp Hk]]]].
    exists (String c pre), rest. repeat split; try assumption.
    + simpl. now rewrite Ec.
    + discriminate.
  - intros H. destruct (@many_spec _ _ _ _ H) as [pre [rest [-> [Hp Hk]]]].
    exists pre, rest. repeat split; try assumption. discriminate.
Qed.

Lemma consumed_app (pre rest : string) : Re.consumed (pre ++ rest) rest = pre.
Proof.
  unfold Re.consumed.
  assert (Hlen : forall a b, String.length (a ++ b)
                             = (String.length a + String.length b)%nat).
  { intros a b. induction a as [| x a IH]; simpl; [reflexivity | now rewrite IH]. }
  rewrite Hlen.
  replace (String.length pre + String.length rest - String.length rest)%nat
    with (String.length pre) by lia.
  induction pre as [| x pre IH]; simpl.
  - now destruct rest.
  - now rewrite IH.
Qed.

(** A group around [cls+] captures a text of the class that is not
    empty. *)
Lemma match_group_many (cls : ascii -> bool) (s : string)
      (caps : list string) (k : string -> list string -> option A) (r : A) :
  Re.match_at (Re.Group (Re.Many cls true)) s caps k = Some r ->
  exists t rest,
    s = t ++ rest /\ t <> "" /\ all_in cls t = true /\
    k rest (caps ++ [t])%list = Some r.
Proof.
  cbn [Re.match_at]. intros H.
  change (Re.match_at (Re.Many cls true) s caps
            (fun rest caps' => k rest (caps' ++ [Re.consumed s rest])%list)
          = Some r) in H.
  destruct (@match_many _ _ _ _ _ _ H) as [pre [rest [-> [Hp [Hne Hk]]]]].
  rewrite consumed_app in Hk.
  exists pre, rest. repeat split; auto.
Qed.

End CaptureFacts.

Section SearchFacts.
Local Open Scope string_scope.

Lemma search_spec (r : Re.regex) (s : string) (caps : list string) :
  Re.search r s = Some caps ->
  exists pre s1,
    s = pre ++ s1 /\
    Re.match_at r s1 [] (fun _ caps' => Some caps') = Some caps.
Proof.
  induction s as [| c s IH]; cbn [Re.search].
  - destruct (Re.match_at r "" [] _) as [caps' |] eqn:E; [| discriminate].
    intros [= <-]. now exists "", "".
  - destruct (Re.match_at r (String c s) [] _) as [caps' |] eqn:E.
    + intros [= <-]. now exists "", (String c s).
    + intros H. destruct (IH H) as [pre [s1 [-> Hm]]].
      now exists (String c pre), s1.
Qed.

(** What the pattern of a bandwidth matches: the label, white space and
    the captured text. *)
Lemma bandwidth_match (label s : string) (caps : list string) :
  Re.match_at
    (Re.Cat (Re.Lit label)
       (Re.Cat (Re.Many Re.space false)
               (Re.Group (Re.Many Re.digit_or_dot true))))
    s [] (fun _ caps' => Some caps') = Some caps ->
  exists ws t rest,
    s = label ++ ws ++ t ++ rest /\ all_in Re.space ws = true /\
    digits_and_dots t /\ caps = [t].
Proof.
  cbn [Re.match_at]. intros H.
  change (Re.match_at (Re.Lit label) s []
            (fun rest caps' =>
               Re.match_at (Re.Many Re.space false) rest caps'
                 (fun rest0 caps'0 =>
                    Re.match_at (Re.Group (Re.Many Re.digit_or_dot true))
                                rest0 caps'0 (fun _ c => Some c)))
          = Some caps) in H.
  destruct (@match_lit _ _ _ _ _ _ H) as [r1 [-> H1]].
  destruct (@match_many _ _ _ _ _ _ _ H1) as [ws [r2 [-> [Hws [_ H2]]]]].
  destruct (@match_group_many _ _ _ _ _ _ H2) as [t [r3 [-> [Hne [Ht H3]]]]].
  injection H3 as <-. exists ws, t, r3. repeat split; auto.
Qed.

Lemma timer_match (s : string) (caps : list string) :
  Re.match_at APP_TIME_RE s [] (fun _ caps' => Some caps') = Some caps ->
  exists ws t ws' rest,
    s = "[bandwidth_grid_total]" ++ ws ++ t ++ ws' ++ "s" ++ rest /\
    all_in Re.space ws = true /\ ws <> "" /\
    digits_and_dots t /\ all_in Re.space ws' = true /\ caps = [t].
Proof.
  unfold APP_TIME_RE. cbn [Re.match_at]. intros H.
  change (Re.match_at (Re.Lit "[bandwidth_grid_total]") s []
            (fun rest caps' =>
               Re.match_at (Re.Many Re.space true) rest caps'
                 (fun rest0 caps'0 =>
                    Re.match_at (Re.Group (Re.Many Re.digit_or_dot true))
                      rest0 caps'0
                      (fun rest1 caps'1 =>
                         Re.match_at (Re.Many Re.space false) rest1 caps'1
                           (fun rest2 caps'2 =>
                              Re.match_at (Re.Lit "s") rest2 caps'2
                                          (fun _ c => Some c)))))
          = Some caps) in H.
  destruct (@match_lit _ _ _ _ _ _ H) as [r1 [-> H1]].
  destruct (@match_many _ _ _ _ _ _ _ H1) as [ws [r2 [-> [Hws [Hwne H2]]]]].
  destruct (@match_group_many _ _ _ _ _ _ H2) as [t [r3 [-> [Hne [Ht H3]]]]].
  destruct (@match_many _ _ _ _ _ _ _ H3) as [ws' [r4 [-> [Hws' [_ H4]]]]].
  destruct (@match_lit _ _ _ _ _ _ H4) as [r5 [-> H5]].
  injection H5 as <-. exists ws, t, ws', r5. repeat split; auto.
Qed.

End SearchFacts.

(** X15: what [float] is asked to read.  A match of the pattern of [hc] in
    a text is the label, white space and the one captured group, a text of
    digits and dots that is not empty; the same holds for [hp], and for
    the timer, whose group stands between white space that is not empty
    and optional white space before the letter s. *)
Theorem captures_are_digits_and_dots :
  forall (s : string) (caps : list string),
    (Re.search HC_RE s = Some caps ->
     exists pre ws t rest,
       s = (pre ++ "hc:" ++ ws ++ t ++ rest)%string /\
       all_in Re.space ws = true /\ digits_and_dots t /\
       Re.group1 caps = t) /\
    (Re.search HP_RE s = Some caps ->
     exists pre ws t rest,
       s = (pre ++ "hp:" ++ ws ++ t ++ rest)%string /\
       all_in Re.space ws = true /\ digits_and_dots t /\
       Re.group1 caps = t) /\
    (Re.search APP_TIME_RE s = Some caps ->
     exists pre ws t ws' rest,
       s = (pre ++ "[bandwidth_grid_total]" ++ ws ++ t ++ ws' ++ "s" ++ rest)%string /\
       all_in Re.space ws = true /\ ws <> EmptyString /\
       digits_and_dots t /\ all_in Re.space ws' = true /\
       Re.group1 caps = t).
Proof.
  intros s caps. split; [| split]; intros H;
    destruct (@search_spec _ _ _ H) as [pre [s1 [-> Hm]]].
  - destruct (@bandwidth_match _ _ _ Hm) as [ws [t [rest [-> [Hws [Ht ->]]]]]].
    exists pre, ws, t, rest. repeat split; try assumption; apply Ht.
  - destruct (@bandwidth_match _ _ _ Hm) as [ws [t [rest [-> [Hws [Ht ->]]]]]].
    exists pre, ws, t, rest. repeat split; try assumption; apply Ht.
  - destruct (@timer_match _ _ Hm)
      as [ws [t [ws' [rest [-> [Hws [Hne [Ht [Hws' ->]]]]]]]]].
    exists pre, ws, t, ws', rest. repeat split; try assumption; apply Ht.
Qed.

Lemma captures_witness :
  exists pre ws t rest,
    hc_line = (pre ++ "hc:" ++ ws ++ t ++ rest)%string /\
    all_in Re.space ws = true /\ digits_and_dots t /\
    Re.group1 ["0.25"%string] = t.
Proof.
  apply (proj1 (captures_are_digits_and_dots hc_line ["0.25"%string])).
  reflexivity.
Defined.
